(** * pr_issue_sync: linked issues follow the life cycle of a pull request

    A shallow embedding of [scripts/pr_issue_sync/pr_issue_sync.py].

    The script talks to two collaborators: the REST client (PyGithub's
    [Repository], [Issue] and [PullRequest] objects) and the GraphQL endpoint
    reached through [requests.post].  Both are modelled by one server state,
    [GitHub], and by an oracle [net] that decides for the k-th call sent over
    the wire whether it is served, gets no response, or is answered by an
    arbitrary HTTP response.  Python code becomes a state and
    exception monad over [World]: the server, the [lru_cache] of
    [get_project_fields], the calls sent so far and the lines printed.

    What is assumed of the collaborators: the process is the only client of
    the server during a run; a call that is served acts as the REST and
    GraphQL documentation says (an edit of an issue replaces the attribute
    and answers with the issue as it is afterwards, the mutation selects the
    option on the item it names); a call that is not served leaves the
    server as it was.

    The REST client raises for a response with status 400 or more and
    otherwise builds its object from the body of the response.  The model
    has no bodies for REST responses: a response that the server did not
    produce is taken to be a refusal, and [rest] raises for it.  Where a
    statement about every network depends on this, it assumes [refusals],
    which excludes responses below 400 that do not come from the server. *)

From stdpp Require Import base option list gmap strings.
From Stdlib Require Import ZArith Lia.

(** ** Data model *)

(** [GHConfig] (pydantic model). *)
Record GHConfig := {
  token : string;
  organization : string;
  repository : string;
  project_number : Z;
  graphql_url : string;
  rest_url : string;
  headers : list (string * string)
}.

(** The attributes of a PyGithub [PullRequest] the script reads:
    [pr.merged], [pr.state], [pr.draft], the logins of [pr.assignees] and
    [pr.user.login]. *)
Record PullRequest := {
  merged : bool;
  pr_state : string;
  draft : bool;
  pr_logins : list string;
  user_login : string
}.

(** The attributes of a PyGithub [Issue] the script reads.  The number is the
    key under which the object is fetched and stored. *)
Record Issue := {
  node_id : string;
  state : string;
  assignees : list string
}.

(** A node of [closingIssuesReferences]: [{id, body, number, title}]. *)
Record LinkedIssue := {
  li_id : string;
  li_body : string;
  li_number : Z;
  li_title : string
}.

(** A node of [projectItems]: the item id and the project it belongs to. *)
Record ProjectItem := {
  pi_id : string;
  pi_project : string
}.

(** An option of a single-select field, and such a field. *)
Record FieldOption := {
  opt_id : string;
  opt_name : string
}.

Record Field := {
  fld_id : string;
  fld_name : string;
  fld_options : list FieldOption
}.

(** Python exceptions that can reach the script. *)
Inductive exn :=
| ValueError (msg : string)
| QueryFailed (code : Z) (body : string)
| RequestException
| JSONDecodeError
| GithubException (code : Z)
| KeyError
| IndexError
| TypeError.

Definition either_msg : string :=
  "Either issue_number or issue_node_id must be provided.".
Definition only_one_msg : string :=
  "Only one of issue_number or issue_node_id must be provided.".
Definition field_not_found (field_name : string) : string :=
  "Field '" +:+ field_name +:+ "' not found in project fields.".

(** The five GraphQL documents of the script with their variables. *)
Inductive Query :=
| QProjectNodeId (owner : string) (number : Z)
| QIssueInfo (issueId : string)
| QProjectFields (projectId : string)
| QLinkedIssues (number : Z) (owner repo : string)
| MUpdateFieldValue (projectId : string) (itemId : option string)
                    (fieldId optionId : string).

(** Every call that leaves the process. *)
Inductive Request :=
| GetRepo (full_name : string)
| GetPull (n : Z)
| GetIssue (n : Z)
| EditIssueState (n : Z) (st : string)
| EditIssueAssignees (n : Z) (logins : list string)
| RemoveAssignees (n : Z) (logins : list string)
| PostGraphQL (url : string) (q : Query).

(** Parsed JSON bodies, one shape per query.  In [DFields] a node [None] is
    the empty object [{}] that the inline fragment leaves for a field that is
    not single-select; in [DClosing] an edge [None] has a null [node].
    [DErrors] is a body whose ["data"] is null. *)
Inductive Data :=
| DProjectNodeId (id : string)
| DProjectItems (nodes : list ProjectItem)
| DFields (nodes : list (option Field))
| DClosing (edges : list (option LinkedIssue))
| DUpdated (item : string)
| DErrors.

(** A [requests.Response]: [status_code], [text] and the outcome of
    [response.json()]. *)
Record Response := {
  status_code : Z;
  text : string;
  json : option Data
}.

(** What happens to one call: it reaches the server and is served, no
    response arrives (timeout, connection error), or some response comes back
    without the server acting. *)
Inductive Net :=
| Up
| Down
| Reply (r : Response).

(** Lines printed by the script, by content. *)
Inductive Line :=
| LLinkedIssues (l : list LinkedIssue)
| LNoAssignees (l : list string)
| LPrAssignees (l : list string)
| LMerged
| LClosed (n : Z)
| LAlreadyClosed (n : Z)
| LSetDone (n : Z)
| LClosedWithoutMerging
| LRemovedAssignees (n : Z)
| LWarnRemove (n : Z) (e : exn)
| LSetSelected (n : Z)
| LTargetStatus (s : string)
| LAssigned (n : Z) (l : list string)
| LWarnAssign (n : Z) (e : exn).

(** ** The server *)

Record GitHub := {
  pulls : gmap Z PullRequest;
  closing : gmap Z (list (option LinkedIssue));
  issues : gmap Z Issue;
  project_items : gmap string (list ProjectItem);
  projects : gmap (string * Z) string;
  project_fields : gmap string (list (option Field));
  field_values : gmap (string * string) string
}.

Definition with_issues (f : gmap Z Issue -> gmap Z Issue) (g : GitHub) : GitHub :=
  {| pulls := pulls g; closing := closing g; issues := f (issues g);
     project_items := project_items g; projects := projects g;
     project_fields := project_fields g; field_values := field_values g |}.

Definition with_field_values
    (f : gmap (string * string) string -> gmap (string * string) string)
    (g : GitHub) : GitHub :=
  {| pulls := pulls g; closing := closing g; issues := issues g;
     project_items := project_items g; projects := projects g;
     project_fields := project_fields g; field_values := f (field_values g) |}.

Definition set_state (st : string) (i : Issue) : Issue :=
  {| node_id := node_id i; state := st; assignees := assignees i |}.

Definition set_assignees (l : list string) (i : Issue) : Issue :=
  {| node_id := node_id i; state := state i; assignees := l |}.

Definition mem (s : string) (l : list string) : bool :=
  existsb (String.eqb s) l.

Definition drop_assignees (l : list string) (i : Issue) : Issue :=
  set_assignees (filter (fun a => negb (mem a l)) (assignees i)) i.

(** PATCH and DELETE on an issue answer with the issue as it is afterwards. *)
Definition serve_update (n : Z) (f : Issue -> Issue) (g : GitHub)
  : option (Issue * GitHub) :=
  match issues g !! n with
  | Some i => Some (f i, with_issues (insert n (f i)) g)
  | None => None
  end.

(** The answer to a GraphQL document and the server afterwards.  An unknown
    node or project gives a body without data.  The mutation writes the
    option under the item and the field it names; it does not check that
    the item belongs to the project. *)
Definition serve_graphql (q : Query) (g : GitHub) : Data * GitHub :=
  match q with
  | QProjectNodeId owner number =>
      (match projects g !! (owner, number) with
       | Some id => DProjectNodeId id
       | None => DErrors
       end, g)
  | QIssueInfo issueId =>
      (match project_items g !! issueId with
       | Some nodes => DProjectItems nodes
       | None => DErrors
       end, g)
  | QProjectFields projectId =>
      (match project_fields g !! projectId with
       | Some nodes => DFields nodes
       | None => DErrors
       end, g)
  | QLinkedIssues number _ _ =>
      (match closing g !! number with
       | Some edges => DClosing edges
       | None => DErrors
       end, g)
  | MUpdateFieldValue _ (Some item) fieldId optionId =>
      (DUpdated item, with_field_values (insert (item, fieldId) optionId) g)
  | MUpdateFieldValue _ None _ _ => (DErrors, g)
  end.

(** ** The process: state and exceptions *)

Record World := {
  github : GitHub;
  fields_cache : option (nat * list Field);
  trace : list Request;
  stdout : list Line
}.

Definition with_github (f : GitHub -> GitHub) (w : World) : World :=
  {| github := f (github w); fields_cache := fields_cache w;
     trace := trace w; stdout := stdout w |}.

Definition with_cache (c : option (nat * list Field)) (w : World) : World :=
  {| github := github w; fields_cache := c;
     trace := trace w; stdout := stdout w |}.

Definition with_trace (t : list Request) (w : World) : World :=
  {| github := github w; fields_cache := fields_cache w;
     trace := t; stdout := stdout w |}.

Definition with_stdout (o : list Line) (w : World) : World :=
  {| github := github w; fields_cache := fields_cache w;
     trace := trace w; stdout := o |}.

Inductive result (A : Type) :=
| Ok (a : A)
| Raise (e : exn).
Arguments Ok {A} a.
Arguments Raise {A} e.

Definition M (A : Type) : Type := World -> result A * World.

Definition ret {A} (a : A) : M A := fun w => (Ok a, w).

Definition raise {A} (e : exn) : M A := fun w => (Raise e, w).

Definition bind {A B} (m : M A) (k : A -> M B) : M B :=
  fun w =>
    match m w with
    | (Ok a, w') => k a w'
    | (Raise e, w') => (Raise e, w')
    end.

(** [try: m except Exception as e: h e]. *)
Definition try_except {A} (m : M A) (h : exn -> M A) : M A :=
  fun w =>
    match m w with
    | (Ok a, w') => (Ok a, w')
    | (Raise e, w') => h e w'
    end.

Notation "'do' x <- m ; k" := (bind m (fun x => k))
  (at level 10, x name, m at level 100, k at level 200).

Definition print (l : Line) : M unit :=
  fun w => (Ok tt, with_stdout (stdout w ++ [l]) w).

(** Python truthiness of [int | None] and [str | None]. *)
Definition truthy_int (x : option Z) : bool :=
  match x with
  | Some n => negb (n =? 0)%Z
  | None => false
  end.

Definition truthy_str (x : option string) : bool :=
  match x with
  | Some s => negb (String.eqb s "")
  | None => false
  end.

(** [set(a) != set(b)] on lists of logins. *)
Definition same_set (a b : list string) : bool :=
  forallb (fun x => mem x b) a && forallb (fun x => mem x a) b.

(** The comprehension that keeps the edges with a node, and
    [list(filter(bool, nodes))]. *)
Definition present {A} (l : list (option A)) : list A := omap id l.

(** [ProjectItemHandler]: the identity of the object (the key of the
    [lru_cache]), its configuration and [self.project_node_id]. *)
Record ProjectItemHandler := {
  hid : nat;
  gh_config : GHConfig;
  project_node_id : string
}.

Section Process.

(** The fate of the k-th call sent by the process. *)
Variable net : nat -> Net.

Definition send (r : Request) : M Net :=
  fun w => (Ok (net (length (trace w))), with_trace (trace w ++ [r]) w).

(** A PyGithub call: the object comes back, the transport fails, or an
    error status becomes a [GithubException].  PyGithub raises for a status
    of 400 or more; the last case matches it on those responses only, see
    [refusals]. *)
Definition rest {A} (r : Request) (serve : GitHub -> option (A * GitHub)) : M A :=
  do n <- send r;
  match n with
  | Up => fun w =>
      match serve (github w) with
      | Some (a, g) => (Ok a, with_github (fun _ => g) w)
      | None => (Raise (GithubException 404), w)
      end
  | Down => raise RequestException
  | Reply r => raise (GithubException (status_code r))
  end.

Definition repo_get_pull (n : Z) : M PullRequest :=
  rest (GetPull n) (fun g => (fun p => (p, g)) <$> pulls g !! n).

Definition repo_get_issue (n : Z) : M Issue :=
  rest (GetIssue n) (fun g => (fun i => (i, g)) <$> issues g !! n).

(** [gh_issue.edit(state=st)], [gh_issue.edit(assignees=l)] and
    [gh_issue.remove_from_assignees] called on [l].  PyGithub refreshes the
    attributes of the object from the answer; here the call returns them and
    the caller stores them under the number of the object. *)
Definition issue_edit_state (n : Z) (st : string) : M Issue :=
  rest (EditIssueState n st) (serve_update n (set_state st)).

Definition issue_edit_assignees (n : Z) (l : list string) : M Issue :=
  rest (EditIssueAssignees n l) (serve_update n (set_assignees l)).

Definition issue_remove_from_assignees (n : Z) (l : list string) : M Issue :=
  rest (RemoveAssignees n l) (serve_update n (drop_assignees l)).

(** [requests.post(self.gh_config.graphql_url, json=..., timeout=10)]. *)
Definition requests_post (url : string) (q : Query) : M Response :=
  do n <- send (PostGraphQL url q);
  match n with
  | Up => fun w =>
      let '(d, g) := serve_graphql q (github w) in
      (Ok {| status_code := 200; text := ""; json := Some d |},
       with_github (fun _ => g) w)
  | Down => raise RequestException
  | Reply r => ret r
  end.

Definition response_json (r : Response) : M Data :=
  match json r with
  | Some d => ret d
  | None => raise JSONDecodeError
  end.

Definition run_graphql (self : ProjectItemHandler) (q : Query) : M Data :=
  do response <- requests_post (graphql_url (gh_config self)) q;
  if negb (status_code response =? 200)%Z
  then raise (QueryFailed (status_code response) (text response))
  else response_json response.

(** Subscripting a body of the wrong shape. *)
Definition bad_shape {A} (d : Data) : M A :=
  match d with
  | DErrors => raise TypeError
  | _ => raise KeyError
  end.

Definition get_project_node_id (self : ProjectItemHandler) : M string :=
  do resp <- run_graphql self
       (QProjectNodeId (organization (gh_config self))
                       (project_number (gh_config self)));
  match resp with
  | DProjectNodeId id => ret id
  | d => bad_shape d
  end.

Definition get_issue_info (self : ProjectItemHandler) (issue_node_id : string)
  : M (list ProjectItem) :=
  do resp <- run_graphql self (QIssueInfo issue_node_id);
  match resp with
  | DProjectItems nodes => ret nodes
  | d => bad_shape d
  end.

(** [@functools.lru_cache(maxsize=1)] on a method: one slot, keyed by the
    object; a call that raises stores nothing. *)
Definition lru_cache_1 (key : nat) (body : M (list Field)) : M (list Field) :=
  fun w =>
    let miss :=
      match body w with
      | (Ok v, w') => (Ok v, with_cache (Some (key, v)) w')
      | (Raise e, w') => (Raise e, w')
      end in
    match fields_cache w with
    | Some (k, v) => if (k =? key)%nat then (Ok v, w) else miss
    | None => miss
    end.

Definition fetch_project_fields (self : ProjectItemHandler) : M (list Field) :=
  do resp <- run_graphql self (QProjectFields (project_node_id self));
  match resp with
  | DFields nodes => ret (present nodes)
  | d => bad_shape d
  end.

Definition get_project_fields (self : ProjectItemHandler) : M (list Field) :=
  lru_cache_1 (hid self) (fetch_project_fields self).

(** The inner loop of [get_status_field_id]: the first option with the
    requested name, then [break]. *)
Definition find_option (field_name : string) (options : list FieldOption)
  : option string :=
  opt_id <$> List.find (fun o => String.eqb (opt_name o) field_name) options.

(** One turn of the outer loop on the pair [(field_id, option_id)]. *)
Definition scan_field (field_name : string)
    (acc : option string * option string) (field : Field)
  : option string * option string :=
  if negb (String.eqb (fld_name field) "Status") then acc
  else (Some (fld_id field),
        match find_option field_name (fld_options field) with
        | Some o => Some o
        | None => snd acc
        end).

Definition resolve_status (field_name : string) (project_fields : list Field)
  : result (string * string) :=
  let '(field_id, option_id) :=
    fold_left (scan_field field_name) project_fields (None, None) in
  if negb (truthy_str field_id) || negb (truthy_str option_id)
  then Raise (ValueError (field_not_found field_name))
  else Ok (default "" field_id, default "" option_id).

Definition get_status_field_id (self : ProjectItemHandler) (field_name : string)
  : M (string * string) :=
  do project_fields <- get_project_fields self;
  fun w => (resolve_status field_name project_fields, w).

Definition set_field_option (self : ProjectItemHandler)
    (item_id : option string) (field_id option_id : string) : M Data :=
  run_graphql self
    (MUpdateFieldValue (project_node_id self) item_id field_id option_id).

Definition get_pull_request_linked_issues (self : ProjectItemHandler)
    (pr_number : Z) : M (list LinkedIssue) :=
  do resp <- run_graphql self
       (QLinkedIssues pr_number (organization (gh_config self))
                      (repository (gh_config self)));
  match resp with
  | DClosing edges => ret (present edges)
  | d => bad_shape d
  end.

Definition set_issue_status (self : ProjectItemHandler) (status : string)
    (issue_number : option Z) (issue_node_id : option string) : M unit :=
  if negb (truthy_int issue_number) && negb (truthy_str issue_node_id)
  then raise (ValueError either_msg)
  else if truthy_int issue_number && truthy_str issue_node_id
  then raise (ValueError only_one_msg)
  else
    do issue_id <-
      match issue_number with
      | Some n =>
          do issue <- repo_get_issue n;
          do items <- get_issue_info self (node_id issue);
          match items with
          | item :: _ => ret (Some (pi_id item))
          | [] => raise IndexError
          end
      | None => ret issue_node_id
      end;
    do ids <- get_status_field_id self status;
    do _ <- set_field_option self issue_id (fst ids) (snd ids);
    ret tt.

(** [for a in l: s = body a s]: the loops of the script, with the local
    dictionary [gh_issues] of issue objects as the loop state. *)
Fixpoint for_each {A S} (body : A -> S -> M S) (l : list A) (s : S) : M S :=
  match l with
  | [] => ret s
  | a :: l' => do s' <- body a s; for_each body l' s'
  end.

(** [gh_issues[issue["number"]]]. *)
Definition getitem (gh_issues : gmap Z Issue) (n : Z) : M Issue :=
  match gh_issues !! n with
  | Some i => ret i
  | None => raise KeyError
  end.

(** The dictionary comprehension that fetches the issue objects upfront. *)
Definition fetch_issue (issue : LinkedIssue) (gh_issues : gmap Z Issue)
  : M (gmap Z Issue) :=
  do i <- repo_get_issue (li_number issue);
  ret (<[li_number issue := i]> gh_issues).

(** Body of the loop of the merged branch. *)
Definition merged_body (self : ProjectItemHandler) (issue : LinkedIssue)
    (gh_issues : gmap Z Issue) : M (gmap Z Issue) :=
  do gh_issue <- getitem gh_issues (li_number issue);
  do gh_issues' <-
    (if String.eqb (state gh_issue) "open" then
       do i <- issue_edit_state (li_number issue) "closed";
       do _ <- print (LClosed (li_number issue));
       ret (<[li_number issue := i]> gh_issues)
     else
       do _ <- print (LAlreadyClosed (li_number issue));
       ret gh_issues);
  do _ <- set_issue_status self "Done" (Some (li_number issue)) None;
  do _ <- print (LSetDone (li_number issue));
  ret gh_issues'.

(** Body of the loop of the branch for a pull request closed unmerged. *)
Definition closed_body (self : ProjectItemHandler) (issue : LinkedIssue)
    (gh_issues : gmap Z Issue) : M (gmap Z Issue) :=
  do gh_issue <- getitem gh_issues (li_number issue);
  do gh_issues' <-
    (match assignees gh_issue with
     | [] => ret gh_issues
     | _ :: _ =>
         try_except
           (do i <- issue_remove_from_assignees (li_number issue)
                      (assignees gh_issue);
            do _ <- print (LRemovedAssignees (li_number issue));
            ret (<[li_number issue := i]> gh_issues))
           (fun e =>
              do _ <- print (LWarnRemove (li_number issue) e);
              ret gh_issues)
     end);
  do _ <- set_issue_status self "Selected for Development"
            (Some (li_number issue)) None;
  do _ <- print (LSetSelected (li_number issue));
  ret gh_issues'.

(** Body of the loop of the branch for an open pull request. *)
Definition open_body (self : ProjectItemHandler) (target_status : string)
    (pr_assignees : list string) (issue : LinkedIssue)
    (gh_issues : gmap Z Issue) : M (gmap Z Issue) :=
  do gh_issue <- getitem gh_issues (li_number issue);
  let current_assignees := assignees gh_issue in
  do gh_issues' <-
    (if negb (same_set current_assignees pr_assignees) then
       try_except
         (do i <- issue_edit_assignees (li_number issue) pr_assignees;
          do _ <- print (LAssigned (li_number issue) pr_assignees);
          ret (<[li_number issue := i]> gh_issues))
         (fun e =>
            do _ <- print (LWarnAssign (li_number issue) e);
            ret gh_issues)
     else ret gh_issues);
  do _ <- set_issue_status self target_status (Some (li_number issue)) None;
  ret gh_issues'.

(** [pr.assignees] as logins, or the author when there is none. *)
Definition assignees_or_author (pr : PullRequest) : list string :=
  match pr_logins pr with
  | [] => [user_login pr]
  | l => l
  end.

Definition target_of (pr : PullRequest) : string :=
  if draft pr then "In Development" else "Ready For Review".

Definition sync_issue_status_with_pr (self : ProjectItemHandler)
    (pr_number : Z) : M unit :=
  do pr <- repo_get_pull pr_number;
  do linked_issues <- get_pull_request_linked_issues self pr_number;
  do _ <- print (LLinkedIssues linked_issues);
  let pr_assignees := assignees_or_author pr in
  do _ <- print (match pr_logins pr with
                 | [] => LNoAssignees pr_assignees
                 | _ => LPrAssignees pr_assignees
                 end);
  do gh_issues <- for_each fetch_issue linked_issues ∅;
  if merged pr then
    do _ <- print LMerged;
    do _ <- for_each (merged_body self) linked_issues gh_issues;
    ret tt
  else if String.eqb (pr_state pr) "closed" then
    do _ <- print LClosedWithoutMerging;
    do _ <- for_each (closed_body self) linked_issues gh_issues;
    ret tt
  else
    let target_status := target_of pr in
    do _ <- print (LTargetStatus target_status);
    do _ <- for_each (open_body self target_status pr_assignees)
              linked_issues gh_issues;
    ret tt.

(** [ProjectItemHandler.__init__] for the object of identity [id]. *)
Definition init (id : nat) (cfg : GHConfig) : M ProjectItemHandler :=
  do _ <- rest (GetRepo (organization cfg +:+ "/" +:+ repository cfg))
            (fun g => Some (tt, g));
  do project <- get_project_node_id
                  {| hid := id; gh_config := cfg; project_node_id := "" |};
  ret {| hid := id; gh_config := cfg; project_node_id := project |}.

(** [int(s)] of [main]: the conversion [int] is Python's, taken as given;
    where it has no value for [s], [int(s)] raises.  The message quotes [s]
    as [repr] does for a string that needs no escaping. *)
Definition to_int (int : string -> option Z) (s : string) : M Z :=
  match int s with
  | Some z => ret z
  | None =>
      raise (ValueError ("invalid literal for int() with base 10: '"
                         +:+ s +:+ "'"))
  end.

(** [main], on the environment [getenv]. *)
Definition main (getenv : string -> option string)
    (int : string -> option Z) : M unit :=
  let token := getenv "TOKEN" in
  let org := getenv "ORG" in
  let repo := getenv "REPO" in
  let project_number := getenv "PROJECT_NUMBER" in
  let pr_number := getenv "PR_NUMBER" in
  if negb (truthy_str token) then
    raise (ValueError
      "GitHub token is not set. Please set the TOKEN environment variable.")
  else if negb (truthy_str org) then
    raise (ValueError
      "GitHub organization is not set. Please set the ORG environment variable.")
  else if negb (truthy_str repo) then
    raise (ValueError
      "GitHub repository is not set. Please set the REPO environment variable.")
  else if negb (truthy_str project_number) then
    raise (ValueError
      "GitHub project number is not set. Please set the PROJECT_NUMBER environment variable.")
  else if negb (truthy_str pr_number) then
    raise (ValueError
      "Pull request number is not set. Please set the PR_NUMBER environment variable.")
  else
    let token := default "" token in
    let org := default "" org in
    let repo := default "" repo in
    do project_number <- to_int int (default "" project_number);
    do pr_number <- to_int int (default "" pr_number);
    let gh_config :=
      {| token := token; organization := org; repository := repo;
         project_number := project_number;
         graphql_url := "https://api.github.com/graphql";
         rest_url := "https://api.github.com/repos/" +:+ org +:+ "/"
                     +:+ repo +:+ "/issues";
         headers := [("Authorization", "Bearer " +:+ token);
                     ("Accept", "application/vnd.github+json")] |} in
    do project_item_handler <- init 0 gh_config;
    sync_issue_status_with_pr project_item_handler pr_number.

End Process.

(** ** Vocabulary of the specification *)

(** Partial correctness with an exceptional postcondition: from a world
    satisfying [P], [m] returns [a] in a world satisfying [Q a], or raises
    [e] in a world satisfying [E e]. *)
Definition hoare {A} (P : World -> Prop) (m : M A)
    (Q : A -> World -> Prop) (E : exn -> World -> Prop) : Prop :=
  forall w, P w ->
    match m w with
    | (Ok a, w') => Q a w'
    | (Raise e, w') => E e w'
    end.

(** Every call is served. *)
Definition healthy (net : nat -> Net) : Prop := forall k, net k = Up.

(** Every response that does not come from the server is a refusal: its
    status is 400 or more.  These are the responses for which [rest] does
    what the REST client does. *)
Definition refusals (net : nat -> Net) : Prop :=
  forall k r, net k = Reply r -> (400 <= status_code r)%Z.

(** A 2xx status code. *)
Definition is_2xx (code : Z) : Prop := (200 <= code < 300)%Z.

(** The two errors of the argument check of [set_issue_status]. *)
Definition validation_error {A} (r : result A) : Prop :=
  r = Raise (ValueError either_msg) \/ r = Raise (ValueError only_one_msg).

Definition is_mutation (r : Request) : bool :=
  match r with
  | PostGraphQL _ (MUpdateFieldValue _ _ _ _) => true
  | _ => false
  end.

Definition is_fields_fetch (r : Request) : bool :=
  match r with
  | PostGraphQL _ (QProjectFields _) => true
  | _ => false
  end.

(** No option of a field named Status carries the name [status]. *)
Definition unmatched (status : string) (fields : list Field) : Prop :=
  forall f, f ∈ fields -> fld_name f = "Status" ->
  forall o, o ∈ fld_options f -> opt_name o <> status.

(** The project item through which the script reaches issue [n]: the first
    of its [projectItems]. *)
Definition first_item (g : GitHub) (n : Z) : option string :=
  i ← issues g !! n;
  items ← project_items g !! node_id i;
  pi_id <$> head items.

(** The option selected for field [field_id] on that item. *)
Definition status_of (g : GitHub) (field_id : string) (n : Z) : option string :=
  item ← first_item g n;
  field_values g !! (item, field_id).

(** The field table of the handler's project as the server holds it. *)
Definition server_fields (self : ProjectItemHandler) (g : GitHub)
  : option (list Field) :=
  present <$> project_fields g !! project_node_id self.

(** An exception other than the two of the argument check. *)
Definition not_validation (e : exn) : Prop :=
  e <> ValueError either_msg /\ e <> ValueError only_one_msg.

(** The trace of [w] extends [t0]. *)
Definition grows (t0 : list Request) (w : World) : Prop :=
  exists more, trace w = t0 ++ more.

(** The cache slot, when it belongs to [self], holds [fields]. *)
Definition cached_is (self : ProjectItemHandler) (fields : list Field)
    (w : World) : Prop :=
  forall v, fields_cache w = Some (hid self, v) -> v = fields.

(** The server is [g] and the cache is sound. *)
Definition at_server (self : ProjectItemHandler) (fields : list Field)
    (g : GitHub) (w : World) : Prop :=
  github w = g /\ cached_is self fields w.

(** The local issue objects show the issues as the server holds them. *)
Definition agrees (gh_issues : gmap Z Issue) (g : GitHub) : Prop :=
  forall n i, gh_issues !! n = Some i -> issues g !! n = Some i.

(** What a served run does to one linked issue: the issue is rewritten by
    [upd] and the field [field_id] of its first project item selects
    [option_id]. *)
Definition settle (upd : Issue -> Issue) (field_id option_id : string)
    (g : GitHub) (n : Z) : GitHub :=
  match issues g !! n, first_item g n with
  | Some i, Some item =>
      with_field_values (insert (item, field_id) option_id)
        (with_issues (insert n (upd i)) g)
  | _, _ => g
  end.

(** The three rewritings of an issue, one per branch. *)
Definition close_if_open (i : Issue) : Issue :=
  if String.eqb (state i) "open" then set_state "closed" i else i.

Definition unassign (i : Issue) : Issue :=
  match assignees i with
  | [] => i
  | l => drop_assignees l i
  end.

Definition assign (target : list string) (i : Issue) : Issue :=
  if negb (same_set (assignees i) target) then set_assignees target i else i.

(** What each of the three loop bodies has to do for one issue when every
    call is served: rewrite the issue and its local object by [upd], and
    select the option on its first project item. *)
Definition settles (self : ProjectItemHandler) (fields : list Field)
    (upd : Issue -> Issue) (field_id option_id : string)
    (body : LinkedIssue -> gmap Z Issue -> M (gmap Z Issue)) : Prop :=
  forall g li objs i item,
    li_number li <> 0%Z -> objs !! li_number li = Some i -> agrees objs g ->
    first_item g (li_number li) = Some item ->
    server_fields self g = Some fields ->
    hoare (at_server self fields g) (body li objs)
      (fun objs' w => objs' = <[li_number li := upd i]> objs /\
                      at_server self fields
                        (settle upd field_id option_id g (li_number li)) w)
      (fun _ _ => False).

(** The decision table of the script: the status name and the rewriting of
    the issue chosen from [pr.merged], [pr.state] and [pr.draft]. *)
Definition branch_status (pr : PullRequest) : string :=
  if merged pr then "Done"
  else if String.eqb (pr_state pr) "closed" then "Selected for Development"
  else target_of pr.

Definition branch_update (pr : PullRequest) : Issue -> Issue :=
  if merged pr then close_if_open
  else if String.eqb (pr_state pr) "closed" then unassign
  else assign (assignees_or_author pr).

(** The calls that edit an issue. *)
Definition is_edit (r : Request) : bool :=
  match r with
  | EditIssueState _ _ | EditIssueAssignees _ _ | RemoveAssignees _ _ => true
  | _ => false
  end.

(** The number of fetches of the field table in a trace. *)
Definition fetches (t : list Request) : nat :=
  length (List.filter is_fields_fetch t).

(** From [w0] to [w] the server has not changed, no mutation was sent, and
    a field table cached for [self] lacks the option [status]. *)
Definition refused (self : ProjectItemHandler) (status : string)
    (w0 w : World) : Prop :=
  github w = github w0 /\
  (forall v, fields_cache w = Some (hid self, v) -> unmatched status v) /\
  exists more, trace w = trace w0 ++ more /\
               forall r, r ∈ more -> is_mutation r = false.

(** No field table that can reach [self] has the option [status]: neither
    the cached one, nor the server's, nor one a response may carry. *)
Definition no_such_option (net : nat -> Net) (self : ProjectItemHandler)
    (status : string) (w : World) : Prop :=
  (forall v, fields_cache w = Some (hid self, v) -> unmatched status v) /\
  (forall nodes, project_fields (github w) !! project_node_id self = Some nodes ->
                 unmatched status (present nodes)) /\
  (forall k r nodes, net k = Reply r -> json r = Some (DFields nodes) ->
                     unmatched status (present nodes)).

(** From [w0] to [w] pull requests are as they were, every issue is as it
    was or was open and is now closed, and the only calls that edit an issue
    close an issue that was open in [w0]. *)
Definition closes_only (w0 w : World) : Prop :=
  pulls (github w) = pulls (github w0) /\
  (forall n,
     issues (github w) !! n = issues (github w0) !! n \/
     exists i0, issues (github w0) !! n = Some i0 /\ state i0 = "open" /\
                issues (github w) !! n = Some (set_state "closed" i0)) /\
  exists more,
    trace w = trace w0 ++ more /\
    forall r, r ∈ more -> is_edit r = true ->
      exists n i0, r = EditIssueState n "closed" /\
                   issues (github w0) !! n = Some i0 /\ state i0 = "open".

(** The invariant of the loop of the merged branch, for the local objects
    [objs]. *)
Definition closing_with (w0 : World) (objs : gmap Z Issue) (w : World) : Prop :=
  closes_only w0 w /\ agrees objs (github w).

(** Since the trace was [t0], the field table has not been fetched, or it
    has been fetched once and the cache slot holds a table under [key]. *)
Definition fetched_once (key : nat) (t0 : list Request) (w : World) : Prop :=
  exists more,
    trace w = t0 ++ more /\
    (fetches more = 0%nat \/
     (fetches more = 1%nat /\ exists v, fields_cache w = Some (key, v))).

(** Since the trace was [t0], the field table has been fetched at most
    once. *)
Definition at_most_once (t0 : list Request) (w : World) : Prop :=
  exists more, trace w = t0 ++ more /\ (fetches more <= 1)%nat.

(** *** A small installation, for examples

    Pull request 42 closes issues 10 (open, assigned to alice) and 11
    (closed); both sit on project P1, whose Status field has the usual
    options next to a field that is not single-select. *)

Definition ex_config : GHConfig :=
  {| token := "t"; organization := "org"; repository := "repo";
     project_number := 1; graphql_url := "https://api.github.com/graphql";
     rest_url := "https://api.github.com/repos/org/repo/issues";
     headers := [("Authorization", "Bearer t");
                 ("Accept", "application/vnd.github+json")] |}.

Definition ex_handler : ProjectItemHandler :=
  {| hid := 0; gh_config := ex_config; project_node_id := "P1" |}.

Definition ex_status : Field :=
  {| fld_id := "F1"; fld_name := "Status";
     fld_options :=
       [ {| opt_id := "o1"; opt_name := "Selected for Development" |};
         {| opt_id := "o2"; opt_name := "In Development" |};
         {| opt_id := "o3"; opt_name := "Ready For Review" |};
         {| opt_id := "o4"; opt_name := "Done" |} ] |}.

Definition ex_linked : list (option LinkedIssue) :=
  [ Some {| li_id := "I10"; li_body := ""; li_number := 10; li_title := "a" |};
    None;
    Some {| li_id := "I11"; li_body := ""; li_number := 11; li_title := "b" |} ].

Definition ex_pull (m : bool) (st : string) (d : bool) : PullRequest :=
  {| merged := m; pr_state := st; draft := d; pr_logins := [];
     user_login := "bob" |}.

Definition ex_github (pr : PullRequest) : GitHub :=
  {| pulls := {[ 42%Z := pr ]};
     closing := {[ 42%Z := ex_linked ]};
     issues := {[ 10%Z := {| node_id := "I10"; state := "open";
                             assignees := ["alice"] |};
                  11%Z := {| node_id := "I11"; state := "closed";
                             assignees := [] |} ]};
     project_items :=
       {[ "I10" := [ {| pi_id := "PVTI10"; pi_project := "P1" |} ];
          "I11" := [ {| pi_id := "PVTI11"; pi_project := "P1" |} ] ]};
     projects := {[ ("org", 1%Z) := "P1" ]};
     project_fields := {[ "P1" := [None; Some ex_status] ]};
     field_values := ∅ |}.

Definition ex_world (pr : PullRequest) : World :=
  {| github := ex_github pr; fields_cache := None; trace := []; stdout := [] |}.

Definition up : nat -> Net := fun _ => Up.

(** The network that answers every call with status 201 and a JSON body. *)
Definition created : nat -> Net :=
  fun _ => Reply {| status_code := 201; text := "Created"; json := Some DErrors |}.

(** The network that serves every call but the fifth, which is answered
    with status 403.  In a run on pull request 42 of the example the fifth
    call is the first edit of issue 10. *)
Definition fifth_forbidden : nat -> Net :=
  fun k =>
    if (k =? 4)%nat
    then Reply {| status_code := 403; text := "Forbidden"; json := None |}
    else Up.

(** The environment variables [main] reads. *)
Definition required_variables : list string :=
  ["TOKEN"; "ORG"; "REPO"; "PROJECT_NUMBER"; "PR_NUMBER"].

(** The calls that set the state of an issue. *)
Definition is_state_edit (r : Request) : bool :=
  match r with
  | EditIssueState _ _ => true
  | _ => false
  end.

(** From [w0] to [w] pull requests are as they were, every issue has kept
    its state and its node id, and no call set the state of an issue. *)
Definition keeps_states (w0 w : World) : Prop :=
  pulls (github w) = pulls (github w0) /\
  (forall n, state <$> issues (github w) !! n
             = state <$> issues (github w0) !! n) /\
  exists more, trace w = trace w0 ++ more /\
               forall r, r ∈ more -> is_state_edit r = false.

(** An environment in which the five variables are set. *)
Definition ex_getenv (name : string) : option string :=
  if String.eqb name "TOKEN" then Some "t"
  else if String.eqb name "ORG" then Some "org"
  else if String.eqb name "REPO" then Some "repo"
  else if String.eqb name "PROJECT_NUMBER" then Some "1"
  else if String.eqb name "PR_NUMBER" then Some "42"
  else None.

(** A conversion that knows the two numbers of the example. *)
Definition ex_int (s : string) : option Z :=
  if String.eqb s "1" then Some 1%Z
  else if String.eqb s "42" then Some 42%Z
  else None.

(** The number of calls in a trace that set the state of issue [n]. *)
Definition state_edits (n : Z) (t : list Request) : nat :=
  length (List.filter
            (fun r => match r with
                      | EditIssueState m _ => (m =? n)%Z
                      | _ => false
                      end) t).

(** Since the trace was [t0], the state of an issue has been set at most
    once, and where it has been set the local object of that issue no
    longer shows it open. *)
Definition closed_once (t0 : list Request) (objs : gmap Z Issue)
    (w : World) : Prop :=
  exists more,
    trace w = t0 ++ more /\
    forall n, state_edits n more = 0%nat \/
              (state_edits n more = 1%nat /\
               forall i, objs !! n = Some i -> state i <> "open").

(** Since the trace was [t0], the state of no issue has been set twice. *)
Definition at_most_one_close (t0 : list Request) (w : World) : Prop :=
  exists more, trace w = t0 ++ more /\
               forall n, (state_edits n more <= 1)%nat.

(** A Status field of another board: it has no option named Done. *)
Definition ex_backlog : Field :=
  {| fld_id := "F1"; fld_name := "Status";
     fld_options := [ {| opt_id := "o0"; opt_name := "Backlog" |} ] |}.

(** The example installation with that field as the project's only one. *)
Definition ex_bare_world (pr : PullRequest) : World :=
  {| github :=
       {| pulls := pulls (ex_github pr); closing := closing (ex_github pr);
          issues := issues (ex_github pr);
          project_items := project_items (ex_github pr);
          projects := projects (ex_github pr);
          project_fields := {[ "P1" := [Some ex_backlog] ]};
          field_values := ∅ |};
     fields_cache := None; trace := []; stdout := [] |}.

(** The example with a merged pull request that names issue 10 twice. *)
Definition ex_twice_world : World :=
  {| github :=
       {| pulls := pulls (ex_github (ex_pull true "closed" false));
          closing := {[ 42%Z := ex_linked ++ ex_linked ]};
          issues := issues (ex_github (ex_pull true "closed" false));
          project_items :=
            project_items (ex_github (ex_pull true "closed" false));
          projects := projects (ex_github (ex_pull true "closed" false));
          project_fields :=
            project_fields (ex_github (ex_pull true "closed" false));
          field_values := ∅ |};
     fields_cache := None; trace := []; stdout := [] |}.

(** ** The program logic *)

Section Logic.

Variable net : nat -> Net.

Lemma hoare_ret {A} (a : A) (P : World -> Prop) Q E :
  (forall w, P w -> Q a w) -> hoare P (ret a) Q E.
Proof. intros H w Hw. simpl. auto. Qed.

Lemma hoare_raise {A} (e : exn) (P : World -> Prop) (Q : A -> World -> Prop) E :
  (forall w, P w -> E e w) -> hoare P (raise e) Q E.
Proof. intros H w Hw. simpl. auto. Qed.

Lemma hoare_bind {A B} (m : M A) (k : A -> M B) P R Q E :
  hoare P m R E -> (forall a, hoare (R a) (k a) Q E) ->
  hoare P (bind m k) Q E.
Proof.
  intros Hm Hk w Hw. unfold bind. specialize (Hm w Hw).
  destruct (m w) as [[a|e] w']; [exact (Hk a w' Hm)|exact Hm].
Qed.

Lemma hoare_try {A} (m : M A) (h : exn -> M A) P Q E' E :
  hoare P m Q E' -> (forall e, hoare (E' e) (h e) Q E) ->
  hoare P (try_except m h) Q E.
Proof.
  intros Hm Hh w Hw. unfold try_except. specialize (Hm w Hw).
  destruct (m w) as [[a|e] w']; [exact Hm|exact (Hh e w' Hm)].
Qed.

Lemma hoare_conseq {A} (m : M A) (P P' : World -> Prop)
    (Q Q' : A -> World -> Prop) (E E' : exn -> World -> Prop) :
  hoare P' m Q' E' ->
  (forall w, P w -> P' w) ->
  (forall a w, Q' a w -> Q a w) ->
  (forall e w, E' e w -> E e w) ->
  hoare P m Q E.
Proof.
  intros Hm HP HQ HE w Hw. specialize (Hm w (HP w Hw)).
  destruct (m w) as [[a|e] w']; auto.
Qed.

Lemma hoare_weaken_exn {A} (m : M A) (P : World -> Prop)
    (Q : A -> World -> Prop) (E E' : exn -> World -> Prop) :
  hoare P m Q E' -> (forall e w, E' e w -> E e w) -> hoare P m Q E.
Proof. intros Hm HE. eapply hoare_conseq; eauto. Qed.

Lemma hoare_for_each {A S} (body : A -> S -> M S) (l : list A)
    (I : S -> World -> Prop) E :
  (forall a s, a ∈ l -> hoare (I s) (body a s) I E) ->
  forall s, hoare (I s) (for_each body l s) I E.
Proof.
  induction l as [|a l IH]; intros Hbody s.
  - apply hoare_ret. auto.
  - simpl. eapply hoare_bind.
    + apply Hbody. left.
    + intros s'. apply IH. intros a' s'' Ha'. apply Hbody. by right.
Qed.

Lemma hoare_print (l : Line) (P : World -> Prop) Q E :
  (forall w, P w -> Q tt (with_stdout (stdout w ++ [l]) w)) ->
  hoare P (print l) Q E.
Proof. intros H w Hw. simpl. auto. Qed.

(** [rest] and [run_graphql] by cases on the fate of the call. *)
Lemma rest_cases {A} (r : Request) (serve : GitHub -> option (A * GitHub)) w :
  rest net r serve w =
  let w1 := with_trace (trace w ++ [r]) w in
  match net (length (trace w)) with
  | Up =>
      match serve (github w) with
      | Some (a, g) => (Ok a, with_github (fun _ => g) w1)
      | None => (Raise (GithubException 404), w1)
      end
  | Down => (Raise RequestException, w1)
  | Reply resp => (Raise (GithubException (status_code resp)), w1)
  end.
Proof.
  unfold rest, bind, send. simpl.
  destruct (net (length (trace w))); reflexivity.
Qed.

Lemma run_graphql_cases (self : ProjectItemHandler) (q : Query) w :
  run_graphql net self q w =
  let w1 :=
    with_trace (trace w ++ [PostGraphQL (graphql_url (gh_config self)) q]) w in
  match net (length (trace w)) with
  | Up => (Ok (serve_graphql q (github w)).1,
           with_github (fun _ => (serve_graphql q (github w)).2) w1)
  | Down => (Raise RequestException, w1)
  | Reply resp =>
      if (status_code resp =? 200)%Z then
        match json resp with
        | Some d => (Ok d, w1)
        | None => (Raise JSONDecodeError, w1)
        end
      else (Raise (QueryFailed (status_code resp) (text resp)), w1)
  end.
Proof.
  unfold run_graphql, requests_post, bind, send. simpl.
  destruct (net (length (trace w))) as [| |resp]; simpl.
  - destruct (serve_graphql q (github w)). reflexivity.
  - reflexivity.
  - destruct (status_code resp =? 200)%Z; simpl; [|reflexivity].
    unfold response_json. destruct (json resp); reflexivity.
Qed.

(** *** Exceptions and the growth of the trace

    Whatever the network does, a call only appends to the trace, and the two
    validation errors of [set_issue_status] come from nowhere else. *)

Lemma grows_send t0 r w : grows t0 w -> grows t0 (with_trace (trace w ++ [r]) w).
Proof.
  intros [more Hm]. exists (more ++ [r]). simpl. rewrite Hm.
  by rewrite <- app_assoc.
Qed.

Lemma not_validation_field status : not_validation (ValueError (field_not_found status)).
Proof. split; discriminate. Qed.

Lemma grows_rest {A} t0 r (serve : GitHub -> option (A * GitHub)) :
  hoare (grows t0) (rest net r serve) (fun _ => grows t0)
        (fun e w => grows t0 w /\ not_validation e).
Proof.
  intros w Hw. rewrite rest_cases. simpl.
  pose proof (grows_send t0 r w Hw) as Hg.
  destruct (net (length (trace w))).
  - destruct (serve (github w)) as [[a g]|]; [exact Hg|].
    split; [exact Hg|split; discriminate].
  - split; [exact Hg|split; discriminate].
  - split; [exact Hg|split; discriminate].
Qed.

Lemma grows_run_graphql t0 self q :
  hoare (grows t0) (run_graphql net self q) (fun _ => grows t0)
        (fun e w => grows t0 w /\ not_validation e).
Proof.
  intros w Hw. rewrite run_graphql_cases. simpl.
  pose proof (grows_send t0 (PostGraphQL (graphql_url (gh_config self)) q) w Hw)
    as Hg.
  destruct (net (length (trace w))) as [| |resp].
  - exact Hg.
  - split; [exact Hg|split; discriminate].
  - destruct (status_code resp =? 200)%Z.
    + destruct (json resp); [exact Hg|]. split; [exact Hg|split; discriminate].
    + split; [exact Hg|split; discriminate].
Qed.

Lemma grows_bad_shape {A} t0 d :
  hoare (grows t0) (@bad_shape A d) (fun _ => grows t0)
        (fun e w => grows t0 w /\ not_validation e).
Proof.
  intros w Hw. destruct d; simpl; (split; [exact Hw|split; discriminate]).
Qed.

Lemma grows_get_issue_info t0 self node :
  hoare (grows t0) (get_issue_info net self node) (fun _ => grows t0)
        (fun e w => grows t0 w /\ not_validation e).
Proof.
  unfold get_issue_info. eapply hoare_bind; [apply grows_run_graphql|].
  intros d. destruct d; try apply grows_bad_shape. by apply hoare_ret.
Qed.

Lemma grows_get_project_fields t0 self :
  hoare (grows t0) (get_project_fields net self) (fun _ => grows t0)
        (fun e w => grows t0 w /\ not_validation e).
Proof.
  assert (Hf : hoare (grows t0) (fetch_project_fields net self)
                 (fun _ => grows t0)
                 (fun e w => grows t0 w /\ not_validation e)).
  { unfold fetch_project_fields. eapply hoare_bind; [apply grows_run_graphql|].
    intros d. destruct d; try apply grows_bad_shape. by apply hoare_ret. }
  intros w Hw. unfold get_project_fields, lru_cache_1.
  specialize (Hf w Hw).
  destruct (fields_cache w) as [[k v]|].
  - destruct (k =? hid self)%nat; [exact Hw|].
    destruct (fetch_project_fields net self w) as [[a|e] w']; exact Hf.
  - destruct (fetch_project_fields net self w) as [[a|e] w']; exact Hf.
Qed.

Lemma grows_get_status_field_id t0 self status :
  hoare (grows t0) (get_status_field_id net self status) (fun _ => grows t0)
        (fun e w => grows t0 w /\ not_validation e).
Proof.
  unfold get_status_field_id. eapply hoare_bind; [apply grows_get_project_fields|].
  intros fields w Hw. unfold resolve_status.
  destruct (fold_left _ _ _) as [f o].
  destruct (negb (truthy_str f) || negb (truthy_str o)); [|exact Hw].
  split; [exact Hw|apply not_validation_field].
Qed.

(** The part of [set_issue_status] that follows the argument check. *)
Lemma grows_set_issue_status_tail t0 self status issue_id :
  hoare (grows t0)
    (do ids <- get_status_field_id net self status;
     do _ <- set_field_option net self issue_id (fst ids) (snd ids);
     ret tt)
    (fun _ => grows t0) (fun e w => grows t0 w /\ not_validation e).
Proof.
  eapply hoare_bind; [apply grows_get_status_field_id|].
  intros ids. eapply hoare_bind; [apply grows_run_graphql|].
  intros d. by apply hoare_ret.
Qed.

Lemma grows_set_issue_status_number t0 self status n :
  hoare (grows t0)
    (do issue_id <-
       (do issue <- repo_get_issue net n;
        do items <- get_issue_info net self (node_id issue);
        match items with
        | item :: _ => ret (Some (pi_id item))
        | [] => raise IndexError
        end);
     do ids <- get_status_field_id net self status;
     do _ <- set_field_option net self issue_id (fst ids) (snd ids);
     ret tt)
    (fun _ => grows t0) (fun e w => grows t0 w /\ not_validation e).
Proof.
  eapply hoare_bind; [|intros; apply grows_set_issue_status_tail].
  eapply hoare_bind; [apply grows_rest|]. intros issue.
  eapply hoare_bind; [apply grows_get_issue_info|]. intros [|item items].
  - apply hoare_raise. intros w Hw. split; [exact Hw|split; discriminate].
  - by apply hoare_ret.
Qed.

End Logic.

(** ** The argument check of [set_issue_status] *)

Lemma set_issue_status_passes net self status num nid w :
  truthy_int num <> truthy_str nid ->
  ~ validation_error (fst (set_issue_status net self status num nid w)).
Proof.
  intros Hne. unfold set_issue_status.
  assert (Hg : grows (trace w) w) by (exists []; by rewrite app_nil_r).
  destruct (truthy_int num) eqn:Hn, (truthy_str nid) eqn:Hs; try congruence;
    simpl.
  - destruct num as [n|]; [|discriminate].
    pose proof (grows_set_issue_status_number net (trace w) self status n w Hg)
      as H.
    destruct (bind _ _ w) as [[a|e] w']; simpl.
    + intros [?|?]; discriminate.
    + destruct H as [_ [H1 H2]]. intros [?|?]; congruence.
  - destruct num as [n|].
    + pose proof (grows_set_issue_status_number net (trace w) self status n w Hg)
        as H.
      destruct (bind _ _ w) as [[a|e] w']; simpl.
      * intros [?|?]; discriminate.
      * destruct H as [_ [H1 H2]]. intros [?|?]; congruence.
    + pose proof (grows_set_issue_status_tail net (trace w) self status nid w Hg)
        as H.
      unfold bind at 1. simpl.
      destruct (bind _ _ w) as [[a|e] w']; simpl.
      * intros [?|?]; discriminate.
      * destruct H as [_ [H1 H2]]. intros [?|?]; congruence.
Qed.

(** With an issue number, the first call is the fetch of that issue. *)
Lemma set_issue_status_first_call net self status n nid w :
  truthy_int (Some n) <> truthy_str nid ->
  exists more,
    trace (snd (set_issue_status net self status (Some n) nid w))
    = trace w ++ GetIssue n :: more.
Proof.
  intros Hne.
  assert (H : hoare (fun w' => w' = w)
                (set_issue_status net self status (Some n) nid)
                (fun _ => grows (trace w ++ [GetIssue n]))
                (fun _ => grows (trace w ++ [GetIssue n]))).
  { unfold set_issue_status.
    destruct (truthy_int (Some n)), (truthy_str nid); try congruence; simpl.
    all: apply hoare_bind with (R := fun _ => grows (trace w ++ [GetIssue n]));
      [|intros issue_id; eapply hoare_weaken_exn;
         [apply grows_set_issue_status_tail|by intros e w' [H _]]].
    all: apply hoare_bind with (R := fun _ => grows (trace w ++ [GetIssue n]));
      [|intros issue; eapply hoare_bind;
         [eapply hoare_weaken_exn;
          [apply grows_get_issue_info|by intros e w' [H _]]
         |intros [|item items]; [by apply hoare_raise|by apply hoare_ret]]].
    all: intros w' ->; unfold repo_get_issue; rewrite rest_cases; simpl.
    all: assert (Hg : forall w', trace w' = trace w ++ [GetIssue n] ->
                        grows (trace w ++ [GetIssue n]) w')
           by (intros w' Hw'; exists []; by rewrite app_nil_r).
    all: destruct (net (length (trace w)));
      [destruct (issues (github w) !! n); simpl|..]; by apply Hg. }
  specialize (H w eq_refl).
  destruct (set_issue_status net self status (Some n) nid w) as [[a|e] w'];
    destruct H as [more Hm]; exists more; simpl; rewrite Hm;
    by rewrite <- app_assoc.
Qed.

(** C5, as the code has it.  [set_issue_status] tests its two identifiers by
    truthiness: when both are truthy (a non-zero number and a non-empty node
    id) or neither is, the call raises the ValueError of the argument check
    and the world is untouched, so nothing was sent; when exactly one is
    truthy, neither error of the argument check is raised. *)
Theorem set_issue_status_exactly_one_truthy net self status num nid w :
  (truthy_int num = truthy_str nid ->
   set_issue_status net self status num nid w =
   (Raise (ValueError (if truthy_int num then only_one_msg else either_msg)), w))
  /\ (truthy_int num <> truthy_str nid ->
      ~ validation_error (fst (set_issue_status net self status num nid w))).
Proof.
  split; [|apply set_issue_status_passes].
  intros Heq. unfold set_issue_status. rewrite <- Heq.
  destruct (truthy_int num); reflexivity.
Qed.

Lemma set_issue_status_exactly_one_truthy_witness :
  set_issue_status up ex_handler "Done" (Some 10%Z) (Some "I10")
    (ex_world (ex_pull true "closed" false)) =
  (Raise (ValueError only_one_msg), ex_world (ex_pull true "closed" false))
  /\ ~ validation_error
       (fst (set_issue_status up ex_handler "Done" (Some 10%Z) None
               (ex_world (ex_pull true "closed" false)))).
Proof.
  split.
  - apply (proj1 (set_issue_status_exactly_one_truthy up ex_handler "Done"
                    (Some 10%Z) (Some "I10")
                    (ex_world (ex_pull true "closed" false)))).
    reflexivity.
  - apply (proj2 (set_issue_status_exactly_one_truthy up ex_handler "Done"
                    (Some 10%Z) None
                    (ex_world (ex_pull true "closed" false)))).
    simpl. discriminate.
Defined.

(** C5 as stated fails: with [issue_number=0] and no node id exactly one
    identifier is supplied, and the argument check still raises. *)
Lemma set_issue_status_number_zero_rejected :
  is_Some (Some 0%Z) /\ (None : option string) = None /\
  validation_error
    (fst (set_issue_status up ex_handler "Done" (Some 0%Z) None
            (ex_world (ex_pull true "closed" false)))).
Proof. split; [by eexists|]. split; [reflexivity|]. left. reflexivity. Qed.

(** C10.  The argument check goes by truthiness, not by presence: with
    [issue_number=0] and no node id the call raises the error that asks for
    one of the two, and with [issue_number=0] and a non-empty node id both
    checks pass and the call goes down the path of the issue number: its
    first call is the fetch of issue 0, and the node id plays no part. *)
Theorem set_issue_status_zero_is_falsy net self status w :
  set_issue_status net self status (Some 0%Z) None w =
  (Raise (ValueError either_msg), w)
  /\ forall id, id <> "" ->
       ~ validation_error
           (fst (set_issue_status net self status (Some 0%Z) (Some id) w))
       /\ (exists more,
             trace (snd (set_issue_status net self status (Some 0%Z) (Some id) w))
             = trace w ++ GetIssue 0 :: more)
       /\ forall id', id' <> "" ->
            set_issue_status net self status (Some 0%Z) (Some id') w =
            set_issue_status net self status (Some 0%Z) (Some id) w.
Proof.
  split; [reflexivity|]. intros id Hid.
  assert (Ht : forall s, s <> "" -> truthy_str (Some s) = true).
  { intros s Hs. simpl. destruct (String.eqb_spec s ""); [done|reflexivity]. }
  split; [|split].
  - apply set_issue_status_passes. rewrite (Ht id Hid). discriminate.
  - apply set_issue_status_first_call. rewrite (Ht id Hid). discriminate.
  - intros id' Hid'. unfold set_issue_status.
    rewrite (Ht id Hid), (Ht id' Hid'). reflexivity.
Qed.

Lemma set_issue_status_zero_is_falsy_witness :
  ~ validation_error
      (fst (set_issue_status up ex_handler "Done" (Some 0%Z) (Some "I10")
              (ex_world (ex_pull true "closed" false))))
  /\ exists more,
       trace (snd (set_issue_status up ex_handler "Done" (Some 0%Z) (Some "I10")
                     (ex_world (ex_pull true "closed" false))))
       = [] ++ GetIssue 0 :: more.
Proof.
  pose proof (proj2 (set_issue_status_zero_is_falsy up ex_handler "Done"
                       (ex_world (ex_pull true "closed" false))) "I10") as H.
  assert (Hne : "I10" <> "") by discriminate.
  destruct (H Hne) as [H1 [H2 _]]. split; [exact H1|exact H2].
Defined.

(** ** [run_graphql] and the status code *)

(** C7, as the code has it.  Once [requests.post] has produced a response,
    [run_graphql] raises its query-failed exception exactly when the status
    code is not 200, whatever else the code is; with status 200 it hands
    back the outcome of [response.json()]: the parsed body, or the decoding
    error of a body that is not JSON. *)
Theorem run_graphql_raises_unless_200 net self q w r w1 :
  requests_post net (graphql_url (gh_config self)) q w = (Ok r, w1) ->
  (run_graphql net self q w
     = (Raise (QueryFailed (status_code r) (text r)), w1)
   <-> status_code r <> 200%Z)
  /\ (status_code r = 200%Z ->
      run_graphql net self q w =
      (match json r with Some d => Ok d | None => Raise JSONDecodeError end, w1)).
Proof.
  intros Hpost. unfold run_graphql, bind. rewrite Hpost.
  destruct (Z.eqb_spec (status_code r) 200) as [Heq|Hne]; simpl.
  - split.
    + split; [|done]. unfold response_json.
      destruct (json r); discriminate.
    + intros _. unfold response_json. destruct (json r); reflexivity.
  - split; [|done]. split; [done|reflexivity].
Qed.

Lemma run_graphql_raises_unless_200_witness :
  run_graphql created ex_handler (QProjectFields "P1")
    (ex_world (ex_pull true "closed" false))
  = (Raise (QueryFailed 201 "Created"),
     with_trace [PostGraphQL "https://api.github.com/graphql"
                   (QProjectFields "P1")]
       (ex_world (ex_pull true "closed" false))).
Proof.
  apply (proj2 (proj1 (run_graphql_raises_unless_200 created ex_handler
                  (QProjectFields "P1")
                  (ex_world (ex_pull true "closed" false))
                  {| status_code := 201; text := "Created";
                     json := Some DErrors |}
                  (with_trace [PostGraphQL "https://api.github.com/graphql"
                                 (QProjectFields "P1")]
                     (ex_world (ex_pull true "closed" false)))
                  eq_refl))).
  simpl. discriminate.
Defined.

(** C7 as stated fails: 201 is a 2xx status and its body parses, yet
    [run_graphql] raises instead of returning the body. *)
Lemma run_graphql_rejects_201 :
  is_2xx 201 /\
  fst (run_graphql created ex_handler (QProjectFields "P1")
         (ex_world (ex_pull true "closed" false)))
  = Raise (QueryFailed 201 "Created").
Proof. split; [unfold is_2xx; lia|reflexivity]. Qed.

(** ** Runs on a network that serves every call *)

Section Served.

Variable net : nat -> Net.
Hypothesis net_up : healthy net.

Variable self : ProjectItemHandler.
Variable fields : list Field.

Lemma rest_served {A} (r : Request) (serve : GitHub -> option (A * GitHub)) w :
  rest net r serve w =
  match serve (github w) with
  | Some (a, g) =>
      (Ok a, with_github (fun _ => g) (with_trace (trace w ++ [r]) w))
  | None => (Raise (GithubException 404), with_trace (trace w ++ [r]) w)
  end.
Proof. rewrite rest_cases, net_up. reflexivity. Qed.

Lemma run_graphql_served (q : Query) w :
  run_graphql net self q w =
  (Ok (serve_graphql q (github w)).1,
   with_github (fun _ => (serve_graphql q (github w)).2)
     (with_trace (trace w ++ [PostGraphQL (graphql_url (gh_config self)) q]) w)).
Proof. rewrite run_graphql_cases, net_up. reflexivity. Qed.

Lemma served_get_issue g n i :
  issues g !! n = Some i ->
  hoare (at_server self fields g) (repo_get_issue net n)
    (fun a w => a = i /\ at_server self fields g w) (fun _ _ => False).
Proof.
  intros Hi w [Hg Hc]. unfold repo_get_issue. rewrite rest_served, Hg, Hi.
  simpl. by rewrite <- Hg.
Qed.

Lemma served_update g n f i r :
  issues g !! n = Some i ->
  hoare (at_server self fields g) (rest net r (serve_update n f))
    (fun a w => a = f i /\
                at_server self fields (with_issues (insert n (f i)) g) w)
    (fun _ _ => False).
Proof.
  intros Hi w [Hg Hc]. rewrite rest_served. unfold serve_update.
  rewrite Hg, Hi. simpl. done.
Qed.

Lemma served_get_issue_info g node items :
  project_items g !! node = Some items ->
  hoare (at_server self fields g) (get_issue_info net self node)
    (fun a w => a = items /\ at_server self fields g w) (fun _ _ => False).
Proof.
  intros Hi w [Hg Hc]. unfold get_issue_info, bind.
  rewrite run_graphql_served. simpl. rewrite Hg, Hi. simpl.
  by rewrite <- Hg.
Qed.

Lemma served_get_project_fields g :
  server_fields self g = Some fields ->
  hoare (at_server self fields g) (get_project_fields net self)
    (fun a w => a = fields /\ at_server self fields g w) (fun _ _ => False).
Proof.
  intros Hf w [Hg Hc]. unfold get_project_fields, lru_cache_1.
  assert (Hmiss :
    match fetch_project_fields net self w with
    | (Ok v, w') => (Ok v, with_cache (Some (hid self, v)) w')
    | (Raise e, w') => (Raise e, w')
    end = (Ok fields,
           with_cache (Some (hid self, fields))
             (with_github (fun _ => g)
                (with_trace (trace w ++ [PostGraphQL (graphql_url (gh_config self))
                                           (QProjectFields (project_node_id self))])
                   w)))).
  { unfold fetch_project_fields, bind. rewrite run_graphql_served. simpl.
    unfold server_fields in Hf. rewrite Hg.
    destruct (project_fields g !! project_node_id self) as [nodes|];
      [|discriminate].
    simpl in *. by inversion Hf. }
  destruct (fields_cache w) as [[k v]|] eqn:Hcache.
  - destruct (Nat.eqb_spec k (hid self)) as [->|Hk].
    + split; [by apply Hc|]. by split.
    + rewrite Hmiss. split; [done|]. split; [done|].
      intros v' Hv'. simpl in Hv'. by inversion Hv'.
  - rewrite Hmiss. split; [done|]. split; [done|].
    intros v' Hv'. simpl in Hv'. by inversion Hv'.
Qed.

Lemma served_set_field_option g item field_id option_id :
  hoare (at_server self fields g)
    (set_field_option net self (Some item) field_id option_id)
    (fun _ => at_server self fields
                (with_field_values (insert (item, field_id) option_id) g))
    (fun _ _ => False).
Proof.
  intros w [Hg Hc]. unfold set_field_option. rewrite run_graphql_served.
  simpl. rewrite Hg. done.
Qed.

(** The status is set: the selected option of the first project item of the
    issue becomes the one the name resolves to. *)
Lemma served_set_issue_status g status n i item items field_id option_id :
  n <> 0%Z ->
  issues g !! n = Some i ->
  project_items g !! node_id i = Some (item :: items) ->
  server_fields self g = Some fields ->
  resolve_status status fields = Ok (field_id, option_id) ->
  hoare (at_server self fields g)
    (set_issue_status net self status (Some n) None)
    (fun _ => at_server self fields
                (with_field_values (insert (pi_id item, field_id) option_id) g))
    (fun _ _ => False).
Proof.
  intros Hn Hi Hitems Hf Hres. unfold set_issue_status. simpl.
  destruct (Z.eqb_spec n 0) as [|_]; [done|]. simpl.
  apply hoare_bind with
    (R := fun a w => a = Some (pi_id item) /\ at_server self fields g w).
  - eapply hoare_bind; [by apply served_get_issue|].
    intros a. apply hoare_bind with
      (R := fun b w => b = item :: items /\ at_server self fields g w).
    + intros w [-> Hw]. by apply (served_get_issue_info g (node_id i) _ Hitems).
    + intros b w [-> Hw]. done.
  - intros a. apply hoare_bind with
      (R := fun ids w => ids = (field_id, option_id) /\ a = Some (pi_id item)
                         /\ at_server self fields g w).
    + unfold get_status_field_id.
      apply hoare_bind with
        (R := fun fs w => fs = fields /\ a = Some (pi_id item)
                          /\ at_server self fields g w).
      * intros w [-> Hw].
        pose proof (served_get_project_fields g Hf w Hw) as H.
        destruct (get_project_fields net self w) as [[v|e] w']; [|done].
        destruct H as [-> H]. done.
      * intros fs w [-> [-> Hw]]. rewrite Hres. done.
    + intros ids. eapply hoare_bind with
        (R := fun _ => at_server self fields
                (with_field_values (insert (pi_id item, field_id) option_id) g)).
      * intros w [-> [-> Hw]]. simpl.
        by apply (served_set_field_option g (pi_id item) field_id option_id).
      * intros d. by apply hoare_ret.
Qed.

End Served.

(** ** The effect of a served run on the server, issue by issue *)

Lemma with_issues_id g n i :
  issues g !! n = Some i -> with_issues (insert n i) g = g.
Proof.
  intros Hi. destruct g. unfold with_issues. simpl in *. f_equal.
  by apply insert_id.
Qed.

Section Settle.

Variable upd : Issue -> Issue.
Hypothesis upd_node : forall i, node_id (upd i) = node_id i.
Hypothesis upd_idem : forall i, upd (upd i) = upd i.

Variables field_id option_id : string.

Abbreviation step := (settle upd field_id option_id).

Lemma first_item_Some g n item :
  first_item g n = Some item <->
  exists i it items, issues g !! n = Some i /\
    project_items g !! node_id i = Some (it :: items) /\ item = pi_id it.
Proof.
  unfold first_item. split.
  - destruct (issues g !! n) as [i|]; simpl; [|discriminate].
    destruct (project_items g !! node_id i) as [[|it items]|] eqn:Hp; simpl;
      try discriminate.
    intros [= <-]. by exists i, it, items.
  - intros (i & it & items & -> & Hit & ->). simpl. by rewrite Hit.
Qed.

Lemma settle_tracked g n i item :
  issues g !! n = Some i -> first_item g n = Some item ->
  step g n =
  with_field_values (insert (item, field_id) option_id)
    (with_issues (insert n (upd i)) g).
Proof. intros Hi Hit. unfold settle. by rewrite Hi, Hit. Qed.

Lemma settle_untracked g n : first_item g n = None -> step g n = g.
Proof. intros Hit. unfold settle. rewrite Hit. by destruct (issues g !! n). Qed.

Lemma settle_project_items g n : project_items (step g n) = project_items g.
Proof.
  unfold settle. destruct (issues g !! n); [|done].
  by destruct (first_item g n).
Qed.

Lemma settle_project_fields g n : project_fields (step g n) = project_fields g.
Proof.
  unfold settle. destruct (issues g !! n); [|done].
  by destruct (first_item g n).
Qed.

Lemma settle_issues g n m :
  is_Some (first_item g n) ->
  issues (step g n) !! m =
  if decide (m = n) then upd <$> issues g !! m else issues g !! m.
Proof.
  intros [item Hit]. pose proof Hit as Hit'.
  apply first_item_Some in Hit' as (i & it & items & Hi & _ & _).
  rewrite (settle_tracked g n i item Hi Hit). simpl.
  destruct (decide (m = n)) as [->|Hne].
  - by rewrite lookup_insert_eq, Hi.
  - by rewrite lookup_insert_ne.
Qed.

Lemma settle_first_item g n m : first_item (step g n) m = first_item g m.
Proof.
  destruct (first_item g n) as [item|] eqn:Hit.
  - unfold first_item at 1. rewrite settle_issues by (by eexists).
    rewrite settle_project_items.
    destruct (decide (m = n)) as [->|Hne]; [|reflexivity].
    unfold first_item. destruct (issues g !! n) as [i|]; simpl; [|done].
    by rewrite upd_node.
  - by rewrite settle_untracked.
Qed.

Lemma settle_field_values g n item :
  first_item g n = Some item ->
  field_values (step g n) = <[(item, field_id) := option_id]> (field_values g).
Proof.
  intros Hit. pose proof Hit as Hit'.
  apply first_item_Some in Hit' as (i & it & items & Hi & _ & _).
  by rewrite (settle_tracked g n i item Hi Hit).
Qed.

Lemma foldl_settle_first_item l g m :
  first_item (foldl step g l) m = first_item g m.
Proof.
  revert g. induction l as [|n l IH]; intros g; simpl; [done|].
  by rewrite IH, settle_first_item.
Qed.

Lemma foldl_settle_project_fields l g :
  project_fields (foldl step g l) = project_fields g.
Proof.
  revert g. induction l as [|n l IH]; intros g; simpl; [done|].
  by rewrite IH, settle_project_fields.
Qed.

(** Every issue of the list has been rewritten once by [upd], and no other
    issue has changed. *)
Lemma foldl_settle_issues l g m :
  (forall n, n ∈ l -> is_Some (first_item g n)) ->
  issues (foldl step g l) !! m =
  if decide (m ∈ l) then upd <$> issues g !! m else issues g !! m.
Proof.
  revert g. induction l as [|n l IH]; intros g Hl; simpl.
  - destruct (decide (m ∈ [])) as [Hin|_]; [|done]. by apply elem_of_nil in Hin.
  - rewrite IH.
    2:{ intros n' Hn'. rewrite settle_first_item. apply Hl. by right. }
    rewrite settle_issues by (apply Hl; left).
    destruct (decide (m ∈ l)) as [Hin|Hnin].
    + rewrite (decide_True (P := m ∈ n :: l))
        by (by apply list_elem_of_further).
      destruct (decide (m = n)); [|done].
      destruct (issues g !! m); simpl; [|done]. by rewrite upd_idem.
    + destruct (decide (m = n)) as [->|Hne].
      * rewrite (decide_True (P := n ∈ n :: l)) by apply list_elem_of_here.
        done.
      * rewrite (decide_False (P := m ∈ n :: l)); [done|].
        intros Hin. apply elem_of_cons in Hin as [?|?]; done.
Qed.

(** The first project item of every issue of the list selects the option. *)
Lemma foldl_settle_field_values l g m item :
  m ∈ l -> first_item g m = Some item ->
  field_values (foldl step g l) !! (item, field_id) = Some option_id.
Proof.
  revert g. induction l as [|n l IH] using rev_ind; intros g Hin Hit.
  - by apply elem_of_nil in Hin.
  - rewrite foldl_app. simpl.
    apply elem_of_app in Hin as [Hin|Hin].
    + destruct (first_item (foldl step g l) n) as [item'|] eqn:Hn.
      * rewrite (settle_field_values _ n item' Hn).
        destruct (decide ((item', field_id) = (item, field_id))) as [->|Hne].
        -- by rewrite lookup_insert_eq.
        -- rewrite lookup_insert_ne by done. by apply IH.
      * rewrite settle_untracked by done. by apply IH.
    + apply list_elem_of_singleton in Hin as ->.
      rewrite (settle_field_values _ n item).
      * by rewrite lookup_insert_eq.
      * by rewrite foldl_settle_first_item.
Qed.

End Settle.

Lemma agrees_settle upd field_id option_id objs g n i :
  agrees objs g -> objs !! n = Some i -> is_Some (first_item g n) ->
  agrees (<[n := upd i]> objs) (settle upd field_id option_id g n).
Proof.
  intros Hag Hi [item Hit] m j Hm.
  rewrite (settle_tracked upd field_id option_id g n i item (Hag n i Hi) Hit).
  simpl. destruct (decide (m = n)) as [->|Hne].
  - rewrite lookup_insert_eq in Hm. by rewrite lookup_insert_eq.
  - rewrite lookup_insert_ne in Hm by done. rewrite lookup_insert_ne by done.
    by apply Hag.
Qed.

Section ServedRun.

Variable net : nat -> Net.
Hypothesis net_up : healthy net.

Variable self : ProjectItemHandler.
Variable fields : list Field.

Variable upd : Issue -> Issue.
Hypothesis upd_node : forall i, node_id (upd i) = node_id i.

Variables status field_id option_id : string.
Hypothesis resolved : resolve_status status fields = Ok (field_id, option_id).

Abbreviation step := (settle upd field_id option_id).

(** After the issue has been rewritten, setting the status completes the
    effect [settle] describes. *)
Lemma served_status_after_update g n i item :
  n <> 0%Z -> issues g !! n = Some i -> first_item g n = Some item ->
  server_fields self g = Some fields ->
  hoare (at_server self fields (with_issues (insert n (upd i)) g))
    (set_issue_status net self status (Some n) None)
    (fun _ => at_server self fields (step g n)) (fun _ _ => False).
Proof.
  intros Hn Hi Hit Hf. pose proof Hit as Hit'.
  apply first_item_Some in Hit' as (i' & it & items & Hi' & Hitems & ->).
  rewrite Hi in Hi'. inversion Hi'; subst i'.
  rewrite (settle_tracked upd field_id option_id g n i (pi_id it) Hi Hit).
  apply (served_set_issue_status net net_up self fields
           (with_issues (insert n (upd i)) g) status n (upd i) it items
           field_id option_id Hn).
  - simpl. by rewrite lookup_insert_eq.
  - simpl. by rewrite upd_node.
  - exact Hf.
  - exact resolved.
Qed.

Lemma served_for_each body :
  settles self fields upd field_id option_id body ->
  forall l g objs,
    (forall li, li ∈ l ->
       li_number li <> 0%Z /\ is_Some (objs !! li_number li) /\
       is_Some (first_item g (li_number li))) ->
    agrees objs g ->
    server_fields self g = Some fields ->
    hoare (at_server self fields g) (for_each body l objs)
      (fun _ => at_server self fields (foldl step g (li_number <$> l)))
      (fun _ _ => False).
Proof.
  intros Hbody. induction l as [|li l IH]; intros g objs Hl Hag Hf.
  - by apply hoare_ret.
  - simpl. destruct (Hl li) as (Hn & [i Hi] & [item Hit]); [left|].
    eapply hoare_bind; [by apply (Hbody g li objs i item)|].
    intros objs' w [-> Hw]. revert w Hw. apply IH.
    + intros li' Hli'. destruct (Hl li') as (Hn' & [i' Hi'] & Hit');
        [by right|].
      split; [done|]. split.
      * destruct (decide (li_number li' = li_number li)) as [->|Hne].
        -- rewrite lookup_insert_eq. by eexists.
        -- rewrite lookup_insert_ne by done. by eexists.
      * by rewrite settle_first_item.
    + apply agrees_settle; [done..|by eexists].
    + unfold server_fields. by rewrite settle_project_fields.
Qed.

(** The objects fetched upfront show the server's issues. *)
Lemma served_fetch l : forall g objs,
  (forall li, li ∈ l -> is_Some (issues g !! li_number li)) ->
  agrees objs g ->
  hoare (at_server self fields g) (for_each (fetch_issue net) l objs)
    (fun objs' w => at_server self fields g w /\ agrees objs' g /\
                    forall m, is_Some (objs !! m) \/ m ∈ (li_number <$> l) ->
                              is_Some (objs' !! m))
    (fun _ _ => False).
Proof.
  induction l as [|li l IH]; intros g objs Hl Hag.
  - apply hoare_ret. intros w Hw. split; [done|]. split; [done|].
    intros m [Hm|Hm]; [done|]. by apply elem_of_nil in Hm.
  - simpl. destruct (Hl li) as [i Hi]; [left|].
    apply hoare_bind with
      (R := fun objs' w => objs' = <[li_number li := i]> objs /\
                           at_server self fields g w).
    + unfold fetch_issue. eapply hoare_bind; [by apply served_get_issue|].
      intros a w [-> Hw]. done.
    + intros objs' w [-> Hw].
      assert (Hag' : agrees (<[li_number li := i]> objs) g).
      { intros m j Hm. destruct (decide (m = li_number li)) as [->|Hne].
        - rewrite lookup_insert_eq in Hm. by inversion Hm; subst.
        - rewrite lookup_insert_ne in Hm by done. by apply Hag. }
      assert (Hl' : forall li', li' ∈ l -> is_Some (issues g !! li_number li'))
        by (intros li' Hli'; apply Hl; by right).
      pose proof (IH g _ Hl' Hag' w Hw) as H.
      destruct (for_each (fetch_issue net) l _ w) as [[objs'|e] w']; [|done].
      destruct H as (H1 & H2 & H3). split; [done|]. split; [done|].
      intros m Hm. apply H3.
      destruct (decide (m = li_number li)) as [->|Hne].
      * left. rewrite lookup_insert_eq. by eexists.
      * rewrite lookup_insert_ne by done.
        destruct Hm as [Hm|Hm]; [by left|right].
        apply elem_of_cons in Hm as [?|?]; done.
Qed.

End ServedRun.

(** The three loop bodies do what [settle] says. *)
Section Bodies.

Variable net : nat -> Net.
Hypothesis net_up : healthy net.

Variable self : ProjectItemHandler.
Variable fields : list Field.
Variables field_id option_id : string.

Lemma close_if_open_node i : node_id (close_if_open i) = node_id i.
Proof. unfold close_if_open. by destruct (String.eqb (state i) "open"). Qed.

Lemma unassign_node i : node_id (unassign i) = node_id i.
Proof. unfold unassign. by destruct (assignees i). Qed.

Lemma assign_node target i : node_id (assign target i) = node_id i.
Proof. unfold assign. by destruct (negb (same_set (assignees i) target)). Qed.

Lemma merged_body_settles :
  resolve_status "Done" fields = Ok (field_id, option_id) ->
  settles self fields close_if_open field_id option_id (merged_body net self).
Proof.
  intros Hres g li objs i item Hn Hi Hag Hit Hf. unfold merged_body.
  set (n := li_number li) in *.
  apply hoare_bind with (R := fun a w => a = i /\ at_server self fields g w).
  { intros w Hw. unfold getitem. by rewrite Hi. }
  intros a.
  apply hoare_bind with
    (R := fun objs1 w =>
            objs1 = <[n := close_if_open i]> objs /\
            at_server self fields
              (with_issues (insert n (close_if_open i)) g) w).
  { intros w [-> Hw]. unfold close_if_open.
    destruct (String.eqb (state i) "open").
    - pose proof (served_update net net_up self fields g n
                    (set_state "closed") i (EditIssueState n "closed")
                    (Hag n i Hi) w Hw) as H.
      unfold issue_edit_state, bind at 1.
      destruct (rest net _ _ w) as [[b|e] w']; [|done].
      destruct H as [-> H]. done.
    - simpl. rewrite (with_issues_id g n i (Hag n i Hi)).
      split; [|done]. symmetry. by apply insert_id. }
  intros objs1.
  apply hoare_bind with
    (R := fun _ w =>
            objs1 = <[n := close_if_open i]> objs /\
            at_server self fields
              (settle close_if_open field_id option_id g n) w).
  { intros w [-> Hw].
    pose proof (served_status_after_update net net_up self fields
                  close_if_open close_if_open_node "Done" field_id option_id
                  Hres g n i item Hn (Hag n i Hi) Hit Hf w Hw) as H.
    destruct (set_issue_status net self "Done" (Some n) None w)
      as [[b|e] w']; done. }
  intros b w [-> Hw]. done.
Qed.

Lemma closed_body_settles :
  resolve_status "Selected for Development" fields = Ok (field_id, option_id) ->
  settles self fields unassign field_id option_id (closed_body net self).
Proof.
  intros Hres g li objs i item Hn Hi Hag Hit Hf. unfold closed_body.
  set (n := li_number li) in *.
  apply hoare_bind with (R := fun a w => a = i /\ at_server self fields g w).
  { intros w Hw. unfold getitem. by rewrite Hi. }
  intros a.
  apply hoare_bind with
    (R := fun objs1 w =>
            objs1 = <[n := unassign i]> objs /\
            at_server self fields (with_issues (insert n (unassign i)) g) w).
  { intros w [-> Hw]. unfold unassign.
    destruct (assignees i) as [|x l] eqn:Has.
    - simpl. rewrite (with_issues_id g n i (Hag n i Hi)).
      split; [|done]. symmetry. by apply insert_id.
    - pose proof (served_update net net_up self fields g n
                    (drop_assignees (x :: l)) i (RemoveAssignees n (x :: l))
                    (Hag n i Hi) w Hw) as H.
      unfold try_except, issue_remove_from_assignees, bind at 1.
      destruct (rest net _ _ w) as [[b|e] w']; [|done].
      destruct H as [-> H]. done. }
  intros objs1.
  apply hoare_bind with
    (R := fun _ w =>
            objs1 = <[n := unassign i]> objs /\
            at_server self fields (settle unassign field_id option_id g n) w).
  { intros w [-> Hw].
    pose proof (served_status_after_update net net_up self fields
                  unassign unassign_node "Selected for Development"
                  field_id option_id
                  Hres g n i item Hn (Hag n i Hi) Hit Hf w Hw) as H.
    destruct (set_issue_status net self "Selected for Development"
                (Some n) None w) as [[b|e] w']; done. }
  intros b w [-> Hw]. done.
Qed.

Lemma open_body_settles target_status pr_assignees :
  resolve_status target_status fields = Ok (field_id, option_id) ->
  settles self fields (assign pr_assignees) field_id option_id
    (open_body net self target_status pr_assignees).
Proof.
  intros Hres g li objs i item Hn Hi Hag Hit Hf. unfold open_body.
  set (n := li_number li) in *.
  apply hoare_bind with (R := fun a w => a = i /\ at_server self fields g w).
  { intros w Hw. unfold getitem. by rewrite Hi. }
  intros a.
  apply hoare_bind with
    (R := fun objs1 w =>
            objs1 = <[n := assign pr_assignees i]> objs /\
            at_server self fields
              (with_issues (insert n (assign pr_assignees i)) g) w).
  { intros w [-> Hw]. unfold assign.
    destruct (negb (same_set (assignees i) pr_assignees)).
    - pose proof (served_update net net_up self fields g n
                    (set_assignees pr_assignees) i
                    (EditIssueAssignees n pr_assignees)
                    (Hag n i Hi) w Hw) as H.
      unfold try_except, issue_edit_assignees, bind at 1.
      destruct (rest net _ _ w) as [[b|e] w']; [|done].
      destruct H as [-> H]. done.
    - simpl. rewrite (with_issues_id g n i (Hag n i Hi)).
      split; [|done]. symmetry. by apply insert_id. }
  intros objs1.
  apply hoare_bind with
    (R := fun _ w =>
            objs1 = <[n := assign pr_assignees i]> objs /\
            at_server self fields
              (settle (assign pr_assignees) field_id option_id g n) w).
  { intros w [-> Hw].
    pose proof (served_status_after_update net net_up self fields
                  (assign pr_assignees) (assign_node pr_assignees)
                  target_status field_id option_id
                  Hres g n i item Hn (Hag n i Hi) Hit Hf w Hw) as H.
    destruct (set_issue_status net self target_status (Some n) None w)
      as [[b|e] w']; done. }
  intros b w [-> Hw]. done.
Qed.

End Bodies.

(** A served run rewrites the linked issues one after the other and
    leaves the cache sound. *)
Lemma served_sync_at net self fields pr_number pr edges g field_id option_id :
  healthy net ->
  pulls g !! pr_number = Some pr ->
  closing g !! pr_number = Some edges ->
  (forall li, li ∈ present edges ->
     li_number li <> 0%Z /\ is_Some (first_item g (li_number li))) ->
  server_fields self g = Some fields ->
  resolve_status (branch_status pr) fields = Ok (field_id, option_id) ->
  hoare (at_server self fields g) (sync_issue_status_with_pr net self pr_number)
    (fun _ =>
       at_server self fields
         (foldl (settle (branch_update pr) field_id option_id) g
            (li_number <$> present edges)))
    (fun _ _ => False).
Proof.
  intros Hnet Hpr Hedges Hl Hf Hres. unfold sync_issue_status_with_pr.
  apply hoare_bind with (R := fun a w => a = pr /\ at_server self fields g w).
  { intros w [Hg Hc]. unfold repo_get_pull.
    rewrite (rest_served net Hnet), Hg, Hpr. simpl. by rewrite <- Hg. }
  intros a.
  apply hoare_bind with
    (R := fun l w => a = pr /\ l = present edges /\ at_server self fields g w).
  { intros w [-> [Hg Hc]]. unfold get_pull_request_linked_issues, bind.
    rewrite (run_graphql_served net Hnet). simpl. rewrite Hg, Hedges. simpl.
    by rewrite <- Hg. }
  intros l.
  apply hoare_bind with
    (R := fun _ w => a = pr /\ l = present edges /\ at_server self fields g w).
  { by intros w H. }
  intros _u.
  apply hoare_bind with
    (R := fun _ w => a = pr /\ l = present edges /\ at_server self fields g w).
  { by intros w H. }
  intros _v.
  apply hoare_bind with
    (R := fun objs w => a = pr /\ l = present edges /\
            at_server self fields g w /\ agrees objs g /\
            forall m, m ∈ (li_number <$> l) -> is_Some (objs !! m)).
  { intros w (-> & -> & Hw).
    assert (Hiss : forall li, li ∈ present edges ->
                     is_Some (issues g !! li_number li)).
    { intros li Hli. destruct (Hl li Hli) as [_ [item Hit]].
      apply first_item_Some in Hit as (i & _ & _ & Hi & _). by eexists. }
    assert (Hag : agrees (∅ : gmap Z Issue) g)
      by (intros m j Hm; by rewrite lookup_empty in Hm).
    pose proof (served_fetch net Hnet self fields (present edges) g ∅
                  Hiss Hag w Hw) as H.
    destruct (for_each (fetch_issue net) (present edges) ∅ w)
      as [[objs|e] w']; [|done].
    destruct H as (H1 & H2 & H3). split; [done|]. split; [done|].
    split; [done|]. split; [done|].
    intros m Hm. apply H3. by right. }
  intros objs.
  assert (Hloop : forall body,
    settles self fields (branch_update pr) field_id option_id body ->
    (forall i, node_id (branch_update pr i) = node_id i) ->
    hoare (fun w => a = pr /\ l = present edges /\
             at_server self fields g w /\ agrees objs g /\
             forall m, m ∈ (li_number <$> l) -> is_Some (objs !! m))
      (do _ <- for_each body l objs; ret tt)
      (fun _ =>
         at_server self fields
           (foldl (settle (branch_update pr) field_id option_id) g
              (li_number <$> present edges)))
      (fun _ _ => False)).
  { intros body Hbody Hnode w (-> & -> & Hw & Hag & Hdom).
    assert (Hl' : forall li, li ∈ present edges ->
              li_number li <> 0%Z /\ is_Some (objs !! li_number li) /\
              is_Some (first_item g (li_number li))).
    { intros li Hli. destruct (Hl li Hli) as [H1 H2]. repeat split; try done.
      apply Hdom. apply list_elem_of_fmap. by exists li. }
    pose proof (served_for_each self fields (branch_update pr) Hnode
                  field_id option_id body Hbody (present edges) g objs
                  Hl' Hag Hf w Hw) as H.
    unfold bind.
    destruct (for_each body (present edges) objs w) as [[objs'|e] w'];
      [|done].
    exact H. }
  unfold branch_status, branch_update in *.
  intros w Hw. pose proof Hw as (-> & _).
  destruct (merged pr).
  - unfold bind at 1. simpl.
    apply (Hloop (merged_body net self)).
    + by apply merged_body_settles.
    + apply close_if_open_node.
    + destruct Hw as (? & ? & [? ?] & ? & ?). repeat split; done.
  - destruct (String.eqb (pr_state pr) "closed").
    + unfold bind at 1. simpl.
      apply (Hloop (closed_body net self)).
      * by apply closed_body_settles.
      * apply unassign_node.
      * destruct Hw as (? & ? & [? ?] & ? & ?). repeat split; done.
    + unfold bind at 1. simpl.
      apply (Hloop (open_body net self (target_of pr) (assignees_or_author pr))).
      * by apply open_body_settles.
      * apply assign_node.
      * destruct Hw as (? & ? & [? ?] & ? & ?). repeat split; done.
Qed.

(** A served run rewrites the linked issues one after the other. *)
Lemma served_sync net self fields pr_number pr edges g field_id option_id :
  healthy net ->
  pulls g !! pr_number = Some pr ->
  closing g !! pr_number = Some edges ->
  (forall li, li ∈ present edges ->
     li_number li <> 0%Z /\ is_Some (first_item g (li_number li))) ->
  server_fields self g = Some fields ->
  resolve_status (branch_status pr) fields = Ok (field_id, option_id) ->
  hoare (at_server self fields g) (sync_issue_status_with_pr net self pr_number)
    (fun _ w =>
       github w = foldl (settle (branch_update pr) field_id option_id) g
                    (li_number <$> present edges))
    (fun _ _ => False).
Proof.
  intros Hnet Hpr Hedges Hl Hf Hres.
  eapply hoare_conseq;
    [by apply (served_sync_at net self fields pr_number pr edges g
                 field_id option_id)|done| |done].
  by intros a w [Hg _].
Qed.

(** ** The rewritings of an issue *)

Lemma mem_true s l : mem s l = true <-> s ∈ l.
Proof.
  unfold mem. rewrite existsb_exists. split.
  - intros (x & Hx & Heq). apply String.eqb_eq in Heq as ->.
    by apply list_elem_of_In.
  - intros Hin. exists s. split; [by apply list_elem_of_In|].
    by apply String.eqb_eq.
Qed.

Lemma same_set_spec a b :
  same_set a b = true <-> (forall x, x ∈ a <-> x ∈ b).
Proof.
  unfold same_set. rewrite andb_true_iff, !forallb_forall. split.
  - intros [Hab Hba] x. split; intros Hx.
    + apply mem_true, Hab. by apply list_elem_of_In.
    + apply mem_true, Hba. by apply list_elem_of_In.
  - intros H. split; intros x Hx; apply mem_true, H; by apply list_elem_of_In.
Qed.


Lemma drop_all l0 l :
  (forall a, a ∈ l0 -> a ∈ l) ->
  filter (fun a => negb (mem a l)) l0 = [].
Proof.
  induction l0 as [|x l0 IH]; intros Hsub; [done|].
  rewrite filter_cons. rewrite decide_False.
  - apply IH. intros a Ha. apply Hsub. by right.
  - assert (Hx : mem x l = true) by (apply mem_true, Hsub; left).
    rewrite Hx. simpl. auto.
Qed.

Lemma unassign_clears i : unassign i = set_assignees [] i.
Proof.
  unfold unassign. destruct (assignees i) as [|x l] eqn:Has.
  - destruct i. simpl in *. by subst.
  - unfold drop_assignees. rewrite Has. by rewrite drop_all.
Qed.

Lemma close_if_open_idem i : close_if_open (close_if_open i) = close_if_open i.
Proof.
  unfold close_if_open. destruct (String.eqb (state i) "open") eqn:He.
  - reflexivity.
  - by rewrite He.
Qed.

Lemma unassign_idem i : unassign (unassign i) = unassign i.
Proof. by rewrite !unassign_clears. Qed.

Lemma assign_idem target i : assign target (assign target i) = assign target i.
Proof.
  unfold assign. destruct (same_set (assignees i) target) eqn:He; simpl.
  - by rewrite He.
  - assert (Hr : same_set target target = true) by (by apply same_set_spec).
    by rewrite Hr.
Qed.

Lemma branch_update_node pr i : node_id (branch_update pr i) = node_id i.
Proof.
  unfold branch_update. destruct (merged pr); [apply close_if_open_node|].
  destruct (String.eqb (pr_state pr) "closed");
    [apply unassign_node|apply assign_node].
Qed.

Lemma branch_update_idem pr i :
  branch_update pr (branch_update pr i) = branch_update pr i.
Proof.
  unfold branch_update. destruct (merged pr); [apply close_if_open_idem|].
  destruct (String.eqb (pr_state pr) "closed");
    [apply unassign_idem|apply assign_idem].
Qed.

(** The outcome of a served run, issue by issue: the run returns, every
    linked issue carries the status of the branch and has been rewritten by
    the branch, and no other issue has changed. *)
Lemma served_sync_outcome net self fields pr_number pr edges w
    field_id option_id :
  healthy net ->
  cached_is self fields w ->
  pulls (github w) !! pr_number = Some pr ->
  closing (github w) !! pr_number = Some edges ->
  (forall li, li ∈ present edges ->
     li_number li <> 0%Z /\ is_Some (first_item (github w) (li_number li))) ->
  server_fields self (github w) = Some fields ->
  resolve_status (branch_status pr) fields = Ok (field_id, option_id) ->
  exists w',
    sync_issue_status_with_pr net self pr_number w = (Ok tt, w') /\
    (forall li, li ∈ present edges ->
       status_of (github w') field_id (li_number li) = Some option_id /\
       issues (github w') !! li_number li =
       branch_update pr <$> issues (github w) !! li_number li) /\
    (forall m, m ∉ (li_number <$> present edges) ->
       issues (github w') !! m = issues (github w) !! m).
Proof.
  intros Hnet Hc Hpr Hedges Hl Hf Hres.
  pose proof (served_sync net self fields pr_number pr edges (github w)
                field_id option_id Hnet Hpr Hedges Hl Hf Hres w
                (conj eq_refl Hc)) as H.
  destruct (sync_issue_status_with_pr net self pr_number w) as [[[]|e] w'];
    [|done].
  exists w'. split; [done|]. rewrite H.
  assert (Htr : forall n, n ∈ (li_number <$> present edges) ->
                  is_Some (first_item (github w) n)).
  { intros n Hn. apply list_elem_of_fmap in Hn as (li & -> & Hli).
    by apply Hl. }
  split.
  - intros li Hli.
    assert (Hin : li_number li ∈ (li_number <$> present edges))
      by (apply list_elem_of_fmap; by exists li).
    split.
    + unfold status_of.
      rewrite (foldl_settle_first_item _ (branch_update_node pr)).
      destruct (Htr _ Hin) as [item Hit]. rewrite Hit. simpl.
      eapply foldl_settle_field_values; eauto using branch_update_node.
    + rewrite (foldl_settle_issues _ (branch_update_node pr)
                 (branch_update_idem pr)) by done.
      by rewrite decide_True.
  - intros m Hm.
    rewrite (foldl_settle_issues _ (branch_update_node pr)
               (branch_update_idem pr)) by done.
    by rewrite decide_False.
Qed.

(** ** The three branches on a served network *)

Lemma up_healthy : healthy up.
Proof. intros k. reflexivity. Qed.

Lemma healthy_refusals net : healthy net -> refusals net.
Proof. intros H k r Hk. by rewrite H in Hk. Qed.

Lemma up_refusals : refusals up.
Proof. apply healthy_refusals, up_healthy. Qed.

Lemma fifth_forbidden_refusals : refusals fifth_forbidden.
Proof.
  intros k r. unfold fifth_forbidden.
  destruct (k =? 4)%nat; [|discriminate]. intros [= <-]. simpl. lia.
Qed.

Lemma ex_cache_empty pr fields : cached_is ex_handler fields (ex_world pr).
Proof. intros v Hv. discriminate. Qed.

Lemma ex_linked_tracked pr li :
  li ∈ present ex_linked ->
  li_number li <> 0%Z /\ is_Some (first_item (ex_github pr) (li_number li)).
Proof.
  intros Hli. apply elem_of_cons in Hli as [->|Hli].
  - split; [done|]. by eexists.
  - apply list_elem_of_singleton in Hli as ->. split; [done|]. by eexists.
Qed.







(** ** Invariants of the calls that only read, whatever the network does *)

Section Invariant.

Variable net : nat -> Net.
Variable self : ProjectItemHandler.

(** [I] survives the sending of the requests accepted by [ok]. *)
Variable I : World -> Prop.
Variable ok : Request -> bool.
Hypothesis I_send :
  forall w r, ok r = true -> I w -> I (with_trace (trace w ++ [r]) w).

Lemma with_github_same w : with_github (fun _ => github w) w = w.
Proof. by destruct w. Qed.

(** A REST call that reads. *)
Lemma inv_rest_read {A} r (f : GitHub -> option A) :
  ok r = true ->
  hoare I (rest net r (fun g => (fun a => (a, g)) <$> f g))
    (fun _ => I) (fun _ => I).
Proof.
  intros Hr w Hw. rewrite rest_cases. simpl.
  pose proof (I_send w r Hr Hw) as H1.
  destruct (net (length (trace w))); try done.
  destruct (f (github w)) as [a|]; simpl; [|done].
  change (I (with_github (fun _ => github (with_trace (trace w ++ [r]) w))
               (with_trace (trace w ++ [r]) w))).
  by rewrite with_github_same.
Qed.

(** A GraphQL query that is not the mutation. *)
Lemma inv_run_query q :
  ok (PostGraphQL (graphql_url (gh_config self)) q) = true ->
  (forall g, (serve_graphql q g).2 = g) ->
  hoare I (run_graphql net self q) (fun _ => I) (fun _ => I).
Proof.
  intros Hr Hq w Hw. rewrite run_graphql_cases. simpl.
  pose proof (I_send w _ Hr Hw) as H1.
  destruct (net (length (trace w))) as [| |resp]; try done.
  - rewrite Hq.
    change (I (with_github
                 (fun _ => github (with_trace (trace w ++
                    [PostGraphQL (graphql_url (gh_config self)) q]) w))
                 (with_trace (trace w ++
                    [PostGraphQL (graphql_url (gh_config self)) q]) w))).
    by rewrite with_github_same.
  - destruct (status_code resp =? 200)%Z; [|done]. by destruct (json resp).
Qed.

Lemma inv_bad_shape {A} d : hoare I (@bad_shape A d) (fun _ => I) (fun _ => I).
Proof. intros w Hw. by destruct d. Qed.

Lemma inv_get_issue n :
  ok (GetIssue n) = true ->
  hoare I (repo_get_issue net n) (fun _ => I) (fun _ => I).
Proof. intros Hr. by apply (inv_rest_read (GetIssue n) (fun g => issues g !! n)). Qed.

Lemma inv_get_pull n :
  ok (GetPull n) = true ->
  hoare I (repo_get_pull net n) (fun _ => I) (fun _ => I).
Proof. intros Hr. by apply (inv_rest_read (GetPull n) (fun g => pulls g !! n)). Qed.

Lemma inv_get_issue_info node :
  ok (PostGraphQL (graphql_url (gh_config self)) (QIssueInfo node)) = true ->
  hoare I (get_issue_info net self node) (fun _ => I) (fun _ => I).
Proof.
  intros Hr. unfold get_issue_info.
  eapply hoare_bind; [by apply inv_run_query|].
  intros d. destruct d; try apply inv_bad_shape. by apply hoare_ret.
Qed.

Lemma inv_linked_issues n :
  ok (PostGraphQL (graphql_url (gh_config self))
        (QLinkedIssues n (organization (gh_config self))
           (repository (gh_config self)))) = true ->
  hoare I (get_pull_request_linked_issues net self n) (fun _ => I) (fun _ => I).
Proof.
  intros Hr. unfold get_pull_request_linked_issues.
  eapply hoare_bind; [by apply inv_run_query|].
  intros d. destruct d; try apply inv_bad_shape. by apply hoare_ret.
Qed.

Lemma inv_fetch_issues l objs :
  (forall n, ok (GetIssue n) = true) ->
  hoare I (for_each (fetch_issue net) l objs) (fun _ => I) (fun _ => I).
Proof.
  intros Hr. apply (hoare_for_each _ _ (fun _ => I)).
  intros li s _. unfold fetch_issue.
  eapply hoare_bind; [by apply inv_get_issue|]. intros i. by apply hoare_ret.
Qed.

(** The identification of the project item in [set_issue_status]. *)
Lemma inv_issue_id n :
  (forall r, is_edit r = false -> is_mutation r = false ->
             is_fields_fetch r = false -> ok r = true) ->
  hoare I
    (do issue <- repo_get_issue net n;
     do items <- get_issue_info net self (node_id issue);
     match items with
     | item :: _ => ret (Some (pi_id item))
     | [] => raise IndexError
     end)
    (fun _ => I) (fun _ => I).
Proof.
  intros Hok. eapply hoare_bind; [by apply inv_get_issue, Hok|].
  intros issue. eapply hoare_bind; [by apply inv_get_issue_info, Hok|].
  intros [|item items]; [by apply hoare_raise|by apply hoare_ret].
Qed.

Lemma inv_get_pull_value n :
  ok (GetPull n) = true ->
  hoare I (repo_get_pull net n)
    (fun a w => I w /\ pulls (github w) !! n = Some a) (fun _ => I).
Proof.
  intros Hr w Hw. unfold repo_get_pull. rewrite rest_cases. simpl.
  pose proof (I_send w (GetPull n) Hr Hw) as H1.
  destruct (net (length (trace w))); try done.
  destruct (pulls (github w) !! n) as [a|] eqn:Ha; simpl; [|done].
  split; [|done].
  change (I (with_github
               (fun _ => github (with_trace (trace w ++ [GetPull n]) w))
               (with_trace (trace w ++ [GetPull n]) w))).
  by rewrite with_github_same.
Qed.

(** Any REST call, for an invariant that does not look at the server. *)
Lemma inv_rest_any {A} r (serve : GitHub -> option (A * GitHub)) :
  ok r = true ->
  (forall w g, I w -> I (with_github (fun _ => g) w)) ->
  hoare I (rest net r serve) (fun _ => I) (fun _ => I).
Proof.
  intros Hr I_github w Hw. rewrite rest_cases. simpl.
  pose proof (I_send w r Hr Hw) as H1.
  destruct (net (length (trace w))); try done.
  destruct (serve (github w)) as [[a g]|]; [|done]. by apply I_github.
Qed.

(** The mutation, for an invariant that does not look at the field values. *)
Lemma inv_set_field_option item_id field_id option_id :
  (forall w f, I w -> I (with_github (with_field_values f) w)) ->
  (forall r, is_mutation r = true -> ok r = true) ->
  hoare I (set_field_option net self item_id field_id option_id)
    (fun _ => I) (fun _ => I).
Proof.
  intros I_values Hok w Hw. unfold set_field_option.
  rewrite run_graphql_cases. simpl.
  pose proof (I_send w _
                (Hok (PostGraphQL (graphql_url (gh_config self))
                        (MUpdateFieldValue (project_node_id self)
                           item_id field_id option_id)) eq_refl) Hw) as H1.
  destruct (net (length (trace w))) as [| |resp]; try done.
  - destruct item_id as [item|]; simpl.
    + by apply (I_values _ (insert (item, field_id) option_id)) in H1.
    + change (I (with_github
                   (fun _ => github (with_trace (trace w ++
                      [PostGraphQL (graphql_url (gh_config self))
                         (MUpdateFieldValue (project_node_id self) None
                            field_id option_id)]) w))
                   (with_trace (trace w ++
                      [PostGraphQL (graphql_url (gh_config self))
                         (MUpdateFieldValue (project_node_id self) None
                            field_id option_id)]) w))).
      by rewrite with_github_same.
  - destruct (status_code resp =? 200)%Z; [|done]. by destruct (json resp).
Qed.

(** The cached fetch, for an invariant that does not look at the cache. *)
Lemma inv_get_project_fields :
  (forall w c, I w -> I (with_cache c w)) ->
  (forall r, is_fields_fetch r = true -> ok r = true) ->
  hoare I (get_project_fields net self) (fun _ => I) (fun _ => I).
Proof.
  intros I_cache Hok.
  assert (Hf : hoare I (fetch_project_fields net self) (fun _ => I) (fun _ => I)).
  { unfold fetch_project_fields.
    eapply hoare_bind; [by apply inv_run_query; [apply Hok|]|].
    intros d. destruct d; try apply inv_bad_shape. by apply hoare_ret. }
  intros w Hw. unfold get_project_fields, lru_cache_1. specialize (Hf w Hw).
  destruct (fields_cache w) as [[k v]|].
  - destruct (k =? hid self)%nat; [done|].
    destruct (fetch_project_fields net self w) as [[a|e] w']; [|done].
    by apply I_cache.
  - destruct (fetch_project_fields net self w) as [[a|e] w']; [|done].
    by apply I_cache.
Qed.

Lemma inv_set_issue_status status num nid :
  (forall w f, I w -> I (with_github (with_field_values f) w)) ->
  (forall w c, I w -> I (with_cache c w)) ->
  (forall r, is_edit r = false -> ok r = true) ->
  hoare I (set_issue_status net self status num nid) (fun _ => I) (fun _ => I).
Proof.
  intros I_values I_cache Hok. unfold set_issue_status.
  destruct (negb (truthy_int num) && negb (truthy_str nid));
    [by apply hoare_raise|].
  destruct (truthy_int num && truthy_str nid); [by apply hoare_raise|].
  apply hoare_bind with (R := fun _ => I).
  - destruct num as [n|]; [|by apply hoare_ret].
    apply inv_issue_id. intros r Hr _ _. by apply Hok.
  - intros issue_id. apply hoare_bind with (R := fun _ => I).
    + unfold get_status_field_id.
      eapply hoare_bind;
        [apply inv_get_project_fields;
           [done|intros r Hr; apply Hok; by destruct r]|].
      intros v w Hw. simpl. by destruct (resolve_status status v).
    + intros ids. eapply hoare_bind;
        [apply inv_set_field_option;
           [done|intros r Hr; apply Hok; by destruct r]|].
      intros d. by apply hoare_ret.
Qed.

End Invariant.

(** ** A status without option *)

Lemma find_option_none status options :
  (forall o, o ∈ options -> opt_name o <> status) ->
  find_option status options = None.
Proof.
  intros Hno. unfold find_option.
  destruct (List.find _ options) as [o|] eqn:Hfind; [|done].
  apply find_some in Hfind as [Hin Heq].
  apply String.eqb_eq in Heq. apply list_elem_of_In in Hin.
  by destruct (Hno o Hin).
Qed.

Lemma scan_unmatched status fields : forall acc,
  unmatched status fields ->
  snd (fold_left (scan_field status) fields acc) = snd acc.
Proof.
  induction fields as [|f fields IH]; intros acc Hun; [done|].
  simpl. rewrite IH.
  - unfold scan_field.
    destruct (String.eqb (fld_name f) "Status") eqn:Hname; simpl; [|done].
    apply String.eqb_eq in Hname.
    rewrite find_option_none; [done|].
    intros o Ho. apply (Hun f); [left|done..].
  - intros f' Hf'. apply Hun. by right.
Qed.

(** The look-up of a status without option fails with the ValueError of
    [get_status_field_id]. *)
Lemma resolve_unmatched status fields :
  unmatched status fields ->
  resolve_status status fields = Raise (ValueError (field_not_found status)).
Proof.
  intros Hun. unfold resolve_status.
  pose proof (scan_unmatched status fields (None, None) Hun) as H.
  destruct (fold_left _ _ _) as [f o]. simpl in H. subst o. simpl.
  by rewrite orb_true_r.
Qed.

Section Refused.

Variable net : nat -> Net.
Variable self : ProjectItemHandler.
Variable status : string.
Variable w0 : World.

Hypothesis server_unmatched :
  forall nodes, project_fields (github w0) !! project_node_id self = Some nodes ->
                unmatched status (present nodes).
Hypothesis replies_unmatched :
  forall k r nodes, net k = Reply r -> json r = Some (DFields nodes) ->
                    unmatched status (present nodes).

Lemma refused_send w r :
  negb (is_mutation r) = true -> refused self status w0 w ->
  refused self status w0 (with_trace (trace w ++ [r]) w).
Proof.
  intros Hr (Hg & Hc & more & Hm & Hno). split; [done|]. split; [done|].
  exists (more ++ [r]). simpl. rewrite Hm, <- app_assoc. split; [done|].
  intros r' Hr'. apply elem_of_app in Hr' as [Hr'|Hr']; [by apply Hno|].
  apply list_elem_of_singleton in Hr' as ->. by destruct (is_mutation r).
Qed.

Lemma refused_fetch :
  hoare (refused self status w0) (fetch_project_fields net self)
    (fun v w => unmatched status v /\ refused self status w0 w)
    (fun _ => refused self status w0).
Proof.
  intros w Hw. unfold fetch_project_fields, bind.
  rewrite run_graphql_cases. simpl.
  pose proof (refused_send w
                (PostGraphQL (graphql_url (gh_config self))
                   (QProjectFields (project_node_id self))) eq_refl Hw) as H1.
  destruct Hw as (Hg & _).
  destruct (net (length (trace w))) as [| |resp] eqn:Hnet; [|done|].
  - rewrite Hg.
    destruct (project_fields (github w0) !! project_node_id self)
      as [nodes|] eqn:Hn; simpl.
    + split; [by apply server_unmatched|].
      destruct H1 as (H1 & H2 & H3). split; [|done]. simpl. done.
    + destruct H1 as (H1 & H2 & H3). split; [|done]. simpl. done.
  - destruct (status_code resp =? 200)%Z; [|done].
    destruct (json resp) as [d|] eqn:Hd; [|done].
    destruct d; simpl; try done.
    split; [|done]. by apply (replies_unmatched (length (trace w)) resp).
Qed.

Lemma refused_get_project_fields :
  hoare (refused self status w0) (get_project_fields net self)
    (fun v w => unmatched status v /\ refused self status w0 w)
    (fun _ => refused self status w0).
Proof.
  intros w Hw. unfold get_project_fields, lru_cache_1.
  pose proof (refused_fetch w Hw) as Hf.
  assert (Hmiss :
    match
      match fetch_project_fields net self w with
      | (Ok v, w') => (Ok v, with_cache (Some (hid self, v)) w')
      | (Raise e, w') => (Raise e, w')
      end
    with
    | (Ok v, w') => unmatched status v /\ refused self status w0 w'
    | (Raise e, w') => refused self status w0 w'
    end).
  { destruct (fetch_project_fields net self w) as [[v|e] w']; [|done].
    destruct Hf as [Hv (Hg & Hc & Ht)]. split; [done|]. split; [done|].
    split; [|done]. intros v' Hv'. simpl in Hv'. by inversion Hv'; subst. }
  destruct (fields_cache w) as [[k v]|] eqn:Hcache; [|exact Hmiss].
  destruct (Nat.eqb_spec k (hid self)) as [->|Hk]; [|exact Hmiss].
  split; [|done]. destruct Hw as (_ & Hc & _). by apply Hc.
Qed.

Lemma refused_get_status_field_id :
  hoare (refused self status w0) (get_status_field_id net self status)
    (fun _ _ => False) (fun _ => refused self status w0).
Proof.
  unfold get_status_field_id.
  eapply hoare_bind; [apply refused_get_project_fields|].
  intros v w [Hv Hw]. by rewrite resolve_unmatched.
Qed.

(** With such a status [set_issue_status] never returns and never gets to
    the mutation. *)
Lemma refused_set_issue_status num nid :
  hoare (refused self status w0) (set_issue_status net self status num nid)
    (fun _ _ => False) (fun _ => refused self status w0).
Proof.
  unfold set_issue_status.
  destruct (negb (truthy_int num) && negb (truthy_str nid));
    [by apply hoare_raise|].
  destruct (truthy_int num && truthy_str nid); [by apply hoare_raise|].
  apply hoare_bind with (R := fun _ => refused self status w0).
  - destruct num as [n|]; [|by apply hoare_ret].
    apply inv_issue_id with (ok := fun r => negb (is_mutation r));
      [apply refused_send|].
    intros r _ Hr _. by rewrite Hr.
  - intros issue_id. eapply hoare_bind; [apply refused_get_status_field_id|].
    by intros ids w Hw.
Qed.

End Refused.

(** On a served network the look-up itself is reached. *)
Lemma served_issue_id net self n item w :
  healthy net -> first_item (github w) n = Some item ->
  exists w1,
    (do issue <- repo_get_issue net n;
     do items <- get_issue_info net self (node_id issue);
     match items with
     | item :: _ => ret (Some (pi_id item))
     | [] => raise IndexError
     end) w = (Ok (Some item), w1) /\
    github w1 = github w /\ fields_cache w1 = fields_cache w.
Proof.
  intros Hnet Hit.
  apply first_item_Some in Hit as (i & it & items & Hi & Hitems & ->).
  unfold bind at 1. unfold repo_get_issue.
  rewrite (rest_served net Hnet), Hi. simpl.
  unfold bind, get_issue_info. unfold bind.
  rewrite (run_graphql_served net Hnet). simpl. rewrite Hitems. simpl.
  eexists. split; [reflexivity|]. done.
Qed.

Lemma served_fields_any net self nodes w :
  healthy net ->
  project_fields (github w) !! project_node_id self = Some nodes ->
  exists v w2,
    get_project_fields net self w = (Ok v, w2) /\
    (v = present nodes \/ fields_cache w = Some (hid self, v)).
Proof.
  intros Hnet Hn. unfold get_project_fields, lru_cache_1.
  assert (Hf : exists w2, fetch_project_fields net self w
                          = (Ok (present nodes), w2)).
  { unfold fetch_project_fields, bind.
    rewrite (run_graphql_served net Hnet). simpl. rewrite Hn. simpl.
    by eexists. }
  destruct Hf as [w2 Hf]. rewrite Hf.
  destruct (fields_cache w) as [[k v]|]; [|by eauto].
  destruct (Nat.eqb_spec k (hid self)) as [->|Hk]; by eauto.
Qed.

(** C6.  Take a status for which no field table that can reach the handler
    has an option under a field named Status: neither the cached table, nor
    the server's, nor one carried by a response.  Then [set_issue_status]
    never returns normally, the server is left as it was and no mutation is
    sent; once the field table has been obtained, [get_status_field_id]
    raises its ValueError; and on a network that serves every call, with
    arguments that pass the check, an issue that sits on a project and a
    project that has a field table, that ValueError is what
    [set_issue_status] raises. *)
Theorem unmatched_status_is_rejected net self status num nid w :
  no_such_option net self status w ->
  (exists e, fst (set_issue_status net self status num nid w) = Raise e)
  /\ github (snd (set_issue_status net self status num nid w)) = github w
  /\ (exists more,
        trace (snd (set_issue_status net self status num nid w))
        = trace w ++ more /\
        forall r, r ∈ more -> is_mutation r = false)
  /\ (forall fields w1,
        get_project_fields net self w = (Ok fields, w1) ->
        get_status_field_id net self status w
        = (Raise (ValueError (field_not_found status)), w1))
  /\ (healthy net ->
      truthy_int num <> truthy_str nid ->
      (forall n, num = Some n -> is_Some (first_item (github w) n)) ->
      is_Some (project_fields (github w) !! project_node_id self) ->
      fst (set_issue_status net self status num nid w)
      = Raise (ValueError (field_not_found status))).
Proof.
  intros (Hcache & Hserver & Hreplies).
  assert (Hw : refused self status w w).
  { split; [done|]. split; [done|]. exists []. rewrite app_nil_r.
    split; [done|]. intros r Hr. by apply elem_of_nil in Hr. }
  pose proof (refused_set_issue_status net self status w Hserver Hreplies
                num nid w Hw) as Hrun.
  pose proof (refused_get_project_fields net self status w Hserver Hreplies
                w Hw) as Hget.
  split; [|split; [|split; [|split]]].
  - destruct (set_issue_status net self status num nid w) as [[a|e] w'];
      [done|by eexists].
  - destruct (set_issue_status net self status num nid w) as [[a|e] w'];
      [done|]. by destruct Hrun as (Hg & _).
  - destruct (set_issue_status net self status num nid w) as [[a|e] w'];
      [done|]. by destruct Hrun as (_ & _ & Hm).
  - intros fields w1 Hf. unfold get_status_field_id, bind. rewrite Hf.
    rewrite Hf in Hget. destruct Hget as [Hun _].
    by rewrite resolve_unmatched.
  - intros Hnet Hval Htracked [nodes Hnodes].
    assert (Htail : forall issue_id w1,
              github w1 = github w -> fields_cache w1 = fields_cache w ->
              fst ((do ids <- get_status_field_id net self status;
                    do _ <- set_field_option net self issue_id ids.1 ids.2;
                    ret tt) w1)
              = Raise (ValueError (field_not_found status))).
    { intros issue_id w1 Hg1 Hc1.
      destruct (served_fields_any net self nodes w1 Hnet) as (v & w2 & Hv & Hor);
        [by rewrite Hg1|].
      assert (Hun : unmatched status v).
      { destruct Hor as [->|Hor]; [by apply Hserver|].
        apply Hcache. by rewrite <- Hc1. }
      unfold bind at 1. unfold get_status_field_id, bind at 1. rewrite Hv.
      by rewrite resolve_unmatched. }
    unfold set_issue_status.
    destruct (truthy_int num) eqn:Hn, (truthy_str nid) eqn:Hs; try congruence;
      simpl.
    + destruct num as [n|]; [|discriminate].
      destruct (Htracked n eq_refl) as [item Hit].
      destruct (served_issue_id net self n item w Hnet Hit)
        as (w1 & Hid & Hg1 & Hc1).
      unfold bind at 1. rewrite Hid. by apply Htail.
    + destruct num as [n|].
      * destruct (Htracked n eq_refl) as [item Hit].
        destruct (served_issue_id net self n item w Hnet Hit)
          as (w1 & Hid & Hg1 & Hc1).
        unfold bind at 1. rewrite Hid. by apply Htail.
      * unfold bind at 1. simpl. by apply Htail.
Qed.

(** ** The merged branch, whatever the network does *)

Section Merged.

Variable net : nat -> Net.
Variable self : ProjectItemHandler.
Variable w0 : World.

Abbreviation closing_with := (closing_with w0).

Lemma closing_with_send objs w r :
  negb (is_edit r) = true -> closing_with objs w ->
  closing_with objs (with_trace (trace w ++ [r]) w).
Proof.
  intros Hr [(Hp & Hi & more & Hm & Hedit) Hag]. split; [|done].
  split; [done|]. split; [done|].
  exists (more ++ [r]). simpl. rewrite Hm, <- app_assoc. split; [done|].
  intros r' Hr' He. apply elem_of_app in Hr' as [Hr'|Hr']; [by apply Hedit|].
  apply list_elem_of_singleton in Hr' as ->. rewrite He in Hr. done.
Qed.

Lemma closing_with_values objs w f :
  closing_with objs w -> closing_with objs (with_github (with_field_values f) w).
Proof. by intros H. Qed.

Lemma closing_with_cache objs w c :
  closing_with objs w -> closing_with objs (with_cache c w).
Proof. by intros H. Qed.

(** [gh_issue.edit(state="closed")] on an object that shows an open issue. *)
Lemma closing_edit objs n i :
  objs !! n = Some i -> state i = "open" ->
  hoare (closing_with objs) (issue_edit_state net n "closed")
    (fun a => closing_with (<[n := a]> objs)) (fun _ => closing_with objs).
Proof.
  intros Hi Hopen w [(Hp & Hiss & more & Hm & Hedit) Hag].
  assert (H0 : issues (github w0) !! n = Some i).
  { destruct (Hiss n) as [Heq|(i0 & H1 & H2 & H3)].
    - rewrite <- Heq. by apply Hag.
    - rewrite (Hag n i Hi) in H3. inversion H3; subst i. done. }
  assert (Htrace : exists more',
            trace w ++ [EditIssueState n "closed"] = trace w0 ++ more' /\
            forall r, r ∈ more' -> is_edit r = true ->
              exists n' i0, r = EditIssueState n' "closed" /\
                issues (github w0) !! n' = Some i0 /\ state i0 = "open").
  { exists (more ++ [EditIssueState n "closed"]).
    rewrite Hm, <- app_assoc. split; [done|].
    intros r Hr He. apply elem_of_app in Hr as [Hr|Hr]; [by apply Hedit|].
    apply list_elem_of_singleton in Hr as ->. by exists n, i. }
  unfold issue_edit_state. rewrite rest_cases. simpl.
  assert (Hfail : closing_with objs
                    (with_trace (trace w ++ [EditIssueState n "closed"]) w)).
  { split; [|done]. split; [done|]. split; done. }
  destruct (net (length (trace w))); try done.
  unfold serve_update. rewrite (Hag n i Hi). simpl. split.
  - split; [done|]. split; [|done]. simpl. intros m.
    destruct (decide (m = n)) as [->|Hne].
    + right. exists i. by rewrite lookup_insert_eq.
    + rewrite lookup_insert_ne by done. apply Hiss.
  - intros m j Hj. simpl. destruct (decide (m = n)) as [->|Hne].
    + rewrite lookup_insert_eq in Hj. by rewrite lookup_insert_eq.
    + rewrite lookup_insert_ne in Hj by done. rewrite lookup_insert_ne by done.
      by apply Hag.
Qed.

Lemma closing_merged_body li objs :
  hoare (closing_with objs) (merged_body net self li objs)
    closing_with (fun _ w => closes_only w0 w).
Proof.
  unfold merged_body. set (n := li_number li).
  apply hoare_bind with
    (R := fun i w => objs !! n = Some i /\ closing_with objs w).
  { intros w Hw. unfold getitem. destruct (objs !! n) as [i|] eqn:Hi; simpl.
    - done.
    - by destruct Hw. }
  intros i.
  apply hoare_bind with (R := closing_with).
  { destruct (String.eqb (state i) "open") eqn:Hopen.
    - apply String.eqb_eq in Hopen.
      apply hoare_bind with
        (R := fun a w => closing_with (<[n := a]> objs) w).
      + intros w [Hi Hw].
        pose proof (closing_edit objs n i Hi Hopen w Hw) as H.
        destruct (issue_edit_state net n "closed" w) as [[a|e] w']; [done|].
        by destruct H.
      + intros a.
        apply hoare_bind with (R := fun _ => closing_with (<[n := a]> objs)).
        * by intros w Hw.
        * intros u w Hw. done.
    - apply hoare_bind with (R := fun _ => closing_with objs).
      + intros w [Hi Hw]. simpl. done.
      + intros u w Hw. done. }
  intros objs'.
  apply hoare_bind with (R := fun _ => closing_with objs').
  { eapply hoare_weaken_exn.
    - apply (inv_set_issue_status net self (closing_with objs')
               (fun r => negb (is_edit r))).
      + apply closing_with_send.
      + apply closing_with_values.
      + apply closing_with_cache.
      + intros r Hr. by rewrite Hr.
    - by intros e w [H _]. }
  intros u. apply hoare_bind with (R := fun _ => closing_with objs').
  - intros w Hw. simpl. done.
  - intros v w Hw. done.
Qed.

(** Whatever the network does, a run on a merged pull request only closes
    issues that were open. *)
Lemma closing_sync pr_number pr :
  pulls (github w0) !! pr_number = Some pr -> merged pr = true ->
  hoare (closes_only w0) (sync_issue_status_with_pr net self pr_number)
    (fun _ => closes_only w0) (fun _ => closes_only w0).
Proof.
  intros Hpr Hm. unfold sync_issue_status_with_pr.
  assert (Hsend : forall w r, negb (is_edit r) = true -> closes_only w0 w ->
                    closes_only w0 (with_trace (trace w ++ [r]) w)).
  { intros w r Hr Hw.
    assert (Hag : agrees (∅ : gmap Z Issue) (github w))
      by (intros m j Hj; by rewrite lookup_empty in Hj).
    by destruct (closing_with_send ∅ w r Hr (conj Hw Hag)). }
  apply hoare_bind with (R := fun a w => a = pr /\ closes_only w0 w).
  { eapply hoare_conseq.
    - apply (inv_get_pull_value net (closes_only w0)
               (fun r => negb (is_edit r)) Hsend pr_number eq_refl).
    - done.
    - intros a w [Hw Ha]. split; [|done].
      destruct Hw as (Hp & _). rewrite Hp, Hpr in Ha. by inversion Ha.
    - done. }
  intros a.
  apply hoare_bind with (R := fun _ w => a = pr /\ closes_only w0 w).
  { intros w [-> Hw].
    pose proof (inv_linked_issues net self (closes_only w0)
                  (fun r => negb (is_edit r)) Hsend pr_number eq_refl w Hw)
      as H.
    destruct (get_pull_request_linked_issues net self pr_number w)
      as [[l|e] w']; done. }
  intros l.
  apply hoare_bind with (R := fun _ w => a = pr /\ closes_only w0 w).
  { by intros w H. }
  intros u.
  apply hoare_bind with (R := fun _ w => a = pr /\ closes_only w0 w).
  { by intros w H. }
  intros v.
  apply hoare_bind with (R := fun objs w => a = pr /\ closing_with objs w).
  { intros w [-> Hw].
    assert (H : hoare (closing_with ∅) (for_each (fetch_issue net) l ∅)
                  closing_with (fun _ => closes_only w0)).
    { apply (hoare_for_each _ _ closing_with).
      intros li objs _. unfold fetch_issue.
      apply hoare_bind with
        (R := fun i w => closing_with objs w /\
                         issues (github w) !! li_number li = Some i).
      - intros w1 Hw1. unfold repo_get_issue. rewrite rest_cases. simpl.
        pose proof (closing_with_send objs w1 (GetIssue (li_number li))
                      eq_refl Hw1) as H1.
        destruct (net (length (trace w1))); try by destruct H1.
        destruct (issues (github w1) !! li_number li) as [i|] eqn:Hi; simpl;
          [|by destruct H1].
        split; [|done]. done.
      - intros i w1 [[Hc Hag] Hi]. simpl. split; [done|].
        intros m j Hj. destruct (decide (m = li_number li)) as [->|Hne].
        + rewrite lookup_insert_eq in Hj. by inversion Hj; subst.
        + rewrite lookup_insert_ne in Hj by done. by apply Hag. }
    assert (Hag : agrees (∅ : gmap Z Issue) (github w))
      by (intros m j Hj; by rewrite lookup_empty in Hj).
    specialize (H w (conj Hw Hag)).
    destruct (for_each (fetch_issue net) l ∅ w) as [[objs|e] w']; done. }
  intros objs w [-> Hw]. rewrite Hm. unfold bind at 1. simpl.
  pose proof (hoare_for_each (merged_body net self) l closing_with
                (fun _ w => closes_only w0 w)
                (fun li s _ => closing_merged_body li s) objs
                (with_stdout (stdout w ++ [LMerged]) w) Hw) as H.
  unfold bind.
  destruct (for_each (merged_body net self) l objs _) as [[objs'|e] w'];
    [by destruct H|done].
Qed.

End Merged.

(** C9.  For a pull request fetched with merged=true, on every network
    whose calls are served, get no response or are refused with a status of
    400 or more, the only call of the run that edits an issue is the closing
    of an issue that was open, and an issue that was not open is left
    exactly as it was; on a network that serves every call the run still
    returns normally and the Status field of every linked issue, the closed
    ones included, selects the option named Done. *)
Theorem merged_pr_closes_only_open_issues net self pr_number pr w :
  pulls (github w) !! pr_number = Some pr ->
  merged pr = true ->
  (refusals net ->
   forall n i, issues (github w) !! n = Some i -> state i <> "open" ->
     issues (github (snd (sync_issue_status_with_pr net self pr_number w))) !! n
     = Some i)
  /\ (refusals net ->
      exists more,
        trace (snd (sync_issue_status_with_pr net self pr_number w))
        = trace w ++ more /\
        forall r, r ∈ more -> is_edit r = true ->
          exists n i, r = EditIssueState n "closed" /\
                      issues (github w) !! n = Some i /\ state i = "open")
  /\ (forall fields edges field_id option_id,
        healthy net ->
        cached_is self fields w ->
        closing (github w) !! pr_number = Some edges ->
        (forall li, li ∈ present edges ->
           li_number li <> 0%Z /\
           is_Some (first_item (github w) (li_number li))) ->
        server_fields self (github w) = Some fields ->
        resolve_status "Done" fields = Ok (field_id, option_id) ->
        fst (sync_issue_status_with_pr net self pr_number w) = Ok tt /\
        forall li, li ∈ present edges ->
          status_of
            (github (snd (sync_issue_status_with_pr net self pr_number w)))
            field_id (li_number li) = Some option_id).
Proof.
  intros Hpr Hm.
  assert (Hw : closes_only w w).
  { split; [done|]. split; [by left|]. exists []. rewrite app_nil_r.
    split; [done|]. intros r Hr. by apply elem_of_nil in Hr. }
  pose proof (closing_sync net self w pr_number pr Hpr Hm w Hw) as H.
  assert (Hc : closes_only w
                 (snd (sync_issue_status_with_pr net self pr_number w))).
  { by destruct (sync_issue_status_with_pr net self pr_number w)
      as [[a|e] w']. }
  clear H. destruct Hc as (_ & Hiss & Htrace).
  split; [|split].
  - intros _ n i Hi Hclosed.
    destruct (Hiss n) as [Heq|(i0 & H1 & H2 & _)]; [by rewrite Heq|].
    rewrite Hi in H1. inversion H1; subst i0. done.
  - intros _. exact Htrace.
  - intros fields edges field_id option_id Hnet Hcache Hedges Hl Hf Hres.
    destruct (served_sync_outcome net self fields pr_number pr edges w
                field_id option_id Hnet Hcache Hpr Hedges Hl Hf)
      as (w' & Hrun & Hlinked & _).
    { unfold branch_status. by rewrite Hm. }
    rewrite Hrun. split; [done|]. intros li Hli. by apply Hlinked.
Qed.

Lemma merged_pr_closes_only_open_issues_witness :
  issues (github (snd (sync_issue_status_with_pr up ex_handler 42
                         (ex_world (ex_pull true "closed" false))))) !! 11%Z
  = Some {| node_id := "I11"; state := "closed"; assignees := [] |}
  /\ status_of
       (github (snd (sync_issue_status_with_pr up ex_handler 42
                       (ex_world (ex_pull true "closed" false)))))
       "F1" 11 = Some "o4".
Proof.
  pose proof (merged_pr_closes_only_open_issues up ex_handler 42
                (ex_pull true "closed" false)
                (ex_world (ex_pull true "closed" false))
                eq_refl eq_refl) as (H1 & _ & H3).
  split.
  - apply H1; [apply up_refusals|reflexivity|discriminate].
  - apply (proj2 (H3 [ex_status] ex_linked "F1" "o4" up_healthy
                    (ex_cache_empty _ _) eq_refl (ex_linked_tracked _) eq_refl
                    eq_refl)
             {| li_id := "I11"; li_body := ""; li_number := 11;
                li_title := "b" |}).
    apply list_elem_of_further, list_elem_of_here.
Defined.

(** ** The cache of the field table *)

Lemma fetches_app a b : fetches (a ++ b) = (fetches a + fetches b)%nat.
Proof. unfold fetches. by rewrite List.filter_app, length_app. Qed.

Lemma once_weaken key t0 w : fetched_once key t0 w -> at_most_once t0 w.
Proof.
  intros (more & Hm & [H|[H _]]); exists more; (split; [done|lia]).
Qed.

Lemma once_send key t0 w r :
  negb (is_fields_fetch r) = true -> fetched_once key t0 w ->
  fetched_once key t0 (with_trace (trace w ++ [r]) w).
Proof.
  intros Hr (more & Hm & Hor). exists (more ++ [r]). simpl.
  rewrite Hm, <- app_assoc. split; [done|].
  rewrite fetches_app. unfold fetches at 2 4. simpl.
  destruct (is_fields_fetch r); [done|]. simpl. by rewrite Nat.add_0_r.
Qed.

Lemma fetch_project_fields_trace net self w :
  trace (snd (fetch_project_fields net self w))
  = trace w ++ [PostGraphQL (graphql_url (gh_config self))
                  (QProjectFields (project_node_id self))]
  /\ fields_cache (snd (fetch_project_fields net self w)) = fields_cache w.
Proof.
  unfold fetch_project_fields, bind. rewrite run_graphql_cases. simpl.
  destruct (net (length (trace w))) as [| |resp]; simpl; [|done|].
  - by destruct (project_fields (github w) !! project_node_id self).
  - destruct (status_code resp =? 200)%Z; [|done].
    destruct (json resp) as [d|]; [|done]. by destruct d.
Qed.

Section Once.

Variable net : nat -> Net.
Variable self : ProjectItemHandler.
Variable t0 : list Request.

Abbreviation once := (fetched_once (hid self) t0).
Abbreviation plain := (fun r => negb (is_fields_fetch r)).

Lemma once_get_project_fields :
  hoare once (get_project_fields net self)
    (fun _ => once) (fun _ => at_most_once t0).
Proof.
  intros w Hw. unfold get_project_fields, lru_cache_1.
  destruct (fetch_project_fields_trace net self w) as [Ht Hc].
  assert (Hmiss :
    (forall v, fields_cache w <> Some (hid self, v)) ->
    match
      match fetch_project_fields net self w with
      | (Ok v, w') => (Ok v, with_cache (Some (hid self, v)) w')
      | (Raise e, w') => (Raise e, w')
      end
    with
    | (Ok _, w') => once w'
    | (Raise _, w') => at_most_once t0 w'
    end).
  { intros Hnone. destruct Hw as (more & Hm & Hor).
    assert (H0 : fetches more = 0%nat).
    { destruct Hor as [H|[_ [v Hv]]]; [done|]. by destruct (Hnone v). }
    assert (H1 : fetches (more ++ [PostGraphQL (graphql_url (gh_config self))
                             (QProjectFields (project_node_id self))]) = 1%nat).
    { rewrite fetches_app, H0. reflexivity. }
    destruct (fetch_project_fields net self w) as [[v|e] w']; simpl in *.
    - eexists. simpl. rewrite Ht, Hm, <- app_assoc. split; [done|].
      right. split; [done|]. by eexists.
    - eexists. rewrite Ht, Hm, <- app_assoc. split; [done|]. lia. }
  destruct (fields_cache w) as [[k v]|] eqn:Hcache.
  - destruct (Nat.eqb_spec k (hid self)) as [->|Hk]; [done|].
    apply Hmiss. intros v' Hv'. by inversion Hv'.
  - apply Hmiss. intros v' Hv'. discriminate.
Qed.

Lemma once_set_issue_status status num nid :
  hoare once (set_issue_status net self status num nid)
    (fun _ => once) (fun _ => at_most_once t0).
Proof.
  unfold set_issue_status.
  destruct (negb (truthy_int num) && negb (truthy_str nid)).
  { apply hoare_raise. apply once_weaken. }
  destruct (truthy_int num && truthy_str nid).
  { apply hoare_raise. apply once_weaken. }
  apply hoare_bind with (R := fun _ => once).
  - destruct num as [n|]; [|by apply hoare_ret].
    eapply hoare_weaken_exn.
    + apply inv_issue_id with (ok := plain); [apply once_send|].
      intros r _ _ Hr. by rewrite Hr.
    + intros e w. apply once_weaken.
  - intros issue_id. apply hoare_bind with (R := fun _ => once).
    + unfold get_status_field_id.
      eapply hoare_bind; [apply once_get_project_fields|].
      intros v w Hw. simpl. destruct (resolve_status status v); [done|].
      by apply once_weaken in Hw.
    + intros ids. eapply hoare_bind.
      * eapply hoare_weaken_exn.
        -- apply inv_set_field_option with (ok := plain);
             [apply once_send| |].
           ++ by intros w f H.
           ++ intros r Hr. by destruct r as [| | | | | |url []].
        -- intros e w. apply once_weaken.
      * intros d. by apply hoare_ret.
Qed.

(** A call that edits an issue neither fetches the table nor touches the
    cache. *)
Lemma once_edit r f n :
  is_fields_fetch r = false ->
  hoare once (rest net r (serve_update n f)) (fun _ => once) (fun _ => once).
Proof.
  intros Hr. apply inv_rest_any with (ok := plain).
  - apply once_send.
  - by rewrite Hr.
  - by intros w g H.
Qed.

Lemma once_merged_body li objs :
  hoare once (merged_body net self li objs)
    (fun _ => once) (fun _ => at_most_once t0).
Proof.
  unfold merged_body.
  apply hoare_bind with (R := fun _ => once).
  { intros w Hw. unfold getitem. destruct (objs !! li_number li); simpl;
      [done|by apply once_weaken in Hw]. }
  intros i. apply hoare_bind with (R := fun _ => once).
  { destruct (String.eqb (state i) "open").
    - eapply hoare_bind.
      + eapply hoare_weaken_exn; [by apply once_edit|].
        intros e w. apply once_weaken.
      + intros a. by intros w Hw.
    - by intros w Hw. }
  intros objs'. eapply hoare_bind; [apply once_set_issue_status|].
  intros u. by intros w Hw.
Qed.

Lemma once_closed_body li objs :
  hoare once (closed_body net self li objs)
    (fun _ => once) (fun _ => at_most_once t0).
Proof.
  unfold closed_body.
  apply hoare_bind with (R := fun _ => once).
  { intros w Hw. unfold getitem. destruct (objs !! li_number li); simpl;
      [done|by apply once_weaken in Hw]. }
  intros i. apply hoare_bind with (R := fun _ => once).
  { destruct (assignees i) as [|x l]; [by apply hoare_ret|].
    apply hoare_try with (E' := fun _ => once).
    - eapply hoare_bind; [by apply once_edit|]. intros a. by intros w Hw.
    - intros e. by intros w Hw. }
  intros objs'. eapply hoare_bind; [apply once_set_issue_status|].
  intros u. by intros w Hw.
Qed.

Lemma once_open_body target_status pr_assignees li objs :
  hoare once (open_body net self target_status pr_assignees li objs)
    (fun _ => once) (fun _ => at_most_once t0).
Proof.
  unfold open_body.
  apply hoare_bind with (R := fun _ => once).
  { intros w Hw. unfold getitem. destruct (objs !! li_number li); simpl;
      [done|by apply once_weaken in Hw]. }
  intros i. apply hoare_bind with (R := fun _ => once).
  { destruct (negb (same_set (assignees i) pr_assignees));
      [|by apply hoare_ret].
    apply hoare_try with (E' := fun _ => once).
    - eapply hoare_bind; [by apply once_edit|]. intros a. by intros w Hw.
    - intros e. by intros w Hw. }
  intros objs'. eapply hoare_bind; [apply once_set_issue_status|].
  intros u. by apply hoare_ret.
Qed.

Lemma once_sync pr_number :
  hoare once (sync_issue_status_with_pr net self pr_number)
    (fun _ => once) (fun _ => at_most_once t0).
Proof.
  unfold sync_issue_status_with_pr.
  assert (Hplain : forall r, is_fields_fetch r = false -> plain r = true)
    by (intros r Hr; by rewrite Hr).
  eapply hoare_bind.
  { eapply hoare_weaken_exn.
    - apply inv_get_pull with (ok := plain); [apply once_send|done].
    - intros e w. apply once_weaken. }
  intros pr. eapply hoare_bind.
  { eapply hoare_weaken_exn.
    - apply inv_linked_issues with (ok := plain); [apply once_send|done].
    - intros e w. apply once_weaken. }
  intros l. apply hoare_bind with (R := fun _ => once); [by intros w Hw|].
  intros u. apply hoare_bind with (R := fun _ => once); [by intros w Hw|].
  intros v. apply hoare_bind with (R := fun _ => once).
  { eapply hoare_weaken_exn.
    - apply inv_fetch_issues with (ok := plain); [apply once_send|done].
    - intros e w. apply once_weaken. }
  intros objs.
  assert (Hloop : forall body,
            (forall li s, hoare once (body li s) (fun _ => once)
                            (fun _ => at_most_once t0)) ->
            hoare once (do _ <- for_each body l objs; ret tt)
              (fun _ => once) (fun _ => at_most_once t0)).
  { intros body Hbody. eapply hoare_bind.
    - apply (hoare_for_each body l (fun _ => once)). intros li s _. apply Hbody.
    - intros s. by apply hoare_ret. }
  destruct (merged pr).
  - apply hoare_bind with (R := fun _ => once); [by intros w Hw|].
      intros x.
    apply Hloop, once_merged_body.
  - destruct (String.eqb (pr_state pr) "closed").
    + apply hoare_bind with (R := fun _ => once); [by intros w Hw|].
      intros x.
      apply Hloop, once_closed_body.
    + apply hoare_bind with (R := fun _ => once); [by intros w Hw|].
      intros x.
      apply Hloop, once_open_body.
Qed.

End Once.

(** [__init__] never asks for the field table. *)
Lemma once_init net key cfg t0 :
  hoare (fetched_once key t0) (init net key cfg)
    (fun h w => hid h = key /\ fetched_once key t0 w)
    (fun _ => at_most_once t0).
Proof.
  unfold init.
  apply hoare_bind with (R := fun _ => fetched_once key t0).
  { eapply hoare_weaken_exn.
    - apply inv_rest_any with (ok := fun r => negb (is_fields_fetch r)).
      + apply once_send.
      + done.
      + by intros w g H.
    - intros e w. apply once_weaken. }
  intros u. apply hoare_bind with (R := fun _ => fetched_once key t0).
  { unfold get_project_node_id. eapply hoare_bind.
    - eapply hoare_weaken_exn.
      + apply inv_run_query with (ok := fun r => negb (is_fields_fetch r)).
        * apply once_send.
        * done.
        * done.
      + intros e w. apply once_weaken.
    - intros d w Hw. destruct d; simpl; try done; by apply once_weaken in Hw. }
  intros project. by apply hoare_ret.
Qed.

Lemma once_main net getenv int t0 :
  hoare (fetched_once 0 t0) (main net getenv int)
    (fun _ => at_most_once t0) (fun _ => at_most_once t0).
Proof.
  unfold main.
  repeat (match goal with
          | |- hoare _ (if ?b then _ else _) _ _ =>
              destruct b; [apply hoare_raise; apply once_weaken|]
          end).
  assert (Hint : forall s,
            hoare (fetched_once 0 t0) (to_int int s)
              (fun _ => fetched_once 0 t0) (fun _ => at_most_once t0)).
  { intros s w Hw. unfold to_int. destruct (int s); simpl; [done|].
    by apply once_weaken in Hw. }
  eapply hoare_bind; [apply Hint|]. intros project_number.
  eapply hoare_bind; [apply Hint|]. intros pr_number.
  eapply hoare_bind; [apply once_init|].
  intros h w1 [Hh Hw1]. rewrite <- Hh in Hw1.
  pose proof (once_sync net h t0 pr_number w1 Hw1) as H.
  destruct (sync_issue_status_with_pr net h pr_number w1) as [[a|e] w2];
    [by apply once_weaken in H|done].
Qed.

(** C8.  Whatever the network does, a run fetches the field table at most
    once, and so does any call of [sync_issue_status_with_pr]; a call of
    [get_project_fields] on an empty cache sends exactly the one query; and
    once a call has returned a table, every later call on the same handler,
    in any world whose cache slot is as that call left it, returns the same
    table and leaves the world, its trace included, untouched. *)
Theorem field_table_fetched_at_most_once net :
  (forall getenv int w,
     exists more, trace (snd (main net getenv int w)) = trace w ++ more /\
                  (fetches more <= 1)%nat)
  /\ (forall self pr_number w,
        exists more,
          trace (snd (sync_issue_status_with_pr net self pr_number w))
          = trace w ++ more /\ (fetches more <= 1)%nat)
  /\ (forall self w,
        fields_cache w = None ->
        trace (snd (get_project_fields net self w))
        = trace w ++ [PostGraphQL (graphql_url (gh_config self))
                        (QProjectFields (project_node_id self))])
  /\ (forall self w v w',
        get_project_fields net self w = (Ok v, w') ->
        forall w'', fields_cache w'' = fields_cache w' ->
                    get_project_fields net self w'' = (Ok v, w'')).
Proof.
  assert (Hstart : forall key w, fetched_once key (trace w) w).
  { intros key w. exists []. rewrite app_nil_r. split; [done|by left]. }
  split; [|split; [|split]].
  - intros getenv int w.
    pose proof (once_main net getenv int (trace w) w (Hstart 0%nat w)) as H.
    by destruct (main net getenv int w) as [[a|e] w'].
  - intros self pr_number w.
    pose proof (once_sync net self (trace w) pr_number w (Hstart _ w)) as H.
    destruct (sync_issue_status_with_pr net self pr_number w) as [[a|e] w'];
      [by apply once_weaken in H|done].
  - intros self w Hnone. unfold get_project_fields, lru_cache_1. rewrite Hnone.
    destruct (fetch_project_fields_trace net self w) as [Ht _].
    by destruct (fetch_project_fields net self w) as [[v|e] w'].
  - intros self w v w' Hcall w'' Hsame.
    assert (Hslot : fields_cache w' = Some (hid self, v)).
    { unfold get_project_fields, lru_cache_1 in Hcall.
      destruct (fields_cache w) as [[k v0]|] eqn:Hcache.
      - destruct (Nat.eqb_spec k (hid self)) as [->|Hk].
        + by inversion Hcall; subst.
        + destruct (fetch_project_fields net self w) as [[v1|e] w1];
            by inversion Hcall; subst.
      - destruct (fetch_project_fields net self w) as [[v1|e] w1];
          by inversion Hcall; subst. }
    unfold get_project_fields, lru_cache_1. rewrite Hsame, Hslot.
    by rewrite Nat.eqb_refl.
Qed.

Lemma field_table_fetched_at_most_once_witness :
  trace (snd (get_project_fields up ex_handler
                (ex_world (ex_pull true "closed" false))))
  = [] ++ [PostGraphQL "https://api.github.com/graphql" (QProjectFields "P1")]
  /\ get_project_fields up ex_handler
       (snd (get_project_fields up ex_handler
               (ex_world (ex_pull true "closed" false))))
     = (Ok [ex_status],
        snd (get_project_fields up ex_handler
               (ex_world (ex_pull true "closed" false)))).
Proof.
  pose proof (field_table_fetched_at_most_once up) as (_ & _ & H3 & H4).
  split.
  - apply (H3 ex_handler (ex_world (ex_pull true "closed" false))).
    reflexivity.
  - apply (H4 ex_handler (ex_world (ex_pull true "closed" false)) [ex_status]
             (snd (get_project_fields up ex_handler
                     (ex_world (ex_pull true "closed" false))))).
    + reflexivity.
    + reflexivity.
Defined.

Lemma ex_no_such_option pr :
  no_such_option up ex_handler "Status That Does Not Exist" (ex_world pr).
Proof.
  split; [|split].
  - intros v Hv. discriminate.
  - intros nodes Hn. vm_compute in Hn. inversion Hn; subst nodes.
    intros f Hf _ o Ho.
    apply list_elem_of_singleton in Hf as ->.
    repeat (apply elem_of_cons in Ho as [->|Ho]; [discriminate|]).
    by apply elem_of_nil in Ho.
  - intros k r nodes Hk. discriminate.
Qed.

Lemma unmatched_status_is_rejected_witness :
  fst (set_issue_status up ex_handler "Status That Does Not Exist"
         (Some 10%Z) None (ex_world (ex_pull true "closed" false)))
  = Raise (ValueError (field_not_found "Status That Does Not Exist"))
  /\ github (snd (set_issue_status up ex_handler "Status That Does Not Exist"
                    (Some 10%Z) None (ex_world (ex_pull true "closed" false))))
     = ex_github (ex_pull true "closed" false).
Proof.
  pose proof (unmatched_status_is_rejected up ex_handler
                "Status That Does Not Exist" (Some 10%Z) None
                (ex_world (ex_pull true "closed" false))
                (ex_no_such_option _)) as (_ & H2 & _ & _ & H5).
  split; [|exact H2].
  apply H5.
  - apply up_healthy.
  - simpl. discriminate.
  - intros n [= <-]. by eexists.
  - by eexists.
Defined.

(** ** Failures of the calls that edit an issue *)

(** The removal and the assignment of assignees are guarded: whatever the
    network does, the guarded block returns. *)
Lemma remove_assignees_is_guarded net n l (gh_issues : gmap Z Issue) w :
  exists objs w',
    try_except
      (do i <- issue_remove_from_assignees net n l;
       do _ <- print (LRemovedAssignees n);
       ret (<[n := i]> gh_issues))
      (fun e => do _ <- print (LWarnRemove n e); ret gh_issues) w
    = (Ok objs, w').
Proof.
  unfold try_except, bind at 1.
  destruct (issue_remove_from_assignees net n l w) as [[i|e] w1]; by eauto.
Qed.

Lemma set_assignees_is_guarded net n l (gh_issues : gmap Z Issue) w :
  exists objs w',
    try_except
      (do i <- issue_edit_assignees net n l;
       do _ <- print (LAssigned n l);
       ret (<[n := i]> gh_issues))
      (fun e => do _ <- print (LWarnAssign n e); ret gh_issues) w
    = (Ok objs, w').
Proof.
  unfold try_except, bind at 1.
  destruct (issue_edit_assignees net n l w) as [[i|e] w1]; by eauto.
Qed.

(** An exception that leaves the body of a loop leaves the loop: the issues
    that follow are not processed. *)
Lemma for_each_raises {A S} (body : A -> S -> M S) a l s w e w' :
  body a s w = (Raise e, w') -> for_each body (a :: l) s w = (Raise e, w').
Proof. intros H. simpl. unfold bind. by rewrite H. Qed.

(** Pull request 42 closed without merge, and the removal of the assignee
    of issue 10 answered with 403: the failure is printed, both issues get
    their status and the run returns. *)
Lemma closed_pr_removal_failure_is_caught :
  fst (sync_issue_status_with_pr fifth_forbidden ex_handler 42
         (ex_world (ex_pull false "closed" false))) = Ok tt
  /\ LWarnRemove 10 (GithubException 403)
       ∈ stdout (snd (sync_issue_status_with_pr fifth_forbidden ex_handler 42
                        (ex_world (ex_pull false "closed" false))))
  /\ status_of
       (github (snd (sync_issue_status_with_pr fifth_forbidden ex_handler 42
                       (ex_world (ex_pull false "closed" false)))))
       "F1" 10 = Some "o1"
  /\ status_of
       (github (snd (sync_issue_status_with_pr fifth_forbidden ex_handler 42
                       (ex_world (ex_pull false "closed" false)))))
       "F1" 11 = Some "o1".
Proof.
  split; [by vm_compute|]. split; [|split; by vm_compute].
  vm_compute. do 3 apply list_elem_of_further. apply list_elem_of_here.
Qed.

(** C4, the closing of an issue.  Pull request 42 merged, and the closing
    of issue 10 answered with 403: the call is not guarded, so the exception
    leaves the run; issue 10 gets no status and issue 11 is not processed
    at all -- no call, no line, no status. *)
Theorem merged_pr_close_failure_aborts :
  sync_issue_status_with_pr fifth_forbidden ex_handler 42
    (ex_world (ex_pull true "closed" false))
  = (Raise (GithubException 403),
     {| github := ex_github (ex_pull true "closed" false);
        fields_cache := None;
        trace := [GetPull 42;
                  PostGraphQL "https://api.github.com/graphql"
                    (QLinkedIssues 42 "org" "repo");
                  GetIssue 10; GetIssue 11; EditIssueState 10 "closed"];
        stdout := [LLinkedIssues (present ex_linked); LNoAssignees ["bob"];
                   LMerged] |}).
Proof. by vm_compute. Qed.

(** * Further properties of the script *)

(** ** [main] and the environment *)

(** [main] reads five variables; when one of them is unset or empty it
    raises a ValueError and the world is untouched: nothing was sent and
    nothing printed. *)
Theorem main_requires_environment net getenv int w name :
  name ∈ required_variables ->
  truthy_str (getenv name) = false ->
  exists msg, main net getenv int w = (Raise (ValueError msg), w).
Proof.
  intros Hname Hunset. unfold main.
  destruct (truthy_str (getenv "TOKEN")) eqn:H1; [|by eexists].
  destruct (truthy_str (getenv "ORG")) eqn:H2; [|by eexists].
  destruct (truthy_str (getenv "REPO")) eqn:H3; [|by eexists].
  destruct (truthy_str (getenv "PROJECT_NUMBER")) eqn:H4; [|by eexists].
  destruct (truthy_str (getenv "PR_NUMBER")) eqn:H5; [|by eexists].
  unfold required_variables in Hname.
  repeat (apply elem_of_cons in Hname as [->|Hname]; [congruence|]).
  by apply elem_of_nil in Hname.
Qed.

Lemma main_requires_environment_witness :
  exists msg,
    main up (fun name => if String.eqb name "REPO" then Some "" else ex_getenv name)
      ex_int (ex_world (ex_pull true "closed" false))
    = (Raise (ValueError msg), ex_world (ex_pull true "closed" false)).
Proof.
  apply (main_requires_environment up
           (fun name => if String.eqb name "REPO" then Some "" else ex_getenv name)
           ex_int (ex_world (ex_pull true "closed" false)) "REPO").
  - unfold required_variables. do 2 apply list_elem_of_further.
    apply list_elem_of_here.
  - reflexivity.
Defined.

(** With the five variables set, a project number or a pull request number
    that [int] cannot convert makes [main] raise a ValueError, again before
    anything is sent. *)
Theorem main_rejects_bad_number net getenv int w :
  (forall name, name ∈ required_variables -> truthy_str (getenv name) = true) ->
  int (default "" (getenv "PROJECT_NUMBER")) = None \/
  int (default "" (getenv "PR_NUMBER")) = None ->
  exists msg, main net getenv int w = (Raise (ValueError msg), w).
Proof.
  intros Hset Hbad. unfold main.
  assert (Hin : forall name, In name required_variables ->
                  truthy_str (getenv name) = true)
    by (intros name Hn; apply Hset; by apply list_elem_of_In).
  rewrite !Hin by (simpl; tauto). simpl.
  unfold bind at 1. unfold to_int at 1.
  destruct (int (default "" (getenv "PROJECT_NUMBER"))) as [pn|] eqn:Hpn;
    simpl; [|by eexists].
  destruct Hbad as [Hbad|Hbad]; [discriminate|].
  unfold bind at 1. unfold to_int. rewrite Hbad. simpl. by eexists.
Qed.

Lemma ex_getenv_set name :
  name ∈ required_variables -> truthy_str (ex_getenv name) = true.
Proof.
  intros Hname. unfold required_variables in Hname.
  repeat (apply elem_of_cons in Hname as [->|Hname]; [reflexivity|]).
  by apply elem_of_nil in Hname.
Qed.

Lemma main_rejects_bad_number_witness :
  exists msg,
    main up ex_getenv (fun s => if String.eqb s "42" then None else ex_int s)
      (ex_world (ex_pull true "closed" false))
    = (Raise (ValueError msg), ex_world (ex_pull true "closed" false)).
Proof.
  apply (main_rejects_bad_number up ex_getenv
           (fun s => if String.eqb s "42" then None else ex_int s)
           (ex_world (ex_pull true "closed" false))).
  - apply ex_getenv_set.
  - right. reflexivity.
Defined.

(** ** The look-up of the status field and option *)

Lemma scan_no_status name fields : forall acc,
  (forall f, f ∈ fields -> fld_name f <> "Status") ->
  fold_left (scan_field name) fields acc = acc.
Proof.
  induction fields as [|f fields IH]; intros acc Hno; [done|].
  simpl. rewrite IH by (intros f' Hf'; apply Hno; by right).
  unfold scan_field.
  destruct (String.eqb_spec (fld_name f) "Status") as [Heq|_]; [|done].
  destruct (Hno f); [left|done].
Qed.

Lemma find_option_first name pre o post :
  (forall o', o' ∈ pre -> opt_name o' <> name) ->
  opt_name o = name ->
  find_option name (pre ++ o :: post) = Some (opt_id o).
Proof.
  intros Hpre Ho. unfold find_option.
  induction pre as [|o' pre IH]; simpl.
  - apply String.eqb_eq in Ho. by rewrite Ho.
  - destruct (String.eqb_spec (opt_name o') name) as [Heq|_].
    + destruct (Hpre o'); [left|done].
    + apply IH. intros o'' Ho''. apply Hpre. by right.
Qed.

(** With one field named Status, the look-up returns the id of that field
    and the id of the first of its options that carries the requested name,
    provided neither id is empty. *)
Theorem resolve_status_first_option name before f after pre o post :
  (forall f', f' ∈ before ++ after -> fld_name f' <> "Status") ->
  fld_name f = "Status" ->
  fld_options f = pre ++ o :: post ->
  (forall o', o' ∈ pre -> opt_name o' <> name) ->
  opt_name o = name ->
  fld_id f <> "" -> opt_id o <> "" ->
  resolve_status name (before ++ f :: after) = Ok (fld_id f, opt_id o).
Proof.
  intros Hno Hf Hopts Hpre Ho Hfid Hoid. unfold resolve_status.
  rewrite fold_left_app. simpl.
  rewrite (scan_no_status name before)
    by (intros f' Hf'; apply Hno, elem_of_app; by left).
  rewrite (scan_no_status name after)
    by (intros f' Hf'; apply Hno, elem_of_app; by right).
  unfold scan_field. apply String.eqb_eq in Hf. rewrite Hf. simpl.
  rewrite Hopts, (find_option_first name pre o post Hpre Ho).
  unfold truthy_str.
  destruct (String.eqb_spec (fld_id f) ""); [done|].
  by destruct (String.eqb_spec (opt_id o) "").
Qed.

Lemma resolve_status_first_option_witness :
  resolve_status "In Development"
    ([] ++ ex_status :: [])
  = Ok ("F1", "o2").
Proof.
  apply (resolve_status_first_option "In Development" [] ex_status []
           [ {| opt_id := "o1"; opt_name := "Selected for Development" |} ]
           {| opt_id := "o2"; opt_name := "In Development" |}
           [ {| opt_id := "o3"; opt_name := "Ready For Review" |};
             {| opt_id := "o4"; opt_name := "Done" |} ]).
  - intros f' Hf'. by apply elem_of_nil in Hf'.
  - reflexivity.
  - reflexivity.
  - intros o' Ho'. apply list_elem_of_singleton in Ho' as ->. discriminate.
  - reflexivity.
  - discriminate.
  - discriminate.
Defined.

Lemma scan_sound name fields : forall acc,
  (forall x, fst (fold_left (scan_field name) fields acc) = Some x ->
     fst acc = Some x \/
     exists f, f ∈ fields /\ fld_name f = "Status" /\ fld_id f = x)
  /\ (forall y, snd (fold_left (scan_field name) fields acc) = Some y ->
        snd acc = Some y \/
        exists f o, f ∈ fields /\ fld_name f = "Status" /\
                    o ∈ fld_options f /\ opt_name o = name /\ opt_id o = y).
Proof.
  induction fields as [|f fields IH]; intros acc; [by split; auto|].
  simpl. destruct (IH (scan_field name acc f)) as [IH1 IH2].
  assert (Hstep1 : forall x, fst (scan_field name acc f) = Some x ->
            fst acc = Some x \/ (fld_name f = "Status" /\ fld_id f = x)).
  { intros x. unfold scan_field.
    destruct (String.eqb_spec (fld_name f) "Status"); simpl; [|by auto].
    intros [= <-]. by right. }
  assert (Hstep2 : forall y, snd (scan_field name acc f) = Some y ->
            snd acc = Some y \/
            (fld_name f = "Status" /\
             exists o, o ∈ fld_options f /\ opt_name o = name /\ opt_id o = y)).
  { intros y. unfold scan_field.
    destruct (String.eqb_spec (fld_name f) "Status"); simpl; [|by auto].
    unfold find_option.
    destruct (List.find _ (fld_options f)) as [o|] eqn:Hfind; simpl;
      [|by auto].
    intros [= <-]. apply find_some in Hfind as [Hin Heq].
    right. split; [done|]. exists o.
    split; [by apply list_elem_of_In|]. split; [by apply String.eqb_eq|done]. }
  split.
  - intros x Hx. destruct (IH1 x Hx) as [H|(f' & Hf' & H)].
    + destruct (Hstep1 x H) as [?|[? ?]]; [by left|].
      right. exists f. split; [left|done].
    + right. exists f'. split; [by right|done].
  - intros y Hy. destruct (IH2 y Hy) as [H|(f' & o & Hf' & H)].
    + destruct (Hstep2 y H) as [?|[? (o & ? & ? & ?)]]; [by left|].
      right. exists f, o. split; [left|done].
    + right. exists f', o. split; [by right|done].
Qed.

(** What the look-up returns is real: a non-empty id of a field named
    Status, and the non-empty id of an option of a field named Status that
    carries the requested name. *)
Theorem resolve_status_sound name fields field_id option_id :
  resolve_status name fields = Ok (field_id, option_id) ->
  field_id <> "" /\ option_id <> "" /\
  (exists f, f ∈ fields /\ fld_name f = "Status" /\ fld_id f = field_id) /\
  (exists f o, f ∈ fields /\ fld_name f = "Status" /\ o ∈ fld_options f /\
               opt_name o = name /\ opt_id o = option_id).
Proof.
  unfold resolve_status.
  destruct (scan_sound name fields (None, None)) as [H1 H2].
  destruct (fold_left (scan_field name) fields (None, None)) as [fo oo].
  destruct fo as [fid|]; [|discriminate]. destruct oo as [oid|];
    [|by rewrite orb_true_r].
  simpl in *.
  destruct (String.eqb_spec fid ""); [discriminate|].
  destruct (String.eqb_spec oid ""); [discriminate|]. simpl.
  intros [= <- <-]. split; [done|]. split; [done|]. split.
  - destruct (H1 fid eq_refl) as [?|?]; [discriminate|done].
  - destruct (H2 oid eq_refl) as [?|?]; [discriminate|done].
Qed.

Lemma resolve_status_sound_witness :
  "F1" <> "" /\ "o4" <> "" /\
  (exists f, f ∈ [ex_status] /\ fld_name f = "Status" /\ fld_id f = "F1") /\
  (exists f o, f ∈ [ex_status] /\ fld_name f = "Status" /\ o ∈ fld_options f /\
               opt_name o = "Done" /\ opt_id o = "o4").
Proof.
  apply (resolve_status_sound "Done" [ex_status] "F1" "o4"). reflexivity.
Defined.

(** The option id found under one field named Status survives a later
    field named Status that lacks the option, while the field id is
    replaced: the pair returned then names a field and an option of another
    field. *)
Theorem resolve_status_mixes_fields name fields f field_id option_id :
  resolve_status name fields = Ok (field_id, option_id) ->
  fld_name f = "Status" ->
  (forall o, o ∈ fld_options f -> opt_name o <> name) ->
  fld_id f <> "" ->
  resolve_status name (fields ++ [f]) = Ok (fld_id f, option_id).
Proof.
  unfold resolve_status. intros Hres Hf Hno Hfid.
  rewrite fold_left_app. simpl.
  destruct (fold_left (scan_field name) fields (None, None)) as [fo oo].
  unfold scan_field. apply String.eqb_eq in Hf. rewrite Hf. simpl.
  rewrite (find_option_none name (fld_options f) Hno). simpl.
  destruct (String.eqb_spec (fld_id f) ""); [done|]. simpl.
  destruct (truthy_str fo); [|discriminate]. simpl in Hres.
  destruct (truthy_str oo); [|discriminate]. simpl in *.
  by inversion Hres.
Qed.

Lemma resolve_status_mixes_fields_witness :
  resolve_status "Done"
    ([ex_status] ++ [ {| fld_id := "F2"; fld_name := "Status";
                         fld_options := [] |} ])
  = Ok ("F2", "o4").
Proof.
  apply (resolve_status_mixes_fields "Done" [ex_status]
           {| fld_id := "F2"; fld_name := "Status"; fld_options := [] |}
           "F1" "o4").
  - reflexivity.
  - reflexivity.
  - intros o Ho. by apply elem_of_nil in Ho.
  - discriminate.
Defined.

(** ** Edges of [set_issue_status] *)

(** An issue that sits on no project: the call raises IndexError after the
    two look-ups; the field table is not asked for, nothing is written. *)
Theorem set_issue_status_without_project_item net self status n i w :
  healthy net ->
  n <> 0%Z ->
  issues (github w) !! n = Some i ->
  project_items (github w) !! node_id i = Some [] ->
  set_issue_status net self status (Some n) None w =
  (Raise IndexError,
   with_trace (trace w ++ [GetIssue n;
                           PostGraphQL (graphql_url (gh_config self))
                             (QIssueInfo (node_id i))]) w).
Proof.
  intros Hnet Hn Hi Hitems. unfold set_issue_status. simpl.
  destruct (Z.eqb_spec n 0) as [|_]; [done|]. simpl.
  unfold bind at 1. unfold bind at 1. unfold repo_get_issue.
  rewrite (rest_served net Hnet), Hi. simpl.
  unfold bind, get_issue_info. unfold bind.
  rewrite (run_graphql_served net Hnet). simpl. rewrite Hitems. simpl.
  destruct w. unfold with_trace, with_github. simpl.
  by rewrite <- app_assoc.
Qed.

Lemma set_issue_status_without_project_item_witness :
  set_issue_status up ex_handler "Done" (Some 10%Z) None
    (with_github
       (fun g => {| pulls := pulls g; closing := closing g; issues := issues g;
                    project_items := {[ "I10" := [] ]};
                    projects := projects g;
                    project_fields := project_fields g;
                    field_values := field_values g |})
       (ex_world (ex_pull true "closed" false)))
  = (Raise IndexError,
     with_trace ([] ++ [GetIssue 10;
                        PostGraphQL "https://api.github.com/graphql"
                          (QIssueInfo "I10")])
       (with_github
          (fun g => {| pulls := pulls g; closing := closing g;
                       issues := issues g;
                       project_items := {[ "I10" := [] ]};
                       projects := projects g;
                       project_fields := project_fields g;
                       field_values := field_values g |})
          (ex_world (ex_pull true "closed" false)))).
Proof.
  apply (set_issue_status_without_project_item up ex_handler "Done" 10
           {| node_id := "I10"; state := "open"; assignees := ["alice"] |}).
  - apply up_healthy.
  - discriminate.
  - reflexivity.
  - reflexivity.
Defined.

(** Called with a node id and no number, [set_issue_status] looks nothing
    up about the issue: it sends the fetch of the field table, unless the
    table is cached, and then the mutation, whose item id is the node id it
    was given. *)
Theorem set_issue_status_by_node_id net self fields status id w
    field_id option_id :
  healthy net ->
  id <> "" ->
  cached_is self fields w ->
  server_fields self (github w) = Some fields ->
  resolve_status status fields = Ok (field_id, option_id) ->
  exists pre w',
    set_issue_status net self status None (Some id) w = (Ok tt, w') /\
    (pre = [] \/
     pre = [PostGraphQL (graphql_url (gh_config self))
              (QProjectFields (project_node_id self))]) /\
    trace w' = trace w ++ pre ++
               [PostGraphQL (graphql_url (gh_config self))
                  (MUpdateFieldValue (project_node_id self) (Some id)
                     field_id option_id)] /\
    github w' = with_field_values (insert (id, field_id) option_id) (github w).
Proof.
  intros Hnet Hid Hc Hf Hres. unfold set_issue_status. simpl.
  destruct (String.eqb_spec id "") as [|_]; [done|]. simpl.
  unfold bind at 1. simpl. unfold bind at 1.
  unfold get_status_field_id, bind at 1.
  unfold get_project_fields, lru_cache_1.
  assert (Hmut : forall w1,
            (do _ <- set_field_option net self (Some id) field_id option_id;
             ret tt) w1
            = (Ok tt,
               with_github (with_field_values (insert (id, field_id) option_id))
                 (with_trace
                    (trace w1 ++
                     [PostGraphQL (graphql_url (gh_config self))
                        (MUpdateFieldValue (project_node_id self) (Some id)
                           field_id option_id)]) w1))).
  { intros w1. unfold bind, set_field_option.
    rewrite (run_graphql_served net Hnet). reflexivity. }
  assert (Hmiss : fetch_project_fields net self w
                  = (Ok fields,
                     with_trace
                       (trace w ++
                        [PostGraphQL (graphql_url (gh_config self))
                           (QProjectFields (project_node_id self))]) w)).
  { unfold fetch_project_fields, bind.
    rewrite (run_graphql_served net Hnet). simpl.
    unfold server_fields in Hf.
    destruct (project_fields (github w) !! project_node_id self) as [nodes|];
      [|discriminate].
    simpl in *. inversion Hf; subst fields. by destruct w. }
  destruct (fields_cache w) as [[k v]|] eqn:Hcache.
  - destruct (Nat.eqb_spec k (hid self)) as [->|Hk].
    + rewrite (Hc v Hcache), Hres. simpl. rewrite Hmut.
      exists []. eexists. split; [reflexivity|]. split; [by left|]. done.
    + rewrite Hmiss, Hres. simpl. rewrite Hmut.
      eexists _, _. split; [reflexivity|]. split; [by right|].
      simpl. by rewrite <- app_assoc.
  - rewrite Hmiss, Hres. simpl. rewrite Hmut.
    eexists _, _. split; [reflexivity|]. split; [by right|].
    simpl. by rewrite <- app_assoc.
Qed.

Lemma set_issue_status_by_node_id_witness :
  exists pre w',
    set_issue_status up ex_handler "Done" None (Some "PVTI10")
      (ex_world (ex_pull true "closed" false)) = (Ok tt, w') /\
    (pre = [] \/
     pre = [PostGraphQL "https://api.github.com/graphql" (QProjectFields "P1")])
    /\ trace w' = [] ++ pre ++
                  [PostGraphQL "https://api.github.com/graphql"
                     (MUpdateFieldValue "P1" (Some "PVTI10") "F1" "o4")]
    /\ github w'
       = with_field_values (insert ("PVTI10", "F1") "o4")
           (ex_github (ex_pull true "closed" false)).
Proof.
  apply (set_issue_status_by_node_id up ex_handler [ex_status] "Done" "PVTI10"
           (ex_world (ex_pull true "closed" false)) "F1" "o4").
  - apply up_healthy.
  - discriminate.
  - apply ex_cache_empty.
  - reflexivity.
  - reflexivity.
Defined.

(** ** Edges of [sync_issue_status_with_pr] *)

(** A pull request that closes no issue: whatever its state, the run sends
    the fetch of the pull request and the query for the linked issues and
    nothing else, changes neither the server nor the cache, and returns. *)
Theorem sync_without_linked_issues net self pr_number pr edges w :
  healthy net ->
  pulls (github w) !! pr_number = Some pr ->
  closing (github w) !! pr_number = Some edges ->
  present edges = [] ->
  exists w',
    sync_issue_status_with_pr net self pr_number w = (Ok tt, w') /\
    github w' = github w /\
    fields_cache w' = fields_cache w /\
    trace w' = trace w ++
               [GetPull pr_number;
                PostGraphQL (graphql_url (gh_config self))
                  (QLinkedIssues pr_number (organization (gh_config self))
                     (repository (gh_config self)))].
Proof.
  intros Hnet Hpr Hedges Hnone. unfold sync_issue_status_with_pr.
  unfold bind at 1. unfold repo_get_pull.
  rewrite (rest_served net Hnet), Hpr. simpl.
  unfold bind at 1. unfold get_pull_request_linked_issues, bind at 1.
  rewrite (run_graphql_served net Hnet). simpl. rewrite Hedges. simpl.
  rewrite Hnone. unfold bind at 1. simpl. unfold bind at 1. simpl.
  unfold bind at 1. simpl.
  destruct (merged pr); [|destruct (String.eqb (pr_state pr) "closed")];
    unfold bind; simpl; (eexists; split; [reflexivity|]); simpl;
    (split; [done|]); (split; [done|]); by rewrite <- app_assoc.
Qed.

Lemma sync_without_linked_issues_witness :
  exists w',
    sync_issue_status_with_pr up ex_handler 42
      (with_github
         (fun g => {| pulls := pulls g; closing := {[ 42%Z := [None] ]};
                      issues := issues g; project_items := project_items g;
                      projects := projects g;
                      project_fields := project_fields g;
                      field_values := field_values g |})
         (ex_world (ex_pull true "closed" false))) = (Ok tt, w') /\
    github w'
    = {| pulls := pulls (ex_github (ex_pull true "closed" false));
         closing := {[ 42%Z := [None] ]};
         issues := issues (ex_github (ex_pull true "closed" false));
         project_items := project_items (ex_github (ex_pull true "closed" false));
         projects := projects (ex_github (ex_pull true "closed" false));
         project_fields :=
           project_fields (ex_github (ex_pull true "closed" false));
         field_values := ∅ |} /\
    fields_cache w' = None /\
    trace w' = [] ++
               [GetPull 42;
                PostGraphQL "https://api.github.com/graphql"
                  (QLinkedIssues 42 "org" "repo")].
Proof.
  apply (sync_without_linked_issues up ex_handler 42
           (ex_pull true "closed" false) [None]).
  - apply up_healthy.
  - reflexivity.
  - reflexivity.
  - reflexivity.
Defined.

(** A pull request the repository does not have: whether the first call is
    served, gets no response or is refused with a status of 400 or more, the
    run raises after that call, the fetch of the pull request. *)
Theorem sync_unknown_pull_request net self pr_number w :
  refusals net ->
  pulls (github w) !! pr_number = None ->
  exists e,
    sync_issue_status_with_pr net self pr_number w =
    (Raise e, with_trace (trace w ++ [GetPull pr_number]) w).
Proof.
  intros _ Hpr. unfold sync_issue_status_with_pr, bind at 1.
  unfold repo_get_pull. rewrite rest_cases. simpl. rewrite Hpr. simpl.
  destruct (net (length (trace w))); by eexists.
Qed.

Lemma sync_unknown_pull_request_witness :
  exists e,
    sync_issue_status_with_pr up ex_handler 7
      (ex_world (ex_pull true "closed" false)) =
    (Raise e, with_trace ([] ++ [GetPull 7])
                (ex_world (ex_pull true "closed" false))).
Proof.
  apply (sync_unknown_pull_request up ex_handler 7
           (ex_world (ex_pull true "closed" false))).
  - apply up_refusals.
  - reflexivity.
Defined.

(** The issue objects are fetched upfront: on a network that serves every
    call, when the repository lacks one of the linked issues the fetch
    raises, with the server as it was and only fetches of issues sent. *)
Lemma fetch_missing_issue net l : forall objs w,
  healthy net ->
  (exists li, li ∈ l /\ issues (github w) !! li_number li = None) ->
  exists w',
    for_each (fetch_issue net) l objs w = (Raise (GithubException 404), w') /\
    github w' = github w /\
    exists more, trace w' = trace w ++ more /\
                 forall r, r ∈ more -> exists n, r = GetIssue n.
Proof.
  induction l as [|li l IH]; intros objs w Hnet (li0 & Hin & Hmiss).
  - by apply elem_of_nil in Hin.
  - simpl. unfold bind at 1. unfold fetch_issue, bind at 1.
    unfold repo_get_issue. rewrite (rest_served net Hnet).
    destruct (issues (github w) !! li_number li) as [i|] eqn:Hi; simpl.
    + apply elem_of_cons in Hin as [->|Hin]; [congruence|].
      destruct (IH (<[li_number li := i]> objs)
                  (with_github (fun _ => github w)
                     (with_trace (trace w ++ [GetIssue (li_number li)]) w))
                  Hnet) as (w' & Hrun & Hg & more & Hm & Hall).
      { by exists li0. }
      exists w'. split; [done|]. split; [done|].
      exists (GetIssue (li_number li) :: more). simpl in Hm.
      rewrite Hm, <- app_assoc. split; [done|].
      intros r Hr. apply elem_of_cons in Hr as [->|Hr]; [by eexists|].
      by apply Hall.
    + eexists. split; [reflexivity|]. split; [done|].
      exists [GetIssue (li_number li)]. split; [done|].
      intros r Hr. apply list_elem_of_singleton in Hr as ->. by eexists.
Qed.

Theorem sync_missing_linked_issue net self pr_number pr edges w :
  healthy net ->
  pulls (github w) !! pr_number = Some pr ->
  closing (github w) !! pr_number = Some edges ->
  (exists li, li ∈ present edges /\ issues (github w) !! li_number li = None) ->
  exists w',
    sync_issue_status_with_pr net self pr_number w
    = (Raise (GithubException 404), w') /\
    github w' = github w /\
    exists more, trace w' = trace w ++ more /\
                 forall r, r ∈ more ->
                   is_edit r = false /\ is_mutation r = false.
Proof.
  intros Hnet Hpr Hedges Hmiss. unfold sync_issue_status_with_pr.
  unfold bind at 1. unfold repo_get_pull.
  rewrite (rest_served net Hnet), Hpr. simpl.
  unfold bind at 1. unfold get_pull_request_linked_issues, bind at 1.
  rewrite (run_graphql_served net Hnet). simpl. rewrite Hedges. simpl.
  unfold bind at 1. simpl. unfold bind at 1. simpl. unfold bind at 1.
  match goal with
  | |- context [for_each (fetch_issue net) (present edges) ∅ ?w1] =>
      destruct (fetch_missing_issue net (present edges) ∅ w1 Hnet)
        as (w' & Hrun & Hg & more & Hm & Hall); [exact Hmiss|]
  end.
  rewrite Hrun. exists w'. split; [done|]. split; [done|].
  eexists (_ :: _ :: more). simpl in Hm. rewrite Hm, <- !app_assoc.
  split; [reflexivity|].
  intros r Hr. apply elem_of_cons in Hr as [->|Hr]; [done|].
  apply elem_of_cons in Hr as [->|Hr]; [done|].
  by destruct (Hall r Hr) as [n ->].
Qed.

Lemma sync_missing_linked_issue_witness :
  exists w',
    sync_issue_status_with_pr up ex_handler 42
      (with_github (with_issues (delete 11%Z))
         (ex_world (ex_pull true "closed" false)))
    = (Raise (GithubException 404), w') /\
    github w' = with_issues (delete 11%Z) (ex_github (ex_pull true "closed" false))
    /\ exists more, trace w' = [] ++ more /\
                    forall r, r ∈ more ->
                      is_edit r = false /\ is_mutation r = false.
Proof.
  apply (sync_missing_linked_issue up ex_handler 42
           (ex_pull true "closed" false) ex_linked).
  - apply up_healthy.
  - reflexivity.
  - reflexivity.
  - exists {| li_id := "I11"; li_body := ""; li_number := 11; li_title := "b" |}.
    split; [|reflexivity].
    apply list_elem_of_further, list_elem_of_here.
Defined.

(** ** What a branch never does, whatever the network does *)

Section Unmerged.

Variable net : nat -> Net.
Variable self : ProjectItemHandler.
Variable w0 : World.

Abbreviation keeps := (keeps_states w0).
Abbreviation no_state_edit := (fun r => negb (is_state_edit r)).

Lemma keeps_send w r :
  no_state_edit r = true -> keeps w -> keeps (with_trace (trace w ++ [r]) w).
Proof.
  intros Hr (Hp & Hst & more & Hm & Hno). split; [done|]. split; [done|].
  exists (more ++ [r]). simpl. rewrite Hm, <- app_assoc. split; [done|].
  intros r' Hr'. apply elem_of_app in Hr' as [Hr'|Hr']; [by apply Hno|].
  apply list_elem_of_singleton in Hr' as ->. simpl in Hr.
  by destruct (is_state_edit r).
Qed.

(** An edit of the assignees leaves the state of every issue alone. *)
Lemma keeps_update r f n :
  is_state_edit r = false -> (forall i, state (f i) = state i) ->
  hoare keeps (rest net r (serve_update n f)) (fun _ => keeps) (fun _ => keeps).
Proof.
  intros Hr Hf w Hw. rewrite rest_cases. simpl.
  assert (H1 : keeps (with_trace (trace w ++ [r]) w))
    by (apply keeps_send; [by rewrite Hr|done]).
  destruct (net (length (trace w))); try done.
  unfold serve_update.
  destruct (issues (github w) !! n) as [i|] eqn:Hi; [|done]. simpl.
  destruct H1 as (Hp & Hst & Ht). split; [done|]. split; [|done].
  intros m. simpl. rewrite <- Hst. simpl.
  destruct (decide (m = n)) as [->|Hne].
  - rewrite lookup_insert_eq, Hi. simpl. by rewrite Hf.
  - by rewrite lookup_insert_ne.
Qed.

Lemma keeps_set_issue_status status num nid :
  hoare keeps (set_issue_status net self status num nid)
    (fun _ => keeps) (fun _ => keeps).
Proof.
  apply inv_set_issue_status with (ok := no_state_edit).
  - apply keeps_send.
  - by intros w f H.
  - by intros w c H.
  - intros r Hr. by destruct r.
Qed.

Lemma keeps_closed_body li objs :
  hoare keeps (closed_body net self li objs) (fun _ => keeps) (fun _ => keeps).
Proof.
  unfold closed_body.
  apply hoare_bind with (R := fun _ => keeps).
  { intros w Hw. unfold getitem. by destruct (objs !! li_number li). }
  intros i. apply hoare_bind with (R := fun _ => keeps).
  { destruct (assignees i) as [|x l]; [by apply hoare_ret|].
    apply hoare_try with (E' := fun _ => keeps).
    - eapply hoare_bind; [by apply keeps_update|]. intros a. by intros w Hw.
    - intros e. by intros w Hw. }
  intros objs'. eapply hoare_bind; [apply keeps_set_issue_status|].
  intros u. by intros w Hw.
Qed.

Lemma keeps_open_body target_status pr_assignees li objs :
  hoare keeps (open_body net self target_status pr_assignees li objs)
    (fun _ => keeps) (fun _ => keeps).
Proof.
  unfold open_body.
  apply hoare_bind with (R := fun _ => keeps).
  { intros w Hw. unfold getitem. by destruct (objs !! li_number li). }
  intros i. apply hoare_bind with (R := fun _ => keeps).
  { destruct (negb (same_set (assignees i) pr_assignees));
      [|by apply hoare_ret].
    apply hoare_try with (E' := fun _ => keeps).
    - eapply hoare_bind; [by apply keeps_update|]. intros a. by intros w Hw.
    - intros e. by intros w Hw. }
  intros objs'. eapply hoare_bind; [apply keeps_set_issue_status|].
  intros u. by apply hoare_ret.
Qed.

Lemma keeps_sync pr_number pr :
  pulls (github w0) !! pr_number = Some pr -> merged pr = false ->
  hoare keeps (sync_issue_status_with_pr net self pr_number)
    (fun _ => keeps) (fun _ => keeps).
Proof.
  intros Hpr Hm. unfold sync_issue_status_with_pr.
  apply hoare_bind with (R := fun a w => a = pr /\ keeps w).
  { eapply hoare_conseq.
    - apply (inv_get_pull_value net keeps no_state_edit keeps_send
               pr_number eq_refl).
    - done.
    - intros a w [Hw Ha]. split; [|done].
      destruct Hw as (Hp & _). rewrite Hp, Hpr in Ha. by inversion Ha.
    - done. }
  intros a.
  apply hoare_bind with (R := fun _ w => a = pr /\ keeps w).
  { intros w [-> Hw].
    pose proof (inv_linked_issues net self keeps no_state_edit keeps_send
                  pr_number eq_refl w Hw) as H.
    destruct (get_pull_request_linked_issues net self pr_number w)
      as [[l|e] w']; done. }
  intros l.
  apply hoare_bind with (R := fun _ w => a = pr /\ keeps w); [by intros w H|].
  intros u.
  apply hoare_bind with (R := fun _ w => a = pr /\ keeps w); [by intros w H|].
  intros v.
  apply hoare_bind with (R := fun _ w => a = pr /\ keeps w).
  { intros w [-> Hw].
    pose proof (inv_fetch_issues net keeps no_state_edit keeps_send l ∅
                  (fun n => eq_refl) w Hw) as H.
    destruct (for_each (fetch_issue net) l ∅ w) as [[objs|e] w']; done. }
  intros objs w [-> Hw]. rewrite Hm.
  assert (Hloop : forall body w1,
            (forall li s, hoare keeps (body li s) (fun _ => keeps)
                            (fun _ => keeps)) ->
            keeps w1 ->
            match (do _ <- for_each body l objs; ret tt) w1 with
            | (Ok _, w') => keeps w'
            | (Raise _, w') => keeps w'
            end).
  { intros body w1 Hbody Hw1.
    pose proof (hoare_for_each body l (fun _ => keeps) (fun _ => keeps)
                  (fun li s _ => Hbody li s) objs w1 Hw1) as H.
    unfold bind. by destruct (for_each body l objs w1) as [[s|e] w']. }
  destruct (String.eqb (pr_state pr) "closed"); unfold bind at 1; simpl.
  - apply Hloop; [apply keeps_closed_body|done].
  - apply Hloop; [apply keeps_open_body|done].
Qed.

End Unmerged.

(** For a pull request fetched with merged=false, on every network whose
    calls are served, get no response or are refused with a status of 400 or
    more, no issue changes state -- none is closed, none reopened -- and no
    call that sets the state of an issue is sent. *)
Theorem unmerged_run_keeps_issue_states net self pr_number pr w :
  refusals net ->
  pulls (github w) !! pr_number = Some pr ->
  merged pr = false ->
  (forall n,
     state <$> issues
       (github (snd (sync_issue_status_with_pr net self pr_number w))) !! n
     = state <$> issues (github w) !! n)
  /\ exists more,
       trace (snd (sync_issue_status_with_pr net self pr_number w))
       = trace w ++ more /\
       forall r, r ∈ more -> is_state_edit r = false.
Proof.
  intros _ Hpr Hm.
  assert (Hw : keeps_states w w).
  { split; [done|]. split; [done|]. exists []. rewrite app_nil_r.
    split; [done|]. intros r Hr. by apply elem_of_nil in Hr. }
  pose proof (keeps_sync net self w pr_number pr Hpr Hm w Hw) as H.
  assert (Hk : keeps_states w
                 (snd (sync_issue_status_with_pr net self pr_number w))).
  { by destruct (sync_issue_status_with_pr net self pr_number w)
      as [[a|e] w']. }
  by destruct Hk as (_ & Hst & Ht).
Qed.

Lemma unmerged_run_keeps_issue_states_witness :
  state <$> issues
    (github (snd (sync_issue_status_with_pr up ex_handler 42
                    (ex_world (ex_pull false "closed" false))))) !! 10%Z
  = Some "open".
Proof.
  apply (proj1 (unmerged_run_keeps_issue_states up ex_handler 42
                  (ex_pull false "closed" false)
                  (ex_world (ex_pull false "closed" false))
                  up_refusals eq_refl eq_refl) 10%Z).
Defined.

(** For a pull request fetched with merged=true, on every network whose
    calls are served, get no response or are refused with a status of 400 or
    more, every issue keeps its assignees and no call that touches assignees
    is sent. *)
Theorem merged_run_keeps_assignees net self pr_number pr w :
  refusals net ->
  pulls (github w) !! pr_number = Some pr ->
  merged pr = true ->
  (forall n,
     assignees <$> issues
       (github (snd (sync_issue_status_with_pr net self pr_number w))) !! n
     = assignees <$> issues (github w) !! n)
  /\ exists more,
       trace (snd (sync_issue_status_with_pr net self pr_number w))
       = trace w ++ more /\
       forall r, r ∈ more ->
         forall n l, r <> EditIssueAssignees n l /\ r <> RemoveAssignees n l.
Proof.
  intros _ Hpr Hm.
  assert (Hw : closes_only w w).
  { split; [done|]. split; [by left|]. exists []. rewrite app_nil_r.
    split; [done|]. intros r Hr. by apply elem_of_nil in Hr. }
  pose proof (closing_sync net self w pr_number pr Hpr Hm w Hw) as H.
  assert (Hc : closes_only w
                 (snd (sync_issue_status_with_pr net self pr_number w))).
  { by destruct (sync_issue_status_with_pr net self pr_number w)
      as [[a|e] w']. }
  clear H. destruct Hc as (_ & Hiss & more & Hm' & Hedit). split.
  - intros n. destruct (Hiss n) as [->|(i0 & H1 & _ & H3)]; [done|].
    by rewrite H1, H3.
  - exists more. split; [done|]. intros r Hr n l.
    split; intros ->; by destruct (Hedit _ Hr eq_refl) as (? & ? & ? & _).
Qed.

Lemma merged_run_keeps_assignees_witness :
  assignees <$> issues
    (github (snd (sync_issue_status_with_pr up ex_handler 42
                    (ex_world (ex_pull true "closed" false))))) !! 10%Z
  = Some ["alice"].
Proof.
  apply (proj1 (merged_run_keeps_assignees up ex_handler 42
                  (ex_pull true "closed" false)
                  (ex_world (ex_pull true "closed" false))
                  up_refusals eq_refl eq_refl) 10%Z).
Defined.

(** ** Failures that are caught *)

(** In the branch of a pull request closed unmerged, when the removal of
    the assignees gets no response or is refused with a status of 400 or
    more, the exception is caught: a warning naming the issue and the
    exception is printed, the local objects stay as they were, and the body
    goes on with the setting of the status. *)
Theorem closed_body_catches_removal_failure net self li objs i w :
  objs !! li_number li = Some i ->
  assignees i <> [] ->
  net (length (trace w)) = Down \/
  (exists r, net (length (trace w)) = Reply r /\ (400 <= status_code r)%Z) ->
  exists e,
    closed_body net self li objs w =
    (do _ <- set_issue_status net self "Selected for Development"
               (Some (li_number li)) None;
     do _ <- print (LSetSelected (li_number li));
     ret objs)
      (with_stdout (stdout w ++ [LWarnRemove (li_number li) e])
         (with_trace
            (trace w ++ [RemoveAssignees (li_number li) (assignees i)]) w)).
Proof.
  intros Hi Has Hnet. unfold closed_body, bind at 1. unfold getitem.
  rewrite Hi. simpl. destruct (assignees i) as [|x l] eqn:Hl; [done|].
  unfold bind at 1. unfold try_except, bind at 1.
  unfold issue_remove_from_assignees. rewrite rest_cases. simpl.
  destruct Hnet as [->|(r & -> & _)]; by eexists.
Qed.

Lemma closed_body_catches_removal_failure_witness :
  exists e,
    closed_body (fun _ => Down) ex_handler
      {| li_id := "I10"; li_body := ""; li_number := 10; li_title := "a" |}
      {[ 10%Z := {| node_id := "I10"; state := "open";
                    assignees := ["alice"] |} ]}
      (ex_world (ex_pull false "closed" false))
    = (do _ <- set_issue_status (fun _ => Down) ex_handler
                 "Selected for Development" (Some 10%Z) None;
       do _ <- print (LSetSelected 10);
       ret {[ 10%Z := {| node_id := "I10"; state := "open";
                         assignees := ["alice"] |} ]})
        (with_stdout ([] ++ [LWarnRemove 10 e])
           (with_trace ([] ++ [RemoveAssignees 10 ["alice"]])
              (ex_world (ex_pull false "closed" false)))).
Proof.
  apply (closed_body_catches_removal_failure (fun _ => Down) ex_handler
           {| li_id := "I10"; li_body := ""; li_number := 10; li_title := "a" |}
           {[ 10%Z := {| node_id := "I10"; state := "open";
                         assignees := ["alice"] |} ]}
           {| node_id := "I10"; state := "open"; assignees := ["alice"] |}
           (ex_world (ex_pull false "closed" false))).
  - reflexivity.
  - discriminate.
  - by left.
Defined.

(** In the branch of an open pull request, when the assignment gets no
    response or is refused with a status of 400 or more, the exception is
    caught in the same way, and the body goes on with the setting of the
    status. *)
Theorem open_body_catches_assignment_failure net self target_status
    pr_assignees li objs i w :
  objs !! li_number li = Some i ->
  same_set (assignees i) pr_assignees = false ->
  net (length (trace w)) = Down \/
  (exists r, net (length (trace w)) = Reply r /\ (400 <= status_code r)%Z) ->
  exists e,
    open_body net self target_status pr_assignees li objs w =
    (do _ <- set_issue_status net self target_status
               (Some (li_number li)) None;
     ret objs)
      (with_stdout (stdout w ++ [LWarnAssign (li_number li) e])
         (with_trace
            (trace w ++ [EditIssueAssignees (li_number li) pr_assignees]) w)).
Proof.
  intros Hi Hdiff Hnet. unfold open_body, bind at 1. unfold getitem.
  rewrite Hi. simpl. rewrite Hdiff. simpl.
  unfold bind at 1. unfold try_except, bind at 1.
  unfold issue_edit_assignees. rewrite rest_cases. simpl.
  destruct Hnet as [->|(r & -> & _)]; by eexists.
Qed.

Lemma open_body_catches_assignment_failure_witness :
  exists e,
    open_body (fun _ => Down) ex_handler "In Development" ["bob"]
      {| li_id := "I10"; li_body := ""; li_number := 10; li_title := "a" |}
      {[ 10%Z := {| node_id := "I10"; state := "open";
                    assignees := ["alice"] |} ]}
      (ex_world (ex_pull false "open" true))
    = (do _ <- set_issue_status (fun _ => Down) ex_handler "In Development"
                 (Some 10%Z) None;
       ret {[ 10%Z := {| node_id := "I10"; state := "open";
                         assignees := ["alice"] |} ]})
        (with_stdout ([] ++ [LWarnAssign 10 e])
           (with_trace ([] ++ [EditIssueAssignees 10 ["bob"]])
              (ex_world (ex_pull false "open" true)))).
Proof.
  apply (open_body_catches_assignment_failure (fun _ => Down) ex_handler
           "In Development" ["bob"]
           {| li_id := "I10"; li_body := ""; li_number := 10; li_title := "a" |}
           {[ 10%Z := {| node_id := "I10"; state := "open";
                         assignees := ["alice"] |} ]}
           {| node_id := "I10"; state := "open"; assignees := ["alice"] |}
           (ex_world (ex_pull false "open" true))).
  - reflexivity.
  - reflexivity.
  - by left.
Defined.

(** ** More on the cache of the field table *)

(** A fetch of the field table that raises stores nothing: the cache slot
    and the server are as before, and the one query has been sent. *)
Theorem failed_fetch_is_not_cached net self w e w' :
  get_project_fields net self w = (Raise e, w') ->
  fields_cache w' = fields_cache w /\
  github w' = github w /\
  trace w' = trace w ++ [PostGraphQL (graphql_url (gh_config self))
                           (QProjectFields (project_node_id self))].
Proof.
  unfold get_project_fields, lru_cache_1. intros Hcall.
  assert (Hmiss :
    match fetch_project_fields net self w with
    | (Ok v, w1) => (Ok v, with_cache (Some (hid self, v)) w1)
    | (Raise e1, w1) => (Raise e1, w1)
    end = (Raise e, w') ->
    fields_cache w' = fields_cache w /\ github w' = github w /\
    trace w' = trace w ++ [PostGraphQL (graphql_url (gh_config self))
                             (QProjectFields (project_node_id self))]).
  { destruct (fetch_project_fields_trace net self w) as [Ht Hc].
    assert (Hg : github (snd (fetch_project_fields net self w)) = github w).
    { unfold fetch_project_fields, bind. rewrite run_graphql_cases. simpl.
      destruct (net (length (trace w))) as [| |resp]; simpl; [|done|].
      - by destruct (project_fields (github w) !! project_node_id self).
      - destruct (status_code resp =? 200)%Z; [|done].
        destruct (json resp) as [d|]; [|done]. by destruct d. }
    destruct (fetch_project_fields net self w) as [[v|e1] w1];
      [discriminate|].
    intros [= <- <-]. done. }
  destruct (fields_cache w) as [[k v]|]; [|by apply Hmiss].
  destruct (k =? hid self)%nat; [discriminate|by apply Hmiss].
Qed.

Lemma failed_fetch_is_not_cached_witness :
  fields_cache (with_trace [PostGraphQL "https://api.github.com/graphql"
                              (QProjectFields "P1")]
                  (ex_world (ex_pull true "closed" false)))
  = fields_cache (ex_world (ex_pull true "closed" false)).
Proof.
  apply (failed_fetch_is_not_cached (fun _ => Down) ex_handler
           (ex_world (ex_pull true "closed" false)) RequestException
           (with_trace [PostGraphQL "https://api.github.com/graphql"
                          (QProjectFields "P1")]
              (ex_world (ex_pull true "closed" false)))).
  reflexivity.
Defined.

(** The cache has one slot for all handlers: once another handler has
    obtained a table, the next call of this handler fetches again, whatever
    it had cached before. *)
Theorem cache_has_one_slot net h1 h2 w v w' :
  hid h1 <> hid h2 ->
  get_project_fields net h2 w = (Ok v, w') ->
  trace (snd (get_project_fields net h1 w'))
  = trace w' ++ [PostGraphQL (graphql_url (gh_config h1))
                   (QProjectFields (project_node_id h1))].
Proof.
  intros Hne Hcall.
  assert (Hslot : fields_cache w' = Some (hid h2, v)).
  { unfold get_project_fields, lru_cache_1 in Hcall.
    destruct (fields_cache w) as [[k v0]|] eqn:Hcache.
    - destruct (Nat.eqb_spec k (hid h2)) as [->|Hk].
      + by inversion Hcall; subst.
      + destruct (fetch_project_fields net h2 w) as [[v1|e] w1];
          by inversion Hcall; subst.
    - destruct (fetch_project_fields net h2 w) as [[v1|e] w1];
        by inversion Hcall; subst. }
  unfold get_project_fields, lru_cache_1. rewrite Hslot.
  destruct (Nat.eqb_spec (hid h2) (hid h1)) as [Heq|_]; [congruence|].
  destruct (fetch_project_fields_trace net h1 w') as [Ht _].
  by destruct (fetch_project_fields net h1 w') as [[v1|e] w1].
Qed.

Lemma cache_has_one_slot_witness :
  trace (snd (get_project_fields up ex_handler
                (snd (get_project_fields up
                        {| hid := 1; gh_config := ex_config;
                           project_node_id := "P1" |}
                        (ex_world (ex_pull true "closed" false))))))
  = trace (snd (get_project_fields up
                  {| hid := 1; gh_config := ex_config;
                     project_node_id := "P1" |}
                  (ex_world (ex_pull true "closed" false))))
    ++ [PostGraphQL "https://api.github.com/graphql" (QProjectFields "P1")].
Proof.
  apply (cache_has_one_slot up ex_handler
           {| hid := 1; gh_config := ex_config; project_node_id := "P1" |}
           (ex_world (ex_pull true "closed" false)) [ex_status]).
  - discriminate.
  - reflexivity.
Defined.

(** ** A second run, and what a run leaves alone *)

Lemma with_field_values_id g k v :
  field_values g !! k = Some v -> with_field_values (insert k v) g = g.
Proof.
  intros Hk. destruct g. unfold with_field_values. simpl in *. f_equal.
  by apply insert_id.
Qed.

Section SettleAgain.

Variable upd : Issue -> Issue.
Hypothesis upd_node : forall i, node_id (upd i) = node_id i.
Hypothesis upd_idem : forall i, upd (upd i) = upd i.

Variables field_id option_id : string.

Abbreviation again := (settle upd field_id option_id).

Lemma settle_pulls_closing g n :
  pulls (again g n) = pulls g /\ closing (again g n) = closing g.
Proof.
  unfold settle. destruct (issues g !! n); [|done].
  by destruct (first_item g n).
Qed.

Lemma foldl_settle_pulls_closing l : forall g,
  pulls (foldl again g l) = pulls g /\ closing (foldl again g l) = closing g.
Proof.
  induction l as [|n l IH]; intros g; simpl; [done|].
  destruct (IH (again g n)) as [-> ->]. apply settle_pulls_closing.
Qed.

Lemma foldl_settle_project_items l : forall g,
  project_items (foldl again g l) = project_items g.
Proof.
  induction l as [|n l IH]; intros g; simpl; [done|].
  by rewrite IH, settle_project_items.
Qed.

(** An issue that is settled already is left as it is. *)
Lemma settle_settled g n i item :
  issues g !! n = Some i -> upd i = i -> first_item g n = Some item ->
  field_values g !! (item, field_id) = Some option_id ->
  again g n = g.
Proof.
  intros Hi Hupd Hit Hv.
  rewrite (settle_tracked upd field_id option_id g n i item Hi Hit), Hupd.
  rewrite (with_issues_id g n i Hi). by apply with_field_values_id.
Qed.

Lemma foldl_settle_twice l g :
  (forall n, n ∈ l -> is_Some (first_item g n)) ->
  foldl again (foldl again g l) l = foldl again g l.
Proof.
  intros Htr.
  assert (H : forall l', (forall n, n ∈ l' -> n ∈ l) ->
                foldl again (foldl again g l) l' = foldl again g l).
  { induction l' as [|n l' IH]; intros Hsub; [done|]. simpl.
    assert (Hn : n ∈ l) by (apply Hsub; left).
    destruct (Htr n Hn) as [item Hit]. pose proof Hit as Hit'.
    apply first_item_Some in Hit' as (i & _ & _ & Hi & _).
    rewrite (settle_settled (foldl again g l) n (upd i) item).
    - apply IH. intros m Hm. apply Hsub. by right.
    - rewrite (foldl_settle_issues upd upd_node upd_idem) by done.
      rewrite decide_True by done. by rewrite Hi.
    - apply upd_idem.
    - by rewrite (foldl_settle_first_item upd upd_node).
    - by apply (foldl_settle_field_values upd upd_node field_id option_id
                  l g n item). }
  by apply H.
Qed.

(** A field value is written only under the first project item of an
    issue of the list, and only for the field [field_id]. *)
Lemma foldl_settle_field_values_other l item f : forall g,
  f <> field_id \/ (forall n, n ∈ l -> first_item g n <> Some item) ->
  field_values (foldl again g l) !! (item, f) = field_values g !! (item, f).
Proof.
  induction l as [|n l IH]; intros g Hother; simpl; [done|].
  rewrite IH.
  - destruct (first_item g n) as [item'|] eqn:Hit.
    + rewrite (settle_field_values upd field_id option_id g n item' Hit).
      apply lookup_insert_ne. intros [= -> ->].
      destruct Hother as [Hf|Hno]; [done|]. destruct (Hno n); [left|done].
    + by rewrite (settle_untracked upd field_id option_id g n Hit).
  - destruct Hother as [Hf|Hno]; [by left|right].
    intros m Hm. rewrite (settle_first_item upd upd_node). apply Hno. by right.
Qed.

End SettleAgain.

(** On a network that serves every call, a second run right after the
    first returns as well and leaves the server exactly as the first run
    left it, whatever the state of the pull request. *)
Theorem served_sync_twice net self fields pr_number pr edges w
    field_id option_id :
  healthy net ->
  cached_is self fields w ->
  pulls (github w) !! pr_number = Some pr ->
  closing (github w) !! pr_number = Some edges ->
  (forall li, li ∈ present edges ->
     li_number li <> 0%Z /\ is_Some (first_item (github w) (li_number li))) ->
  server_fields self (github w) = Some fields ->
  resolve_status (branch_status pr) fields = Ok (field_id, option_id) ->
  exists w1 w2,
    sync_issue_status_with_pr net self pr_number w = (Ok tt, w1) /\
    sync_issue_status_with_pr net self pr_number w1 = (Ok tt, w2) /\
    github w2 = github w1.
Proof.
  intros Hnet Hc Hpr Hedges Hl Hf Hres.
  set (l := li_number <$> present edges).
  set (g1 := foldl (settle (branch_update pr) field_id option_id) (github w) l).
  pose proof (served_sync_at net self fields pr_number pr edges (github w)
                field_id option_id Hnet Hpr Hedges Hl Hf Hres w
                (conj eq_refl Hc)) as H1.
  destruct (sync_issue_status_with_pr net self pr_number w) as [[[]|e] w1];
    [|done].
  fold l in H1. fold g1 in H1. destruct H1 as [Hg1 Hc1].
  destruct (foldl_settle_pulls_closing (branch_update pr) field_id option_id
              l (github w)) as [Hp1 Hcl1].
  assert (Hl1 : forall li, li ∈ present edges ->
            li_number li <> 0%Z /\ is_Some (first_item g1 (li_number li))).
  { intros li Hli. destruct (Hl li Hli) as [? ?]. split; [done|].
    unfold g1.
    by rewrite (foldl_settle_first_item _ (branch_update_node pr)). }
  assert (Hf1 : server_fields self g1 = Some fields).
  { unfold server_fields, g1.
    by rewrite (foldl_settle_project_fields (branch_update pr)). }
  pose proof (served_sync_at net self fields pr_number pr edges g1
                field_id option_id Hnet) as H2.
  fold g1 in Hp1, Hcl1. rewrite <- Hp1 in Hpr. rewrite <- Hcl1 in Hedges.
  specialize (H2 Hpr Hedges Hl1 Hf1 Hres w1 (conj Hg1 Hc1)).
  destruct (sync_issue_status_with_pr net self pr_number w1)
    as [[[]|e] w2] eqn:Hrun2; [|done].
  exists w1, w2. split; [done|]. split; [done|].
  destruct H2 as [-> _]. rewrite Hg1. fold l. unfold g1.
  apply (foldl_settle_twice _ (branch_update_node pr) (branch_update_idem pr)).
  intros n Hn. apply list_elem_of_fmap in Hn as (li & -> & Hli). by apply Hl.
Qed.

Lemma served_sync_twice_witness :
  exists w1 w2,
    sync_issue_status_with_pr up ex_handler 42
      (ex_world (ex_pull false "open" true)) = (Ok tt, w1) /\
    sync_issue_status_with_pr up ex_handler 42 w1 = (Ok tt, w2) /\
    github w2 = github w1.
Proof.
  apply (served_sync_twice up ex_handler [ex_status] 42
           (ex_pull false "open" true) ex_linked
           (ex_world (ex_pull false "open" true)) "F1" "o2").
  - apply up_healthy.
  - apply ex_cache_empty.
  - reflexivity.
  - reflexivity.
  - apply ex_linked_tracked.
  - reflexivity.
  - reflexivity.
Defined.

(** On a network that serves every call, a run changes nothing but the
    linked issues and the resolved field of their first project items:
    other issues, other fields and items, pull requests, linked-issue
    relations, project items and field tables are as before. *)
Theorem served_sync_frame net self fields pr_number pr edges w
    field_id option_id :
  healthy net ->
  cached_is self fields w ->
  pulls (github w) !! pr_number = Some pr ->
  closing (github w) !! pr_number = Some edges ->
  (forall li, li ∈ present edges ->
     li_number li <> 0%Z /\ is_Some (first_item (github w) (li_number li))) ->
  server_fields self (github w) = Some fields ->
  resolve_status (branch_status pr) fields = Ok (field_id, option_id) ->
  exists w',
    sync_issue_status_with_pr net self pr_number w = (Ok tt, w') /\
    (forall m, m ∉ (li_number <$> present edges) ->
       issues (github w') !! m = issues (github w) !! m) /\
    (forall item f,
       f <> field_id \/
       (forall li, li ∈ present edges ->
          first_item (github w) (li_number li) <> Some item) ->
       field_values (github w') !! (item, f)
       = field_values (github w) !! (item, f)) /\
    pulls (github w') = pulls (github w) /\
    closing (github w') = closing (github w) /\
    project_items (github w') = project_items (github w) /\
    project_fields (github w') = project_fields (github w) /\
    projects (github w') = projects (github w).
Proof.
  intros Hnet Hc Hpr Hedges Hl Hf Hres.
  pose proof (served_sync net self fields pr_number pr edges (github w)
                field_id option_id Hnet Hpr Hedges Hl Hf Hres w
                (conj eq_refl Hc)) as H.
  destruct (sync_issue_status_with_pr net self pr_number w) as [[[]|e] w'];
    [|done].
  exists w'. split; [done|]. rewrite H.
  assert (Htr : forall n, n ∈ (li_number <$> present edges) ->
                  is_Some (first_item (github w) n)).
  { intros n Hn. apply list_elem_of_fmap in Hn as (li & -> & Hli).
    by apply Hl. }
  destruct (foldl_settle_pulls_closing (branch_update pr) field_id option_id
              (li_number <$> present edges) (github w)) as [Hp1 Hcl1].
  split; [|split; [|split; [|split; [|split; [|split]]]]]; try done.
  - intros m Hm.
    rewrite (foldl_settle_issues _ (branch_update_node pr)
               (branch_update_idem pr)) by done.
    by rewrite decide_False.
  - intros item f Hother.
    apply (foldl_settle_field_values_other _ (branch_update_node pr)).
    destruct Hother as [?|Hno]; [by left|right].
    intros n Hn. apply list_elem_of_fmap in Hn as (li & -> & Hli).
    by apply Hno.
  - apply foldl_settle_project_items.
  - apply foldl_settle_project_fields.
  - generalize (li_number <$> present edges) as l, (github w) as g.
    induction l as [|n l IH]; intros g; simpl; [done|].
    rewrite IH. unfold settle. destruct (issues g !! n); [|done].
    by destruct (first_item g n).
Qed.

Lemma served_sync_frame_witness :
  exists w',
    sync_issue_status_with_pr up ex_handler 42
      (ex_world (ex_pull false "closed" false)) = (Ok tt, w') /\
    (forall m, m ∉ (li_number <$> present ex_linked) ->
       issues (github w') !! m
       = issues (ex_github (ex_pull false "closed" false)) !! m) /\
    (forall item f,
       f <> "F1" \/
       (forall li, li ∈ present ex_linked ->
          first_item (ex_github (ex_pull false "closed" false)) (li_number li)
          <> Some item) ->
       field_values (github w') !! (item, f)
       = field_values (ex_github (ex_pull false "closed" false)) !! (item, f))
    /\ pulls (github w') = pulls (ex_github (ex_pull false "closed" false))
    /\ closing (github w') = closing (ex_github (ex_pull false "closed" false))
    /\ project_items (github w')
       = project_items (ex_github (ex_pull false "closed" false))
    /\ project_fields (github w')
       = project_fields (ex_github (ex_pull false "closed" false))
    /\ projects (github w') = projects (ex_github (ex_pull false "closed" false)).
Proof.
  apply (served_sync_frame up ex_handler [ex_status] 42
           (ex_pull false "closed" false) ex_linked
           (ex_world (ex_pull false "closed" false)) "F1" "o1").
  - apply up_healthy.
  - apply ex_cache_empty.
  - reflexivity.
  - reflexivity.
  - apply ex_linked_tracked.
  - reflexivity.
  - reflexivity.
Defined.

(** ** [__init__] *)

(** On a network that serves every call the constructor sends two calls,
    the fetch of the repository named organization/repository and the query
    for the project; it returns a handler that keeps the configuration and
    holds the node id of the project, or raises TypeError when the
    organization has no project of that number. *)
Theorem init_resolves_project net id cfg w :
  healthy net ->
  init net id cfg w =
  (match projects (github w) !! (organization cfg, project_number cfg) with
   | Some project =>
       Ok {| hid := id; gh_config := cfg; project_node_id := project |}
   | None => Raise TypeError
   end,
   with_trace
     (trace w ++
      [GetRepo (organization cfg +:+ "/" +:+ repository cfg);
       PostGraphQL (graphql_url cfg)
         (QProjectNodeId (organization cfg) (project_number cfg))]) w).
Proof.
  intros Hnet. unfold init, bind at 1. rewrite (rest_served net Hnet). simpl.
  unfold bind at 1. unfold get_project_node_id, bind at 1.
  rewrite (run_graphql_served net Hnet). simpl.
  destruct (projects (github w) !! (organization cfg, project_number cfg));
    simpl; destruct w; unfold with_trace, with_github; simpl;
    by rewrite <- app_assoc.
Qed.

Lemma init_resolves_project_witness :
  init up 0 ex_config (ex_world (ex_pull true "closed" false)) =
  (Ok ex_handler,
   with_trace ([] ++ [GetRepo "org/repo";
                      PostGraphQL "https://api.github.com/graphql"
                        (QProjectNodeId "org" 1)])
     (ex_world (ex_pull true "closed" false))).
Proof.
  apply (init_resolves_project up 0 ex_config
           (ex_world (ex_pull true "closed" false)) up_healthy).
Defined.

(** ** An issue is closed at most once *)

Lemma state_edits_app n a b :
  state_edits n (a ++ b) = (state_edits n a + state_edits n b)%nat.
Proof. unfold state_edits. by rewrite List.filter_app, length_app. Qed.

Lemma closed_once_weaken t0 objs w :
  closed_once t0 objs w -> at_most_one_close t0 w.
Proof.
  intros (more & Hm & Hn). exists more. split; [done|].
  intros n. destruct (Hn n) as [H|[H _]]; lia.
Qed.

Section ClosedOnce.

Variable net : nat -> Net.
Variable self : ProjectItemHandler.
Variable t0 : list Request.

Abbreviation other_call := (fun r => negb (is_state_edit r)).

Lemma closed_once_send objs w r :
  other_call r = true -> closed_once t0 objs w ->
  closed_once t0 objs (with_trace (trace w ++ [r]) w).
Proof.
  intros Hr (more & Hm & Hn). exists (more ++ [r]). simpl.
  rewrite Hm, <- app_assoc. split; [done|]. intros n.
  rewrite state_edits_app. unfold state_edits at 2 4. simpl.
  simpl in Hr. destruct r; try done; simpl; rewrite Nat.add_0_r; apply Hn.
Qed.

Lemma closed_once_set_issue_status objs status num nid :
  hoare (closed_once t0 objs) (set_issue_status net self status num nid)
    (fun _ => closed_once t0 objs) (fun _ => closed_once t0 objs).
Proof.
  apply inv_set_issue_status with (ok := other_call).
  - apply closed_once_send.
  - by intros w f H.
  - by intros w c H.
  - intros r Hr. by destruct r.
Qed.

(** The closing call: sent for an object that shows the issue open, so for
    an issue whose state this run has not set yet. *)
Lemma closed_once_edit objs n i :
  objs !! n = Some i -> state i = "open" ->
  hoare (closed_once t0 objs) (issue_edit_state net n "closed")
    (fun a => closed_once t0 (<[n := a]> objs))
    (fun _ => at_most_one_close t0).
Proof.
  intros Hi Hopen w (more & Hm & Hn).
  assert (H0 : state_edits n more = 0%nat).
  { destruct (Hn n) as [H|[_ H]]; [done|]. by destruct (H i Hi). }
  assert (Hcount : forall m,
            state_edits m (more ++ [EditIssueState n "closed"])
            = if decide (m = n) then 1%nat else state_edits m more).
  { intros m. rewrite state_edits_app. unfold state_edits at 2. simpl.
    destruct (decide (m = n)) as [->|Hne].
    - rewrite Z.eqb_refl, H0. reflexivity.
    - destruct (Z.eqb_spec n m) as [->|_]; [done|]. simpl. lia. }
  unfold issue_edit_state. rewrite rest_cases. simpl.
  assert (Hfail : at_most_one_close t0
                    (with_trace (trace w ++ [EditIssueState n "closed"]) w)).
  { exists (more ++ [EditIssueState n "closed"]). simpl.
    rewrite Hm, <- app_assoc. split; [done|]. intros m. rewrite Hcount.
    destruct (decide (m = n)); [lia|]. destruct (Hn m) as [H|[H _]]; lia. }
  destruct (net (length (trace w))); try done.
  unfold serve_update.
  destruct (issues (github w) !! n) as [i'|]; [|done]. simpl.
  exists (more ++ [EditIssueState n "closed"]). simpl.
  rewrite Hm, <- app_assoc. split; [done|]. intros m. rewrite Hcount.
  destruct (decide (m = n)) as [->|Hne].
  - right. split; [done|]. intros j. rewrite lookup_insert_eq.
    intros [= <-]. done.
  - rewrite lookup_insert_ne by done. apply Hn.
Qed.

Lemma closed_once_merged_body li objs :
  hoare (closed_once t0 objs) (merged_body net self li objs)
    (closed_once t0) (fun _ => at_most_one_close t0).
Proof.
  unfold merged_body. set (n := li_number li).
  apply hoare_bind with
    (R := fun i w => objs !! n = Some i /\ closed_once t0 objs w).
  { intros w Hw. unfold getitem. destruct (objs !! n) as [i|] eqn:Hi; simpl;
      [done|by apply closed_once_weaken in Hw]. }
  intros i. apply hoare_bind with (R := closed_once t0).
  { destruct (String.eqb (state i) "open") eqn:Hopen.
    - apply String.eqb_eq in Hopen.
      apply hoare_bind with
        (R := fun a w => closed_once t0 (<[n := a]> objs) w).
      + intros w [Hi Hw].
        by apply (closed_once_edit objs n i Hi Hopen w Hw).
      + intros a.
        apply hoare_bind with
          (R := fun _ => closed_once t0 (<[n := a]> objs)).
        * by intros w Hw.
        * intros u w Hw. done.
    - apply hoare_bind with (R := fun _ => closed_once t0 objs).
      + by intros w [Hi Hw].
      + intros u w Hw. done. }
  intros objs'.
  apply hoare_bind with (R := fun _ => closed_once t0 objs').
  { eapply hoare_weaken_exn; [apply closed_once_set_issue_status|].
    intros e w. apply closed_once_weaken. }
  intros u. apply hoare_bind with (R := fun _ => closed_once t0 objs').
  - by intros w Hw.
  - intros v w Hw. done.
Qed.

Lemma closed_once_fetch l objs :
  hoare (fun w => forall o, closed_once t0 o w)
    (for_each (fetch_issue net) l objs)
    (fun _ w => forall o, closed_once t0 o w)
    (fun _ => at_most_one_close t0).
Proof.
  eapply hoare_weaken_exn.
  - apply (inv_fetch_issues net (fun w => forall o, closed_once t0 o w)
             other_call).
    + intros w r Hr Hw o. by apply closed_once_send.
    + done.
  - intros e w Hw. apply (closed_once_weaken t0 ∅ w (Hw ∅)).
Qed.

End ClosedOnce.

(** The two branches that never set the state of an issue, for an
    invariant that looks neither at the server nor at the cache nor at the
    lines printed. *)
Section QuietBranches.

Variable net : nat -> Net.
Variable self : ProjectItemHandler.
Variable I : World -> Prop.

Hypothesis I_send :
  forall w r, negb (is_state_edit r) = true -> I w ->
              I (with_trace (trace w ++ [r]) w).
Hypothesis I_github : forall w g, I w -> I (with_github (fun _ => g) w).
Hypothesis I_cache : forall w c, I w -> I (with_cache c w).
Hypothesis I_stdout : forall w o, I w -> I (with_stdout o w).

Lemma quiet_print l : hoare I (print l) (fun _ => I) (fun _ => I).
Proof. apply hoare_print. intros w Hw. by apply I_stdout. Qed.

Lemma quiet_set_issue_status status num nid :
  hoare I (set_issue_status net self status num nid) (fun _ => I) (fun _ => I).
Proof.
  apply inv_set_issue_status with (ok := fun r => negb (is_state_edit r)).
  - apply I_send.
  - intros w f Hw.
    by apply (I_github w (with_field_values f (github w))) in Hw.
  - apply I_cache.
  - intros r Hr. by destruct r.
Qed.

Lemma quiet_update r f n :
  is_state_edit r = false ->
  hoare I (rest net r (serve_update n f)) (fun _ => I) (fun _ => I).
Proof.
  intros Hr. apply inv_rest_any with (ok := fun r => negb (is_state_edit r)).
  - apply I_send.
  - by rewrite Hr.
  - apply I_github.
Qed.

Lemma quiet_closed_body li objs :
  hoare I (closed_body net self li objs) (fun _ => I) (fun _ => I).
Proof.
  unfold closed_body.
  apply hoare_bind with (R := fun _ => I).
  { intros w Hw. unfold getitem. by destruct (objs !! li_number li). }
  intros i. apply hoare_bind with (R := fun _ => I).
  { destruct (assignees i) as [|x l]; [by apply hoare_ret|].
    apply hoare_try with (E' := fun _ => I).
    - eapply hoare_bind; [by apply quiet_update|]. intros a.
      eapply hoare_bind; [apply quiet_print|]. intros u. by apply hoare_ret.
    - intros e. eapply hoare_bind; [apply quiet_print|].
      intros u. by apply hoare_ret. }
  intros objs'. eapply hoare_bind; [apply quiet_set_issue_status|].
  intros u. eapply hoare_bind; [apply quiet_print|].
  intros v. by apply hoare_ret.
Qed.

Lemma quiet_open_body target_status pr_assignees li objs :
  hoare I (open_body net self target_status pr_assignees li objs)
    (fun _ => I) (fun _ => I).
Proof.
  unfold open_body.
  apply hoare_bind with (R := fun _ => I).
  { intros w Hw. unfold getitem. by destruct (objs !! li_number li). }
  intros i. apply hoare_bind with (R := fun _ => I).
  { destruct (negb (same_set (assignees i) pr_assignees));
      [|by apply hoare_ret].
    apply hoare_try with (E' := fun _ => I).
    - eapply hoare_bind; [by apply quiet_update|]. intros a.
      eapply hoare_bind; [apply quiet_print|]. intros u. by apply hoare_ret.
    - intros e. eapply hoare_bind; [apply quiet_print|].
      intros u. by apply hoare_ret. }
  intros objs'. eapply hoare_bind; [apply quiet_set_issue_status|].
  intros u. by apply hoare_ret.
Qed.

End QuietBranches.

(** Whatever the pull request, on every network whose calls are served,
    get no response or are refused with a status of 400 or more, a run sets
    the state of an issue at most once: the object fetched upfront is shared
    by all linked issues of the same number and shows the issue closed once
    the call has gone through, and a call that fails ends the run. *)
Theorem issue_closed_at_most_once net self pr_number w n :
  refusals net ->
  exists more,
    trace (snd (sync_issue_status_with_pr net self pr_number w))
    = trace w ++ more /\
    (state_edits n more <= 1)%nat.
Proof.
  intros _.
  set (t0 := trace w).
  set (I := fun w1 : World => forall o, closed_once t0 o w1).
  assert (I_send : forall w1 r, negb (is_state_edit r) = true -> I w1 ->
                     I (with_trace (trace w1 ++ [r]) w1)).
  { intros w1 r Hr Hw1 o. by apply closed_once_send. }
  assert (Hweak : forall (e : exn) w1, I w1 -> at_most_one_close t0 w1).
  { intros _ w1 Hw1. apply (closed_once_weaken t0 ∅ w1 (Hw1 ∅)). }
  assert (H : hoare I (sync_issue_status_with_pr net self pr_number)
                (fun _ => at_most_one_close t0)
                (fun _ => at_most_one_close t0)).
  { unfold sync_issue_status_with_pr.
    apply hoare_bind with (R := fun _ => I).
    { eapply hoare_weaken_exn; [|exact Hweak].
      by apply inv_get_pull with (ok := fun r => negb (is_state_edit r)). }
    intros pr. apply hoare_bind with (R := fun _ => I).
    { eapply hoare_weaken_exn; [|exact Hweak].
      by apply inv_linked_issues with (ok := fun r => negb (is_state_edit r)). }
    intros l. apply hoare_bind with (R := fun _ => I); [by intros w1 Hw1|].
    intros u. apply hoare_bind with (R := fun _ => I); [by intros w1 Hw1|].
    intros v. apply hoare_bind with (R := fun _ => I).
    { apply closed_once_fetch. }
    intros objs.
    assert (Hquiet : forall body,
              (forall li s, hoare I (body li s) (fun _ => I) (fun _ => I)) ->
              hoare I (do _ <- for_each body l objs; ret tt)
                (fun _ => at_most_one_close t0)
                (fun _ => at_most_one_close t0)).
    { intros body Hbody. eapply hoare_bind.
      - eapply hoare_weaken_exn; [|exact Hweak].
        apply (hoare_for_each body l (fun _ => I)). intros li s _. apply Hbody.
      - intros s. apply hoare_ret. intros w1. apply (Hweak KeyError). }
    destruct (merged pr).
    - apply hoare_bind with (R := fun _ => I); [by intros w1 Hw1|].
      intros x. eapply hoare_bind.
      + intros w1 Hw1.
        apply (hoare_for_each (merged_body net self) l (closed_once t0)
                 (fun _ => at_most_one_close t0)
                 (fun li s _ => closed_once_merged_body net self t0 li s)
                 objs w1 (Hw1 objs)).
      + intros s. apply hoare_ret. intros w1. apply closed_once_weaken.
    - destruct (String.eqb (pr_state pr) "closed").
      + apply hoare_bind with (R := fun _ => I); [by intros w1 Hw1|].
        intros x. apply Hquiet. intros li s.
        apply quiet_closed_body; try done; by intros w1 y Hw1.
      + apply hoare_bind with (R := fun _ => I); [by intros w1 Hw1|].
        intros x. apply Hquiet. intros li s.
        apply quiet_open_body; try done; by intros w1 y Hw1. }
  assert (Hw : I w).
  { intros o. exists []. unfold t0. rewrite app_nil_r. split; [done|].
    intros m. by left. }
  specialize (H w Hw).
  assert (Hend : at_most_one_close t0
                   (snd (sync_issue_status_with_pr net self pr_number w))).
  { by destruct (sync_issue_status_with_pr net self pr_number w)
      as [[a|e] w']. }
  destruct Hend as (more & Hm & Hall). exists more. split; [done|].
  apply Hall.
Qed.

Lemma issue_closed_at_most_once_witness :
  exists more,
    trace (snd (sync_issue_status_with_pr up ex_handler 42 ex_twice_world))
    = [] ++ more /\
    (state_edits 10 more <= 1)%nat.
Proof.
  apply (issue_closed_at_most_once up ex_handler 42 ex_twice_world 10%Z).
  apply up_refusals.
Defined.

(** ** A status the project does not have *)

Section Misconfigured.

Variable net : nat -> Net.
Hypothesis net_up : healthy net.

Variable self : ProjectItemHandler.
Variable fields : list Field.

Lemma served_set_issue_status_raises g status n i item items e :
  n <> 0%Z ->
  issues g !! n = Some i ->
  project_items g !! node_id i = Some (item :: items) ->
  server_fields self g = Some fields ->
  resolve_status status fields = Raise e ->
  hoare (at_server self fields g)
    (set_issue_status net self status (Some n) None)
    (fun _ _ => False) (fun e' w => e' = e /\ at_server self fields g w).
Proof.
  intros Hn Hi Hitems Hf Hres. unfold set_issue_status. simpl.
  destruct (Z.eqb_spec n 0) as [|_]; [done|]. simpl.
  apply hoare_bind with (R := fun _ => at_server self fields g).
  - eapply hoare_bind.
    + eapply hoare_weaken_exn; [by apply (served_get_issue net net_up)|done].
    + intros a. apply hoare_bind with
        (R := fun b w => b = item :: items /\ at_server self fields g w).
      * intros w [-> Hw].
        pose proof (served_get_issue_info net net_up self fields g (node_id i)
                      _ Hitems w Hw) as H.
        by destruct (get_issue_info net self (node_id i) w) as [[b|e'] w'].
      * by intros b w [-> Hw].
  - intros issue_id. apply hoare_bind with (R := fun _ _ => False);
      [|by intros ids w Hw].
    unfold get_status_field_id.
    apply hoare_bind with
      (R := fun fs w => fs = fields /\ at_server self fields g w).
    + intros w Hw.
      pose proof (served_get_project_fields net net_up self fields g Hf w Hw)
        as H.
      by destruct (get_project_fields net self w) as [[v|e'] w'].
    + intros fs w [-> Hw]. by rewrite Hres.
Qed.

(** Each loop body rewrites its issue before it asks for the status. *)
Lemma merged_body_raises g li objs i item e :
  li_number li <> 0%Z -> objs !! li_number li = Some i -> agrees objs g ->
  first_item g (li_number li) = Some item ->
  server_fields self g = Some fields ->
  resolve_status "Done" fields = Raise e ->
  hoare (at_server self fields g) (merged_body net self li objs)
    (fun _ _ => False)
    (fun e' w => e' = e /\
       at_server self fields
         (with_issues (insert (li_number li) (close_if_open i)) g) w).
Proof.
  intros Hn Hi Hag Hit Hf Hres. unfold merged_body.
  set (n := li_number li) in *.
  apply first_item_Some in Hit as (i' & it & items & Hi' & Hitems & ->).
  rewrite (Hag n i Hi) in Hi'. inversion Hi'; subst i'.
  apply hoare_bind with (R := fun a w => a = i /\ at_server self fields g w).
  { intros w Hw. unfold getitem. by rewrite Hi. }
  intros a.
  apply hoare_bind with
    (R := fun _ => at_server self fields
                     (with_issues (insert n (close_if_open i)) g)).
  { intros w [-> Hw]. unfold close_if_open.
    destruct (String.eqb (state i) "open").
    - pose proof (served_update net net_up self fields g n
                    (set_state "closed") i (EditIssueState n "closed")
                    (Hag n i Hi) w Hw) as H.
      unfold issue_edit_state, bind at 1.
      destruct (rest net _ _ w) as [[b|e'] w']; [|done].
      by destruct H as [-> H].
    - simpl. by rewrite (with_issues_id g n i (Hag n i Hi)). }
  intros objs'.
  apply hoare_bind with (R := fun _ _ => False); [|by intros u w Hw].
  apply (served_set_issue_status_raises _ "Done" n (close_if_open i) it items);
    try done.
  - simpl. by rewrite lookup_insert_eq.
  - simpl. by rewrite close_if_open_node.
Qed.

Lemma closed_body_raises g li objs i item e :
  li_number li <> 0%Z -> objs !! li_number li = Some i -> agrees objs g ->
  first_item g (li_number li) = Some item ->
  server_fields self g = Some fields ->
  resolve_status "Selected for Development" fields = Raise e ->
  hoare (at_server self fields g) (closed_body net self li objs)
    (fun _ _ => False)
    (fun e' w => e' = e /\
       at_server self fields
         (with_issues (insert (li_number li) (unassign i)) g) w).
Proof.
  intros Hn Hi Hag Hit Hf Hres. unfold closed_body.
  set (n := li_number li) in *.
  apply first_item_Some in Hit as (i' & it & items & Hi' & Hitems & ->).
  rewrite (Hag n i Hi) in Hi'. inversion Hi'; subst i'.
  apply hoare_bind with (R := fun a w => a = i /\ at_server self fields g w).
  { intros w Hw. unfold getitem. by rewrite Hi. }
  intros a.
  apply hoare_bind with
    (R := fun _ => at_server self fields
                     (with_issues (insert n (unassign i)) g)).
  { intros w [-> Hw]. unfold unassign.
    destruct (assignees i) as [|x l] eqn:Has.
    - simpl. by rewrite (with_issues_id g n i (Hag n i Hi)).
    - pose proof (served_update net net_up self fields g n
                    (drop_assignees (x :: l)) i (RemoveAssignees n (x :: l))
                    (Hag n i Hi) w Hw) as H.
      unfold try_except, issue_remove_from_assignees, bind at 1.
      destruct (rest net _ _ w) as [[b|e'] w']; [|done].
      by destruct H as [-> H]. }
  intros objs'.
  apply hoare_bind with (R := fun _ _ => False); [|by intros u w Hw].
  apply (served_set_issue_status_raises _ "Selected for Development" n
           (unassign i) it items); try done.
  - simpl. by rewrite lookup_insert_eq.
  - simpl. by rewrite unassign_node.
Qed.

Lemma open_body_raises target_status pr_assignees g li objs i item e :
  li_number li <> 0%Z -> objs !! li_number li = Some i -> agrees objs g ->
  first_item g (li_number li) = Some item ->
  server_fields self g = Some fields ->
  resolve_status target_status fields = Raise e ->
  hoare (at_server self fields g)
    (open_body net self target_status pr_assignees li objs)
    (fun _ _ => False)
    (fun e' w => e' = e /\
       at_server self fields
         (with_issues (insert (li_number li) (assign pr_assignees i)) g) w).
Proof.
  intros Hn Hi Hag Hit Hf Hres. unfold open_body.
  set (n := li_number li) in *.
  apply first_item_Some in Hit as (i' & it & items & Hi' & Hitems & ->).
  rewrite (Hag n i Hi) in Hi'. inversion Hi'; subst i'.
  apply hoare_bind with (R := fun a w => a = i /\ at_server self fields g w).
  { intros w Hw. unfold getitem. by rewrite Hi. }
  intros a.
  apply hoare_bind with
    (R := fun _ => at_server self fields
                     (with_issues (insert n (assign pr_assignees i)) g)).
  { intros w [-> Hw]. unfold assign.
    destruct (negb (same_set (assignees i) pr_assignees)).
    - pose proof (served_update net net_up self fields g n
                    (set_assignees pr_assignees) i
                    (EditIssueAssignees n pr_assignees)
                    (Hag n i Hi) w Hw) as H.
      unfold try_except, issue_edit_assignees, bind at 1.
      destruct (rest net _ _ w) as [[b|e'] w']; [|done].
      by destruct H as [-> H].
    - simpl. by rewrite (with_issues_id g n i (Hag n i Hi)). }
  intros objs'.
  apply hoare_bind with (R := fun _ _ => False); [|by intros u w Hw].
  apply (served_set_issue_status_raises _ target_status n
           (assign pr_assignees i) it items); try done.
  - simpl. by rewrite lookup_insert_eq.
  - simpl. by rewrite assign_node.
Qed.

End Misconfigured.

(** When the field table lacks the status of the branch, a run on a served
    network is not all-or-nothing: the first linked issue is rewritten --
    closed, unassigned or assigned -- before the look-up raises its
    ValueError, and the run ends there, no status set and the other linked
    issues untouched. *)
Theorem missing_status_aborts_after_first_edit net self fields pr_number pr
    edges li others i w :
  healthy net ->
  cached_is self fields w ->
  pulls (github w) !! pr_number = Some pr ->
  closing (github w) !! pr_number = Some edges ->
  present edges = li :: others ->
  (forall li', li' ∈ present edges ->
     is_Some (issues (github w) !! li_number li')) ->
  li_number li <> 0%Z ->
  issues (github w) !! li_number li = Some i ->
  is_Some (first_item (github w) (li_number li)) ->
  server_fields self (github w) = Some fields ->
  unmatched (branch_status pr) fields ->
  exists w',
    sync_issue_status_with_pr net self pr_number w
    = (Raise (ValueError (field_not_found (branch_status pr))), w') /\
    github w'
    = with_issues (insert (li_number li) (branch_update pr i)) (github w).
Proof.
  intros Hnet Hc Hpr Hedges Hfirst Hiss Hn Hi [item Hit] Hf Hun.
  pose proof (resolve_unmatched _ _ Hun) as Hres.
  set (g := github w) in *.
  assert (H : hoare (at_server self fields g)
                (sync_issue_status_with_pr net self pr_number)
                (fun _ _ => False)
                (fun e w' =>
                   e = ValueError (field_not_found (branch_status pr)) /\
                   github w' = with_issues
                                 (insert (li_number li) (branch_update pr i))
                                 g)).
  { unfold sync_issue_status_with_pr.
    apply hoare_bind with (R := fun a w1 => a = pr /\ at_server self fields g w1).
    { intros w1 [Hg1 Hc1]. unfold repo_get_pull.
      rewrite (rest_served net Hnet), Hg1, Hpr. simpl. by rewrite <- Hg1. }
    intros a.
    apply hoare_bind with
      (R := fun l w1 => a = pr /\ l = li :: others
                        /\ at_server self fields g w1).
    { intros w1 [-> [Hg1 Hc1]]. unfold get_pull_request_linked_issues, bind.
      rewrite (run_graphql_served net Hnet). simpl. rewrite Hg1, Hedges.
      simpl. rewrite Hfirst. by rewrite <- Hg1. }
    intros l.
    apply hoare_bind with
      (R := fun _ w1 => a = pr /\ l = li :: others
                        /\ at_server self fields g w1); [by intros w1 H1|].
    intros u.
    apply hoare_bind with
      (R := fun _ w1 => a = pr /\ l = li :: others
                        /\ at_server self fields g w1); [by intros w1 H1|].
    intros v.
    apply hoare_bind with
      (R := fun objs w1 => a = pr /\ l = li :: others /\
              at_server self fields g w1 /\ agrees objs g /\
              is_Some (objs !! li_number li)).
    { intros w1 (-> & -> & Hw1).
      assert (Hag : agrees (∅ : gmap Z Issue) g)
        by (intros m j Hm; by rewrite lookup_empty in Hm).
      rewrite Hfirst in Hiss.
      pose proof (served_fetch net Hnet self fields (li :: others) g ∅
                    Hiss Hag w1 Hw1) as H1.
      destruct (for_each (fetch_issue net) (li :: others) ∅ w1)
        as [[objs|e] w2]; [|done].
      destruct H1 as (H1 & H2 & H3). split; [done|]. split; [done|].
      split; [done|]. split; [done|]. apply H3. right. left. }
    intros objs w1 (-> & -> & Hw1 & Hag & [i' Hi']).
    assert (i' = i) as ->.
    { pose proof (Hag _ _ Hi') as Hx. rewrite Hi in Hx. by inversion Hx. }
    assert (Hprint : forall l', at_server self fields g
                                  (with_stdout (stdout w1 ++ l') w1))
      by (intros l'; destruct Hw1; by split).
    unfold branch_status, branch_update in *.
    destruct (merged pr).
    - unfold bind at 1. simpl. unfold bind at 1. simpl. unfold bind at 1.
      pose proof (merged_body_raises net Hnet self fields g li objs i item _
                    Hn Hi' Hag Hit Hf Hres _ (Hprint [LMerged])) as H1.
      destruct (merged_body net self li objs _) as [[s|e] w2]; [done|].
      by destruct H1 as [-> [H1 _]].
    - destruct (String.eqb (pr_state pr) "closed").
      + unfold bind at 1. simpl. unfold bind at 1. simpl. unfold bind at 1.
        pose proof (closed_body_raises net Hnet self fields g li objs i item _
                      Hn Hi' Hag Hit Hf Hres _
                      (Hprint [LClosedWithoutMerging])) as H1.
        destruct (closed_body net self li objs _) as [[s|e] w2]; [done|].
        by destruct H1 as [-> [H1 _]].
      + unfold bind at 1. simpl. unfold bind at 1. simpl. unfold bind at 1.
        pose proof (open_body_raises net Hnet self fields (target_of pr)
                      (assignees_or_author pr) g li objs i item _
                      Hn Hi' Hag Hit Hf Hres _
                      (Hprint [LTargetStatus (target_of pr)])) as H1.
        destruct (open_body net self _ _ li objs _) as [[s|e] w2]; [done|].
        by destruct H1 as [-> [H1 _]]. }
  specialize (H w (conj eq_refl Hc)).
  destruct (sync_issue_status_with_pr net self pr_number w) as [[a|e] w'];
    [done|].
  destruct H as [-> H]. by exists w'.
Qed.

Lemma missing_status_aborts_after_first_edit_witness :
  exists w',
    sync_issue_status_with_pr up ex_handler 42
      (ex_bare_world (ex_pull true "closed" false))
    = (Raise (ValueError (field_not_found "Done")), w') /\
    github w'
    = with_issues
        (insert 10%Z {| node_id := "I10"; state := "closed";
                        assignees := ["alice"] |})
        (github (ex_bare_world (ex_pull true "closed" false))).
Proof.
  apply (missing_status_aborts_after_first_edit up ex_handler [ex_backlog] 42
           (ex_pull true "closed" false) ex_linked
           {| li_id := "I10"; li_body := ""; li_number := 10;
              li_title := "a" |}
           [ {| li_id := "I11"; li_body := ""; li_number := 11;
                li_title := "b" |} ]
           {| node_id := "I10"; state := "open"; assignees := ["alice"] |}
           (ex_bare_world (ex_pull true "closed" false))).
  - apply up_healthy.
  - intros v Hv. discriminate.
  - reflexivity.
  - reflexivity.
  - reflexivity.
  - intros li' Hli.
    apply elem_of_cons in Hli as [->|Hli]; [by eexists|].
    apply list_elem_of_singleton in Hli as ->. by eexists.
  - discriminate.
  - reflexivity.
  - by eexists.
  - reflexivity.
  - intros f Hf _ o Ho.
    apply list_elem_of_singleton in Hf as ->.
    apply list_elem_of_singleton in Ho as ->. discriminate.
Defined.
